(** * Ratify key management: Azure Key Vault provider and refresher registry

    A shallow embedding of
      - pkg/keymanagementprovider/azurekeyvault/provider.go
      - the registry of package pkg/keymanagementprovider/refresh
        ([Register], [CreateRefresherFromConfig])
      - the status helpers of the KeyManagementProvider controller, package
        clusterresource ([writeKMProviderStatus],
        [updateKMProviderErrorStatus], [updateKMProviderSuccessStatus])
    and the properties of the version-history window, the per-object fetch,
    the certificate parser and the refresher registry.

    Conventions.
      - Go's [int] is a 64-bit two's-complement integer: values are kept in
        [Z] and every arithmetic operation of the source is followed by
        [GoInt.wrap].
      - A Go function that may panic returns an [outcome]; [Panics] is the
        run-time panic, distinct from a returned [error].
      - Pointer fields of SDK structs are [option]s; dereferencing [None]
        panics. *)

From Stdlib Require Import ZArith Lia List String Ascii Bool.
From stdpp Require Import base option list strings gmap pretty.

Local Open Scope Z_scope.

(* ===================================================================== *)
(** ** Go run-time model: machine integers, panics, slice expressions     *)
(* ===================================================================== *)

Module GoInt.

Definition min_int : Z := - 2 ^ 63.
Definition max_int : Z := 2 ^ 63 - 1.

(** The values an [int] can hold. *)
Definition in_range (z : Z) : Prop := min_int <= z <= max_int.

(** Two's-complement wrap-around of a mathematical integer. *)
Definition wrap (z : Z) : Z := (z + 2 ^ 63) mod 2 ^ 64 - 2 ^ 63.

Definition add (a b : Z) : Z := wrap (a + b).
Definition sub (a b : Z) : Z := wrap (a - b).

End GoInt.

(** Run-time panics the modelled code can raise. *)
Inductive panic : Type :=
| SliceBoundsOutOfRange
| NilPointerDereference
| PanicMessage (msg : string).

(** The result of running a Go function that may panic. *)
Inductive outcome (A : Type) : Type :=
| Returns (a : A)
| Panics (p : panic).
Arguments Returns {A} a.
Arguments Panics {A} p.

Definition len {A : Type} (s : list A) : Z := Z.of_nat (length s).

(** [len] of a string or byte slice. *)
Definition strlen (s : string) : Z := Z.of_nat (String.length s).

(** A slice whose length fits an [int], as every Go slice does. *)
Definition len_fits {A : Type} (s : list A) : Prop := len s <= GoInt.max_int.

(** The slice expression [s[low:high]].  It panics unless
    [0 <= low <= high <= len(s)].  (Go bounds [high] by the capacity; both
    slice expressions of this file have [high <= len(s)] by construction, so
    the length is the bound that matters.) *)
Definition slice_expr {A : Type} (s : list A) (low high : Z) : outcome (list A) :=
  if bool_decide (0 <= low /\ low <= high /\ high <= len s)
  then Returns (take (Z.to_nat (high - low)) (drop (Z.to_nat low) s))
  else Panics SliceBoundsOutOfRange.

(* ===================================================================== *)
(** ** Package types: objects, version history, map keys                  *)
(* ===================================================================== *)

(** time.Time, as an instant on the integer time line. *)
Definition Time : Type := Z.
Definition Before (t u : Time) : bool := t <? u.

(** types.KeyVaultValue: one configured certificate or key. *)
Module KeyVaultValue.
Record t : Type := mk {
  Name : string;
  Version : string;
  VersionHistoryLimit : Z
}.
End KeyVaultValue.

(** types.KeyVaultValueVersion: one entry of a version history. *)
Module KeyVaultValueVersion.
Record t : Type := mk {
  Version : string;
  Created : Time;
  Enabled : bool
}.
End KeyVaultValueVersion.

(** types.KeyVaultValueVersionHistory *)
Definition KeyVaultValueVersionHistory : Type := list KeyVaultValueVersion.t.

(** Modelled from the spec: one step of [Sort] below, the insertion of an
    entry into a history sorted by creation time, after the entries that
    are not newer. *)
Fixpoint insert_by_created (v : KeyVaultValueVersion.t)
    (h : KeyVaultValueVersionHistory) : KeyVaultValueVersionHistory :=
  match h with
  | [] => [v]
  | w :: h' =>
      if Before (KeyVaultValueVersion.Created w) (KeyVaultValueVersion.Created v)
      then w :: insert_by_created v h'
      else v :: w :: h'
  end.

(** Modelled from the spec: the method [Sort] of the version history, whose
    source (package [types]) is not part of the files at hand.  The spec
    asks for an ascending sort by creation time, oldest first; it is taken
    here as an insertion sort. *)
Fixpoint Sort (h : KeyVaultValueVersionHistory) : KeyVaultValueVersionHistory :=
  match h with
  | [] => []
  | v :: h' => insert_by_created v (Sort h')
  end.

(** Ascending by creation time. *)
Inductive sorted_by_created : KeyVaultValueVersionHistory -> Prop :=
| sorted_nil : sorted_by_created []
| sorted_one v : sorted_by_created [v]
| sorted_cons v w h :
    KeyVaultValueVersion.Created v <= KeyVaultValueVersion.Created w ->
    sorted_by_created (w :: h) ->
    sorted_by_created (v :: w :: h).

(** keymanagementprovider.KMPMapKey: the identity of one retrieved
    certificate chain or key. *)
Module KMPMapKey.
Record t : Type := mk {
  Name : string;
  Version : string;
  Enabled : bool
}.

Definition to_tuple (k : t) : string * string * bool :=
  (Name k, Version k, Enabled k).
Definition of_tuple (p : string * string * bool) : t :=
  mk p.1.1 p.1.2 p.2.

#[global] Instance eq_dec : EqDecision t.
Proof. solve_decision. Defined.

#[global] Instance countable : Countable t.
Proof.
  apply (inj_countable' to_tuple of_tuple). by intros [].
Defined.
End KMPMapKey.

(** One status record [{name, version, enabled, lastRefreshed}].  In the
    source it is a [map[string]string] with the four constant keys
    [types.StatusName], [types.StatusVersion], [types.StatusEnabled] and
    [types.StatusLastRefreshed]; the record has one field per key. *)
Record StatusProperty : Type := mkStatusProperty {
  StatusName : string;
  StatusVersion : string;
  StatusEnabled : string;
  StatusLastRefreshed : string
}.

#[global] Instance StatusProperty_eq_dec : EqDecision StatusProperty.
Proof. solve_decision. Defined.

(* ===================================================================== *)
(** ** trimVersionHistory                                                 *)
(* ===================================================================== *)

(** The search loop of [trimVersionHistory]: the index of the first entry
    whose version is [version], counting from [i]; [-1] when there is none
    ([versionIndex] keeps its initial value). *)
Fixpoint versionIndex_from (h : KeyVaultValueVersionHistory) (version : string)
    (i : Z) : Z :=
  match h with
  | [] => -1
  | v :: h' =>
      if bool_decide (KeyVaultValueVersion.Version v = version) then i
      else versionIndex_from h' version (i + 1)
  end.

(** [trimVersionHistory(&versionHistory, limit, version)]; the result is the
    new value of [*versionHistory]. *)
Definition trimVersionHistory (versionHistory : KeyVaultValueVersionHistory)
    (limit : Z) (version : string) : outcome KeyVaultValueVersionHistory :=
  if bool_decide (version = ""%string) then
    let limit :=
      if limit >? len versionHistory then len versionHistory else limit in
    slice_expr versionHistory
      (GoInt.sub (len versionHistory) limit) (len versionHistory)
  else
    let versionIndex := versionIndex_from versionHistory version 0 in
    let start := GoInt.sub versionIndex limit in
    let start := if start <? 0 then 0 else start in
    slice_expr versionHistory start (GoInt.add versionIndex 1).

(* ===================================================================== *)
(** ** Errors                                                             *)
(* ===================================================================== *)

(** The error response document of Azure Key Vault, as [json.Unmarshal]
    fills the local struct [AzureError] of [isSecretDisabledError]; a field
    absent from the document is the empty string. *)
Record AzureError : Type := mkAzureError {
  Error_Code : string;
  Error_Message : string;
  Error_InnerError_Code : string
}.

(** The field [Body] of an [*http.Response], an interface value that may be
    nil, and what [io.ReadAll] followed by [json.Unmarshal] make of it. *)
Inductive ResponseBody : Type :=
| BodyNil                          (* Body is nil: io.ReadAll panics *)
| BodyUnreadable                   (* io.ReadAll returns an error *)
| BodyNotJSON (raw : string)       (* json.Unmarshal returns an error *)
| BodyJSON (doc : AzureError).     (* the document decodes *)

(** Error codes of package [errors] (imported as [re]). *)
Inductive ErrorCode : Type :=
| ErrorCodeCertInvalid
| ErrorCodeKeyInvalid
| ErrorCodeConfigInvalid.

(** Named constants of package [errors] the provider passes to [NewError]:
    the component, the documentation link and the stack-trace flag. *)
Inductive re_ComponentType : Type := re_KeyManagementProvider.
Inductive re_Link : Type := re_EmptyLink | re_AKVLink.
Inductive re_StackTrace : Type := re_HideStackTrace.

#[local] Set Warnings "-register-all".
(** Go [error] values.
    - [ErrorString]: [errors.New], or [fmt.Errorf] without [%w];
    - [ResponseError]: [*azcore.ResponseError]; [RawResponse] is a pointer
      to the response, given here by the body of the response;
    - [Errorf_w prefix err]: [fmt.Errorf(prefix + "%w", err)];
    - [NewError]: [code.NewError(componentType, pluginName, link, err,
      detail, isRootError)] of package [errors], kept as the constructor
      applied to the arguments the source passes. *)
Inductive error : Type :=
| ErrorString (msg : string)
| ResponseError (StatusCode : Z) (RawResponse : option ResponseBody)
| Errorf_w (prefix : string) (err : error)
| NewError (code : ErrorCode) (componentType : re_ComponentType)
    (pluginName : string) (link : re_Link)
    (err : option error) (detail : string) (isRootError : re_StackTrace).
#[local] Set Warnings "+register-all".

(** [errors.As(err, &httpErr)] for [httpErr : *azcore.ResponseError]: the
    first response error on the unwrap chain of [err].  An error made by
    [fmt.Errorf] with [%w] unwraps to the error it wraps, one made by
    [NewError] to the error it was given. *)
Fixpoint errors_As_ResponseError (err : error) : option (Z * option ResponseBody) :=
  match err with
  | ErrorString _ => None
  | ResponseError code raw => Some (code, raw)
  | Errorf_w _ err' => errors_As_ResponseError err'
  | NewError _ _ _ _ (Some err') _ _ => errors_As_ResponseError err'
  | NewError _ _ _ _ None _ _ => None
  end.

Definition http_StatusForbidden : Z := 403.

(* ===================================================================== *)
(** ** Azure SDK structures                                               *)
(* ===================================================================== *)

Module SecretAttributes.
Record t : Type := mk { Enabled : option bool }.
End SecretAttributes.

Module SecretBundle.
Record t : Type := mk {
  Attributes : option SecretAttributes.t;
  ContentType : option string;
  ID : option string;
  Value : option string
}.
End SecretBundle.

Module CertificateAttributes.
Record t : Type := mk { Created : option Time; Enabled : option bool }.
End CertificateAttributes.

Module CertificateBundle.
Record t : Type := mk {
  Attributes : option CertificateAttributes.t;
  ID : option string
}.
End CertificateBundle.

Module CertificateItem.
Record t : Type := mk {
  Attributes : option CertificateAttributes.t;
  ID : option string
}.
End CertificateItem.

Module KeyAttributes.
Record t : Type := mk { Created : option Time; Enabled : option bool }.
End KeyAttributes.

(** azkeys.JSONWebKey: the identifier, the key type and the remaining
    members (curve, coordinates, modulus, ...) as one payload. *)
Module JSONWebKey.
Record t : Type := mk {
  KID : option string;
  Kty : option string;
  Material : string
}.
End JSONWebKey.

Module KeyBundle.
Record t : Type := mk {
  Attributes : option KeyAttributes.t;
  Key : option JSONWebKey.t
}.
End KeyBundle.

Module KeyItem.
Record t : Type := mk {
  Attributes : option KeyAttributes.t;
  KID : option string
}.
End KeyItem.

Definition JSONWebKeyTypeEC : string := "EC".
Definition JSONWebKeyTypeECHSM : string := "EC-HSM".
Definition JSONWebKeyTypeRSA : string := "RSA".
Definition JSONWebKeyTypeRSAHSM : string := "RSA-HSM".

(** encoding/pem: one PEM block. *)
Module Block.
Record t : Type := mk {
  Type_ : string;
  Headers : list (string * string);
  Bytes : string
}.
End Block.

(** A call that returns [(value, error)]. *)
Definition fallible (A : Type) : Type := A + error.

(** One page of a [runtime.Pager]: [NextPage] returns the items or fails. *)
Definition Pager (A : Type) : Type := list (fallible (list A)).

(** The three vault client interfaces of the provider.  A pager is the
    sequence of pages [NextPage] yields while [More] holds.  The vault is
    taken as fixed while one fetch call runs: a client method is a function
    of its arguments. *)
Record keyKVClient : Type := mkKeyKVClient {
  GetKey : string -> string -> fallible KeyBundle.t;
  NewListKeyVersionsPager : string -> Pager KeyItem.t
}.

Record secretKVClient : Type := mkSecretKVClient {
  GetSecret : string -> string -> fallible SecretBundle.t
}.

Record certificateKVClient : Type := mkCertificateKVClient {
  GetCertificate : string -> string -> fallible CertificateBundle.t;
  NewListCertificateVersionsPager : string -> Pager CertificateItem.t
}.

(** The provider; the fields [provider], [vaultURI], [tenantID] and
    [clientID] play no part in a fetch and are left out. *)
Record akvKMProvider : Type := mkAkvKMProvider {
  resource : string;
  certificates : list KeyVaultValue.t;
  keys : list KeyVaultValue.t;
  keyKVClient_ : keyKVClient;
  secretKVClient_ : secretKVClient;
  certificateKVClient_ : certificateKVClient
}.

(* ===================================================================== *)
(** ** Effects: the trace of a fetch, and the monad that threads it       *)
(* ===================================================================== *)

(** Warnings the provider logs, by call site. *)
Inductive Warning : Type :=
| WarnInvalidSecretBundle (name version : string)
| WarnInvalidCertificateBundle (name version : string)
| WarnInvalidCertificateItem (name version : string)
| WarnNoCertificateVersions (name : string)
| WarnInvalidKeyBundle (name version : string)
| WarnInvalidKeyItem (name version : string)
| WarnNoKeyVersions (name : string)
| WarnPrivateKeySkipped (certName version : string)
| WarnUnknownBlockType (certName version blockType : string).

(** What a fetch does to the world outside its own variables, in program
    order: deletions from the shared store
    ([keymanagementprovider.DeleteCertificateFromMap] and
    [DeleteKeyFromMap], whose effect on the store is [perform] below),
    warnings, and reported metrics.  Debug log lines are not recorded. *)
Inductive Event : Type :=
| DeleteCertificateFromMap (resource : string) (mapKey : KMPMapKey.t)
| DeleteKeyFromMap (resource : string) (mapKey : KMPMapKey.t)
| Warnf (w : Warning)
| ReportAKVCertificateDuration (name : string).

(** The result of running a piece of the provider from a state [S]:
    it returns a value ([Ret], the error result being nil), returns an
    error ([Fail], every other result being nil, as in
    [return nil, nil, err]), panics, or (for the one loop whose termination
    rests on the PEM decoder) runs out of fuel. *)
Inductive res (S A : Type) : Type :=
| Ret (a : A) (s : S)
| Fail (e : error) (s : S)
| Crash (p : panic)
| OutOfFuel.
Arguments Ret {S A} a s.
Arguments Fail {S A} e s.
Arguments Crash {S A} p.
Arguments OutOfFuel {S A}.

Definition M (S A : Type) : Type := S -> res S A.

Definition ret {S A : Type} (a : A) : M S A := fun s => Ret a s.
Definition fail {S A : Type} (e : error) : M S A := fun s => Fail e s.
Definition crash {S A : Type} (p : panic) : M S A := fun _ => Crash p.

Definition bind {S A B : Type} (m : M S A) (k : A -> M S B) : M S B :=
  fun s =>
    match m s with
    | Ret a s' => k a s'
    | Fail e s' => Fail e s'
    | Crash p => Crash p
    | OutOfFuel => OutOfFuel
    end.

Notation "'let*' x ':=' m 'in' k" := (bind m (fun x => k))
  (at level 10, x pattern, m at level 100, k at level 200).

(** Running a pure computation that may panic. *)
Definition of_outcome {S A : Type} (o : outcome A) : M S A :=
  match o with
  | Returns a => ret a
  | Panics p => crash p
  end.

(** Dereferencing a pointer. *)
Definition deref {S A : Type} (p : option A) : M S A :=
  match p with
  | Some a => ret a
  | None => crash NilPointerDereference
  end.

(** The state of one fetch call: the map under construction ([certsMap] or
    [keysMap]), the status entries collected so far ([*certsStatus] or
    [*keysStatus]), and the trace of effects. *)
Record FetchState (V : Type) : Type := mkFetchState {
  fsMap : gmap KMPMapKey.t V;
  fsStatus : list StatusProperty;
  fsTrace : list Event
}.
Arguments mkFetchState {V} _ _ _.
Arguments fsMap {V} _.
Arguments fsStatus {V} _.
Arguments fsTrace {V} _.

Definition emit {V : Type} (e : Event) : M (FetchState V) unit :=
  fun s => Ret tt (mkFetchState (fsMap s) (fsStatus s) (fsTrace s ++ [e])).

(** [*status = append( *status, entries...)] *)
Definition append_status {V : Type} (entries : list StatusProperty)
  : M (FetchState V) unit :=
  fun s => Ret tt (mkFetchState (fsMap s) (fsStatus s ++ entries) (fsTrace s)).

(** [m[mapKey] = v] *)
Definition map_store {V : Type} (mapKey : KMPMapKey.t) (v : V)
  : M (FetchState V) unit :=
  fun s => Ret tt (mkFetchState (<[mapKey := v]> (fsMap s)) (fsStatus s) (fsTrace s)).

(** Running a computation that only adds to the trace. *)
Definition with_trace {V A : Type} (m : M (list Event) A) : M (FetchState V) A :=
  fun s =>
    match m (fsTrace s) with
    | Ret a tr => Ret a (mkFetchState (fsMap s) (fsStatus s) tr)
    | Fail e tr => Fail e (mkFetchState (fsMap s) (fsStatus s) tr)
    | Crash p => Crash p
    | OutOfFuel => OutOfFuel
    end.

Definition log (e : Event) : M (list Event) unit :=
  fun tr => Ret tt (tr ++ [e]).

(** [fmt.Errorf(prefix + "%w", err)] around a computation: an error it
    returns is wrapped, everything else is passed on. *)
Definition wrap_error {S A : Type} (prefix : string) (m : M S A) : M S A :=
  fun s =>
    match m s with
    | Fail e s' => Fail (Errorf_w prefix e) s'
    | r => r
    end.

(* ===================================================================== *)
(** ** What the provider takes from outside this package                  *)
(* ===================================================================== *)

(** Library functions and constants the provider calls and whose code is
    not part of the provider: the Go standard library ([time],
    [encoding/base64], [encoding/pem], [encoding/json]), pkcs12, go-jose,
    the SDK's [ID.Version] methods, [DecodeCertificates] of package
    [keymanagementprovider] and the status keys of package [types]. *)
Class Externals : Type := mkExternals {
  Certificate : Type;                       (* x509.Certificate *)
  PublicKey : Type;                         (* crypto.PublicKey *)
  ID_Version : option string -> string;     (* (i *ID) Version() *)
  time_Now : Time;
  Format_RFC3339 : Time -> string;
  base64_DecodeString : string -> fallible string;
  pkcs12_ToPEM : string -> string -> fallible (list Block.t);
  pem_EncodeToMemory : Block.t -> string;
  pem_Decode : string -> option Block.t * string;
  DecodeCertificates : string -> fallible (list Certificate);
  json_Marshal : JSONWebKey.t -> fallible string;
  jose_UnmarshalJSON : string -> fallible PublicKey;
  CertificatesStatus : string;
  KeysStatus : string
}.

(** [pem.Decode] consumes input whenever it finds a block. *)
Definition pem_Decode_consumes `{Externals} : Prop :=
  forall data block rest,
    pem_Decode data = (Some block, rest) ->
    (String.length rest < String.length data)%nat.

(* ===================================================================== *)
(** ** provider.go                                                        *)
(* ===================================================================== *)

Definition ProviderName : string := "azurekeyvault".
Definition PKCS12ContentType : string := "application/x-pkcs12".
Definition PEMContentType : string := "application/x-pem-file".

(** keymanagementprovider.KeyManagementProviderStatus *)
Abbreviation KeyManagementProviderStatus := (gmap string (list StatusProperty)).

Definition getStatusMap (statusMap : list StatusProperty) (contentType : string)
  : KeyManagementProviderStatus :=
  <[contentType := statusMap]> ∅.

Definition strconv_FormatBool (b : bool) : string :=
  if b then "true" else "false".

Definition getStatusProperty (name version lastRefreshed : string) (enabled : bool)
  : StatusProperty :=
  {| StatusName := name;
     StatusVersion := version;
     StatusEnabled := strconv_FormatBool enabled;
     StatusLastRefreshed := lastRefreshed |}.

(** [strings.Split(s, sep)] for a separator of one character. *)
Fixpoint strings_Split (s : string) (sep : ascii) : list string :=
  match s with
  | EmptyString => [EmptyString]
  | String c s' =>
      if Ascii.eqb c sep then EmptyString :: strings_Split s' sep
      else match strings_Split s' sep with
           | [] => [String c EmptyString]
           | seg :: segs => String c seg :: segs
           end
  end.

(** [splitID[len(splitID)-1]]; [strings.Split] never returns an empty
    slice, so the index is in range. *)
Definition getObjectVersion (id : string) : string :=
  let splitID := strings_Split id "/"%char in
  List.last splitID EmptyString.

Definition isSecretDisabledError (err : error) : outcome bool :=
  let ErrorCodeForbidden : string := "Forbidden" in
  let SecretDisabledCode : string := "SecretDisabled" in
  match errors_As_ResponseError err with
  | Some (StatusCode, RawResponse) =>
      if bool_decide (StatusCode <> http_StatusForbidden) then Returns false
      else
        match RawResponse with
        | None => Panics NilPointerDereference
        | Some BodyNil => Panics NilPointerDereference
        | Some BodyUnreadable => Returns false
        | Some (BodyNotJSON _) => Returns false
        | Some (BodyJSON azureError) =>
            if bool_decide (Error_Code azureError = ErrorCodeForbidden)
               && bool_decide (Error_InnerError_Code azureError = SecretDisabledCode)
            then Returns true
            else Returns false
        end
  | None => Returns false
  end.

Definition isValidCertificateBundle (certBundle : CertificateBundle.t) : bool :=
  match CertificateBundle.Attributes certBundle with
  | Some attributes =>
      bool_decide (CertificateAttributes.Enabled attributes <> None)
      && bool_decide (CertificateBundle.ID certBundle <> None)
  | None => false
  end.

Definition isValidSecretBundle (secretBundle : SecretBundle.t) : bool :=
  match SecretBundle.Attributes secretBundle with
  | Some attributes =>
      bool_decide (SecretAttributes.Enabled attributes <> None)
      && bool_decide (SecretBundle.ContentType secretBundle <> None)
      && bool_decide (SecretBundle.Value secretBundle <> None)
      && bool_decide (SecretBundle.ID secretBundle <> None)
  | None => false
  end.

Definition isValidCertificateItem (cert : CertificateItem.t) : bool :=
  bool_decide (CertificateItem.ID cert <> None)
  && match CertificateItem.Attributes cert with
     | Some attributes =>
         bool_decide (CertificateAttributes.Created attributes <> None)
         && bool_decide (CertificateAttributes.Enabled attributes <> None)
     | None => false
     end.

Definition isValidKeyBundle (keyBundle : KeyBundle.t) : bool :=
  match KeyBundle.Attributes keyBundle with
  | Some attributes => bool_decide (KeyAttributes.Enabled attributes <> None)
  | None => false
  end.

Definition isValidKeyItem (key : KeyItem.t) : bool :=
  bool_decide (KeyItem.KID key <> None)
  && match KeyItem.Attributes key with
     | Some attributes =>
         bool_decide (KeyAttributes.Created attributes <> None)
         && bool_decide (KeyAttributes.Enabled attributes <> None)
     | None => false
     end.

Section Provider.

Context `{Externals}.

(** *** getCertsFromSecretBundle *)

Definition unsupported_content_type_detail (certName version contentType : string)
  : string :=
  "certificate " +:+ certName +:+ " version " +:+ version
  +:+ ", unsupported secret content type " +:+ contentType
  +:+ ", supported type are " +:+ PKCS12ContentType
  +:+ " and " +:+ PEMContentType.

Definition certInvalid (err : option error) (detail : string) : error :=
  NewError ErrorCodeCertInvalid re_KeyManagementProvider ProviderName
    re_EmptyLink err detail re_HideStackTrace.

(** The [switch] on the type of one PEM block: the certificates and the
    status entries collected so far, extended by what the block holds. *)
Definition handleBlock (certName version lastRefreshed : string) (enabled : bool)
    (block : Block.t)
    (results : list Certificate) (certsStatus : list StatusProperty)
  : M (list Event) (list Certificate * list StatusProperty) :=
  if bool_decide (Block.Type_ block = "PRIVATE KEY") then
    let* _ := log (Warnf (WarnPrivateKeySkipped certName version)) in
    ret (results, certsStatus)
  else if bool_decide (Block.Type_ block = "CERTIFICATE") then
    let pemData := ("" +:+ pem_EncodeToMemory block)%string in
    match DecodeCertificates pemData with
    | inr err =>
        fail (certInvalid (Some err)
                ("azure keyvault key management provider: failed to decode Certificate "
                 +:+ certName +:+ ", version " +:+ version))
    | inl decodedCerts =>
        ret (fold_left
               (fun acc cert =>
                  (acc.1 ++ [cert],
                   acc.2 ++ [getStatusProperty certName version lastRefreshed enabled]))
               decodedCerts (results, certsStatus))
    end
  else
    let* _ := log (Warnf (WarnUnknownBlockType certName version (Block.Type_ block))) in
    ret (results, certsStatus).

(** The loop [for block != nil { ... }].  One unit of fuel is spent per
    block. *)
Fixpoint decodeBlocks (fuel : nat) (certName version lastRefreshed : string)
    (enabled : bool) (block : Block.t) (rest : string)
    (results : list Certificate) (certsStatus : list StatusProperty)
  : M (list Event) (list Certificate * list StatusProperty) :=
  match fuel with
  | O => fun _ => OutOfFuel
  | S fuel' =>
      let* acc :=
        handleBlock certName version lastRefreshed enabled block results certsStatus in
      let next := pem_Decode rest in
      match next.1 with
      | None =>
          if bool_decide (strlen next.2 > 0) then
            fail (certInvalid None
                    ("certificate '" +:+ certName +:+ "', version '" +:+ version
                     +:+ "': azure keyvault key management provider error, block is nil and remaining block to parse > 0"))
          else ret acc
      | Some block' =>
          decodeBlocks fuel' certName version lastRefreshed enabled
            block' next.2 acc.1 acc.2
      end
  end.

Definition getCertsFromSecretBundle (secretBundle : SecretBundle.t)
    (certName : string) (enabled : bool)
  : M (list Event) (list Certificate * list StatusProperty) :=
  let* id := deref (SecretBundle.ID secretBundle) in
  let version := getObjectVersion id in
  let* contentType := deref (SecretBundle.ContentType secretBundle) in
  if bool_decide (contentType <> PKCS12ContentType)
     && bool_decide (contentType <> PEMContentType)
  then
    fail (certInvalid None
            (unsupported_content_type_detail certName version contentType))
  else
    let lastRefreshed := Format_RFC3339 time_Now in
    let* value := deref (SecretBundle.Value secretBundle) in
    let* data :=
      (if bool_decide (contentType = PKCS12ContentType) then
         match base64_DecodeString value with
         | inr err =>
             fail (certInvalid (Some err)
                     ("azure keyvault key management provider: failed to decode PKCS12 Value. Certificate "
                      +:+ certName +:+ ", version " +:+ version))
         | inl p12 =>
             match pkcs12_ToPEM p12 "" with
             | inr err =>
                 fail (certInvalid (Some err)
                         ("azure keyvault key management provider: failed to convert PKCS12 Value to PEM. Certificate "
                          +:+ certName +:+ ", version " +:+ version))
             | inl blocks =>
                 ret (fold_left
                        (fun pemData b => (pemData +:+ pem_EncodeToMemory b)%string)
                        blocks ""%string)
             end
         end
       else ret value) in
    let first := pem_Decode data in
    match first.1 with
    | None => ret ([], [])
    | Some block =>
        decodeBlocks (S (String.length first.2)) certName version lastRefreshed
          enabled block first.2 [] []
    end.

(** *** getKeyFromKeyBundle *)

Definition keyInvalid (err : option error) (detail : string) : error :=
  NewError ErrorCodeKeyInvalid re_KeyManagementProvider ProviderName
    re_EmptyLink err detail re_HideStackTrace.

Definition getKeyFromKeyBundle (keyBundle : KeyBundle.t) : fallible PublicKey :=
  match KeyBundle.Key keyBundle with
  | None => inr (keyInvalid None "found invalid key bundle, key must not be nil")
  | Some webKey =>
      match JSONWebKey.Kty webKey with
      | None => inr (keyInvalid None "found invalid key bundle, keytype must not be nil")
      | Some keyType =>
          let webKey :=
            if bool_decide (keyType = JSONWebKeyTypeECHSM) then
              JSONWebKey.mk (JSONWebKey.KID webKey) (Some JSONWebKeyTypeEC)
                (JSONWebKey.Material webKey)
            else if bool_decide (keyType = JSONWebKeyTypeRSAHSM) then
              JSONWebKey.mk (JSONWebKey.KID webKey) (Some JSONWebKeyTypeRSA)
                (JSONWebKey.Material webKey)
            else webKey in
          match json_Marshal webKey with
          | inr err => inr (keyInvalid (Some err) "failed to marshal key")
          | inl keyBytes =>
              match jose_UnmarshalJSON keyBytes with
              | inr err =>
                  inr (keyInvalid (Some err) "failed to unmarshal key into JSON Web Key")
              | inl key => inl key
              end
          end
      end
  end.

(** *** Certificates *)

Abbreviation CertState := (FetchState (list Certificate)).

Definition handleDisabledSecret (s : akvKMProvider) (keyVaultCert : KeyVaultValue.t)
    (startTime : Time) : M CertState unit :=
  let name := KeyVaultValue.Name keyVaultCert in
  match GetCertificate (certificateKVClient_ s) name
          (KeyVaultValue.Version keyVaultCert) with
  | inr err =>
      fail (Errorf_w ("failed to get certificate objectName:" +:+ name
                      +:+ ", objectVersion:" +:+ KeyVaultValue.Version keyVaultCert
                      +:+ ", error: ") err)
  | inl certResponse =>
      if negb (isValidCertificateBundle certResponse) then
        emit (Warnf (WarnInvalidCertificateBundle name
                       (KeyVaultValue.Version keyVaultCert)))
      else
        let version := ID_Version (CertificateBundle.ID certResponse) in
        let* attributes := deref (CertificateBundle.Attributes certResponse) in
        let* isEnabled := deref (CertificateAttributes.Enabled attributes) in
        let lastRefreshed := Format_RFC3339 startTime in
        let certProperty := getStatusProperty name version lastRefreshed isEnabled in
        let* _ := append_status [certProperty] in
        let mapKey := KMPMapKey.mk name version isEnabled in
        emit (DeleteCertificateFromMap (resource s) mapKey)
  end.

Definition processCertificateVersion (s : akvKMProvider)
    (keyVaultCert : KeyVaultValue.t) (startTime : Time) : M CertState unit :=
  let name := KeyVaultValue.Name keyVaultCert in
  match GetSecret (secretKVClient_ s) name (KeyVaultValue.Version keyVaultCert) with
  | inr err =>
      let* disabled := of_outcome (isSecretDisabledError err) in
      if negb disabled then
        fail (Errorf_w ("failed to get secret objectName:" +:+ name
                        +:+ ", objectVersion:" +:+ KeyVaultValue.Version keyVaultCert
                        +:+ ", error: ") err)
      else handleDisabledSecret s keyVaultCert startTime
  | inl secretBundle =>
      if negb (isValidSecretBundle secretBundle) then
        emit (Warnf (WarnInvalidSecretBundle name
                       (KeyVaultValue.Version keyVaultCert)))
      else
        let* attributes := deref (SecretBundle.Attributes secretBundle) in
        let* isEnabled := deref (SecretAttributes.Enabled attributes) in
        let version := ID_Version (SecretBundle.ID secretBundle) in
        let* parsed :=
          wrap_error "failed to get certificates from secret bundle:"
            (with_trace (getCertsFromSecretBundle secretBundle name isEnabled)) in
        let* _ := emit (ReportAKVCertificateDuration name) in
        let* _ := append_status parsed.2 in
        let certMapKey := KMPMapKey.mk name version isEnabled in
        map_store certMapKey parsed.1
  end.

(** The loop of [fetchCertificateVersionHistory] over the items of one
    page. *)
Fixpoint certificateItems (certName : string) (items : list CertificateItem.t)
    (versionHistory : KeyVaultValueVersionHistory)
  : M CertState KeyVaultValueVersionHistory :=
  match items with
  | [] => ret versionHistory
  | cert :: items' =>
      if negb (isValidCertificateItem cert) then
        let* _ := emit (Warnf (WarnInvalidCertificateItem certName
                                 (ID_Version (CertificateItem.ID cert)))) in
        certificateItems certName items' versionHistory
      else
        let* attributes := deref (CertificateItem.Attributes cert) in
        let* created := deref (CertificateAttributes.Created attributes) in
        let* enabled := deref (CertificateAttributes.Enabled attributes) in
        let versionInfo :=
          KeyVaultValueVersion.mk (ID_Version (CertificateItem.ID cert))
            created enabled in
        certificateItems certName items' (versionHistory ++ [versionInfo])
  end.

(** The loop [for certVersionPager.More() { ... }]. *)
Fixpoint certificatePages (certName : string) (pages : Pager CertificateItem.t)
    (versionHistory : KeyVaultValueVersionHistory)
  : M CertState KeyVaultValueVersionHistory :=
  match pages with
  | [] => ret versionHistory
  | inr err :: _ =>
      fail (Errorf_w ("failed to get certificate versions for objectName:"
                      +:+ certName +:+ ", error: ") err)
  | inl items :: pages' =>
      let* versionHistory := certificateItems certName items versionHistory in
      certificatePages certName pages' versionHistory
  end.

Definition fetchCertificateVersionHistory (s : akvKMProvider) (certName : string)
  : M CertState KeyVaultValueVersionHistory :=
  let certVersionPager :=
    NewListCertificateVersionsPager (certificateKVClient_ s) certName in
  let* versionHistory := certificatePages certName certVersionPager [] in
  ret (Sort versionHistory).

(** The loop of [processCertificateVersions] over the trimmed history. *)
Fixpoint certificateVersions (s : akvKMProvider) (keyVaultCert : KeyVaultValue.t)
    (startTime : Time) (versionHistory : KeyVaultValueVersionHistory)
  : M CertState unit :=
  let name := KeyVaultValue.Name keyVaultCert in
  match versionHistory with
  | [] => ret tt
  | certVersion :: versionHistory' =>
      let version := KeyVaultValueVersion.Version certVersion in
      if negb (KeyVaultValueVersion.Enabled certVersion) then
        let lastRefreshed := Format_RFC3339 startTime in
        let certProperty := getStatusProperty name version lastRefreshed false in
        let* _ := append_status [certProperty] in
        let mapKey := KMPMapKey.mk name version false in
        let* _ := emit (DeleteCertificateFromMap (resource s) mapKey) in
        certificateVersions s keyVaultCert startTime versionHistory'
      else
        match GetSecret (secretKVClient_ s) name version with
        | inr err =>
            fail (Errorf_w ("failed to get secret objectName:" +:+ name
                            +:+ ", objectVersion:" +:+ version +:+ ", error: ") err)
        | inl secretBundle =>
            if negb (isValidSecretBundle secretBundle) then
              let* _ := emit (Warnf (WarnInvalidSecretBundle name version)) in
              certificateVersions s keyVaultCert startTime versionHistory'
            else
              let* parsed :=
                wrap_error "failed to get certificates from secret bundle:"
                  (with_trace
                     (getCertsFromSecretBundle secretBundle name
                        (KeyVaultValueVersion.Enabled certVersion))) in
              let* _ := emit (ReportAKVCertificateDuration name) in
              let* _ := append_status parsed.2 in
              let certMapKey :=
                KMPMapKey.mk name version
                  (KeyVaultValueVersion.Enabled certVersion) in
              let* _ := map_store certMapKey parsed.1 in
              certificateVersions s keyVaultCert startTime versionHistory'
        end
  end.

Definition processCertificateVersions (s : akvKMProvider)
    (keyVaultCert : KeyVaultValue.t) (startTime : Time) : M CertState unit :=
  let name := KeyVaultValue.Name keyVaultCert in
  let* versionHistory :=
    wrap_error ("failed to fetch version history for certificate " +:+ name +:+ ": ")
      (fetchCertificateVersionHistory s name) in
  let* versionHistory :=
    of_outcome (trimVersionHistory versionHistory
                  (KeyVaultValue.VersionHistoryLimit keyVaultCert)
                  (KeyVaultValue.Version keyVaultCert)) in
  if bool_decide (len versionHistory = 0) then
    emit (Warnf (WarnNoCertificateVersions name))
  else certificateVersions s keyVaultCert startTime versionHistory.

Definition processCertificate (s : akvKMProvider) (keyVaultCert : KeyVaultValue.t)
  : M CertState unit :=
  let startTime := time_Now in
  if bool_decide (KeyVaultValue.VersionHistoryLimit keyVaultCert = 0) then
    processCertificateVersion s keyVaultCert startTime
  else processCertificateVersions s keyVaultCert startTime.

(** The loop of [GetCertificates] over the configured certificates. *)
Fixpoint processCertificates (s : akvKMProvider) (objects : list KeyVaultValue.t)
  : M CertState unit :=
  match objects with
  | [] => ret tt
  | keyVaultCert :: objects' =>
      let* _ := processCertificate s keyVaultCert in
      processCertificates s objects'
  end.

(** What a fetch call returns: [(map, status, error)], each possibly
    [nil]. *)
Definition FetchReturn (V : Type) : Type :=
  option (gmap KMPMapKey.t V) * option KeyManagementProviderStatus * option error.

Definition GetCertificates (s : akvKMProvider)
  : M (list Event) (FetchReturn (list Certificate)) :=
  fun trace =>
    let certsMap : gmap KMPMapKey.t (list Certificate) := ∅ in
    let certsStatus : list StatusProperty := [] in
    match processCertificates s (certificates s)
            (mkFetchState certsMap certsStatus trace) with
    | Fail err st => Ret (None, None, Some err) (fsTrace st)
    | Ret _ st =>
        Ret (Some (fsMap st),
             Some (getStatusMap (fsStatus st) CertificatesStatus),
             None) (fsTrace st)
    | Crash p => Crash p
    | OutOfFuel => OutOfFuel
    end.

(** *** Keys *)

Abbreviation KeyState := (FetchState PublicKey).

Definition processKeyVersion (s : akvKMProvider) (keyVaultKey : KeyVaultValue.t)
    (startTime : Time) : M KeyState unit :=
  let name := KeyVaultValue.Name keyVaultKey in
  match GetKey (keyKVClient_ s) name (KeyVaultValue.Version keyVaultKey) with
  | inr err =>
      fail (Errorf_w ("failed to get key objectName:" +:+ name
                      +:+ ", objectVersion:" +:+ KeyVaultValue.Version keyVaultKey
                      +:+ ", error: ") err)
  | inl keyBundle =>
      if negb (isValidKeyBundle keyBundle) then
        emit (Warnf (WarnInvalidKeyBundle name (KeyVaultValue.Version keyVaultKey)))
      else
        let* attributes := deref (KeyBundle.Attributes keyBundle) in
        let* isEnabled := deref (KeyAttributes.Enabled attributes) in
        let* webKey := deref (KeyBundle.Key keyBundle) in
        let* kid := deref (JSONWebKey.KID webKey) in
        let version := getObjectVersion kid in
        if negb isEnabled then
          let lastRefreshed := Format_RFC3339 startTime in
          let properties := getStatusProperty name version lastRefreshed isEnabled in
          let* _ := append_status [properties] in
          let mapKey := KMPMapKey.mk name version isEnabled in
          emit (DeleteKeyFromMap (resource s) mapKey)
        else
          match getKeyFromKeyBundle keyBundle with
          | inr err => fail (Errorf_w "failed to get key from key bundle:" err)
          | inl publicKey =>
              let* _ := map_store (KMPMapKey.mk name version isEnabled) publicKey in
              let* _ := emit (ReportAKVCertificateDuration name) in
              let properties :=
                getStatusProperty name version (Format_RFC3339 time_Now) isEnabled in
              append_status [properties]
          end
  end.

(** The loop of [fetchKeyVersionHistory] over the items of one page. *)
Fixpoint keyItems (keyName : string) (items : list KeyItem.t)
    (versionHistory : KeyVaultValueVersionHistory)
  : M KeyState KeyVaultValueVersionHistory :=
  match items with
  | [] => ret versionHistory
  | key :: items' =>
      if negb (isValidKeyItem key) then
        let* _ := emit (Warnf (WarnInvalidKeyItem keyName
                                 (ID_Version (KeyItem.KID key)))) in
        keyItems keyName items' versionHistory
      else
        let* attributes := deref (KeyItem.Attributes key) in
        let* created := deref (KeyAttributes.Created attributes) in
        let* enabled := deref (KeyAttributes.Enabled attributes) in
        let versionInfo :=
          KeyVaultValueVersion.mk (ID_Version (KeyItem.KID key)) created enabled in
        keyItems keyName items' (versionHistory ++ [versionInfo])
  end.

(** The loop [for keyVersionPager.More() { ... }]. *)
Fixpoint keyPages (keyName : string) (pages : Pager KeyItem.t)
    (versionHistory : KeyVaultValueVersionHistory)
  : M KeyState KeyVaultValueVersionHistory :=
  match pages with
  | [] => ret versionHistory
  | inr err :: _ =>
      fail (Errorf_w ("failed to get key versions for objectName:"
                      +:+ keyName +:+ ", error: ") err)
  | inl items :: pages' =>
      let* versionHistory := keyItems keyName items versionHistory in
      keyPages keyName pages' versionHistory
  end.

Definition fetchKeyVersionHistory (s : akvKMProvider) (keyName : string)
  : M KeyState KeyVaultValueVersionHistory :=
  let keyVersionPager := NewListKeyVersionsPager (keyKVClient_ s) keyName in
  let* versionHistory := keyPages keyName keyVersionPager [] in
  ret (Sort versionHistory).

(** The loop of [processKeyVersions] over the trimmed history. *)
Fixpoint keyVersions (s : akvKMProvider) (keyVaultKey : KeyVaultValue.t)
    (startTime : Time) (versionHistory : KeyVaultValueVersionHistory)
  : M KeyState unit :=
  let name := KeyVaultValue.Name keyVaultKey in
  match versionHistory with
  | [] => ret tt
  | keyVersion :: versionHistory' =>
      let version := KeyVaultValueVersion.Version keyVersion in
      if negb (KeyVaultValueVersion.Enabled keyVersion) then
        let lastRefreshed := Format_RFC3339 startTime in
        let properties := getStatusProperty name version lastRefreshed false in
        let* _ := append_status [properties] in
        let mapKey := KMPMapKey.mk name version false in
        let* _ := emit (DeleteKeyFromMap (resource s) mapKey) in
        keyVersions s keyVaultKey startTime versionHistory'
      else
        match GetKey (keyKVClient_ s) name version with
        | inr err =>
            fail (Errorf_w ("failed to get key objectName:" +:+ name
                            +:+ ", objectVersion:" +:+ version +:+ ", error: ") err)
        | inl keyBundle =>
            if negb (isValidKeyBundle keyBundle) then
              let* _ := emit (Warnf (WarnInvalidKeyBundle name version)) in
              keyVersions s keyVaultKey startTime versionHistory'
            else
              match getKeyFromKeyBundle keyBundle with
              | inr err => fail (Errorf_w "failed to get key from key bundle:" err)
              | inl publicKey =>
                  let* _ :=
                    map_store
                      (KMPMapKey.mk name version
                         (KeyVaultValueVersion.Enabled keyVersion)) publicKey in
                  let properties :=
                    getStatusProperty name version (Format_RFC3339 time_Now)
                      (KeyVaultValueVersion.Enabled keyVersion) in
                  let* _ := append_status [properties] in
                  keyVersions s keyVaultKey startTime versionHistory'
              end
        end
  end.

Definition processKeyVersions (s : akvKMProvider) (keyVaultKey : KeyVaultValue.t)
    (startTime : Time) : M KeyState unit :=
  let name := KeyVaultValue.Name keyVaultKey in
  let* versionHistory :=
    wrap_error ("failed to fetch version history for key " +:+ name +:+ ": ")
      (fetchKeyVersionHistory s name) in
  let* versionHistory :=
    of_outcome (trimVersionHistory versionHistory
                  (KeyVaultValue.VersionHistoryLimit keyVaultKey)
                  (KeyVaultValue.Version keyVaultKey)) in
  if bool_decide (len versionHistory = 0) then
    emit (Warnf (WarnNoKeyVersions name))
  else keyVersions s keyVaultKey startTime versionHistory.

Definition processKey (s : akvKMProvider) (keyVaultKey : KeyVaultValue.t)
  : M KeyState unit :=
  let startTime := time_Now in
  if bool_decide (KeyVaultValue.VersionHistoryLimit keyVaultKey = 0) then
    processKeyVersion s keyVaultKey startTime
  else processKeyVersions s keyVaultKey startTime.

(** The loop of [GetKeys] over the configured keys. *)
Fixpoint processKeys (s : akvKMProvider) (objects : list KeyVaultValue.t)
  : M KeyState unit :=
  match objects with
  | [] => ret tt
  | keyVaultKey :: objects' =>
      let* _ := processKey s keyVaultKey in
      processKeys s objects'
  end.

Definition GetKeys (s : akvKMProvider) : M (list Event) (FetchReturn PublicKey) :=
  fun trace =>
    let keysMap : gmap KMPMapKey.t PublicKey := ∅ in
    let keysStatus : list StatusProperty := [] in
    match processKeys s (keys s) (mkFetchState keysMap keysStatus trace) with
    | Fail err st => Ret (None, None, Some err) (fsTrace st)
    | Ret _ st =>
        Ret (Some (fsMap st),
             Some (getStatusMap (fsStatus st) KeysStatus),
             None) (fsTrace st)
    | Crash p => Crash p
    | OutOfFuel => OutOfFuel
    end.

Definition IsRefreshable (s : akvKMProvider) : bool := true.

End Provider.

(* ===================================================================== *)
(** ** Package refresh: the refresher registry                            *)
(* ===================================================================== *)

Module refresh.

(** The values a [map[string]interface{}] configuration holds, by dynamic
    type: strings, booleans, anything else. *)
Inductive ConfigValue : Type :=
| VString (s : string)
| VBool (b : bool)
| VOther (description : string).

Section Registry.

(** The interface [Refresher]. *)
Variable Refresher : Type.

(** The interface [RefresherFactory]: its one method [Create], which is
    the factory's own code and may panic. *)
Record RefresherFactory : Type := mkRefresherFactory {
  Create : gmap string ConfigValue -> outcome (fallible Refresher)
}.

(** The package variable [refresherFactories]. *)
Abbreviation Registry := (gmap string RefresherFactory).

(** [Register(name, factory)]; [factory] is an interface value and may
    be nil.  The result is the new value of [refresherFactories]. *)
Definition Register (name : string) (factory : option RefresherFactory)
    (refresherFactories : Registry) : outcome Registry :=
  match factory with
  | None => Panics (PanicMessage "refresher factory cannot be nil")
  | Some f =>
      match refresherFactories !! name with
      | Some _ =>
          Panics (PanicMessage ("refresher factory named " +:+ name
                                +:+ " already registered"))
      | None => Returns (<[name := f]> refresherFactories)
      end
  end.

(** The type assertion [refresherConfig["type"].(string)] in its
    two-result form: the string and [ok]. *)
Definition type_assert_string (v : option ConfigValue) : string * bool :=
  match v with
  | Some (VString s) => (s, true)
  | _ => (EmptyString, false)
  end.

Definition CreateRefresherFromConfig (refresherConfig : gmap string ConfigValue)
    (refresherFactories : Registry) : outcome (fallible Refresher) :=
  let '(refresherType, ok) := type_assert_string (refresherConfig !! "type"%string) in
  if negb ok || bool_decide (refresherType = ""%string) then
    Returns (inr (ErrorString "refresher type cannot be empty"))
  else
    match refresherFactories !! refresherType with
    | None =>
        Returns (inr (ErrorString ("refresher factory with name "
                                   +:+ refresherType +:+ " not found")))
    | Some factory => Create factory refresherConfig
    end.

End Registry.

End refresh.

(* ===================================================================== *)
(** ** Vocabulary of the properties                                       *)
(* ===================================================================== *)

(** A message names a text when the text occurs in it. *)
Definition mentions (msg part : string) : Prop :=
  exists pre post : string, msg = (pre +:+ part +:+ post)%string.

(** A computation whose effect on the state stays within the relation [R],
    whether it returns a value or an error. *)
Definition respects {S A : Type} (R : S -> S -> Prop) (m : M S A) : Prop :=
  forall s,
    match m s with
    | Ret _ s' => R s s'
    | Fail _ s' => R s s'
    | Crash _ => True
    | OutOfFuel => True
    end.

(** The PEM stream [getCertsFromSecretBundle] walks: the value of a PEM
    bundle, or the re-encoded blocks of a PKCS12 bundle. *)
Inductive pem_stream_of `{Externals} (secretBundle : SecretBundle.t)
  : string -> Prop :=
| pem_stream_pem data :
    SecretBundle.ContentType secretBundle = Some PEMContentType ->
    SecretBundle.Value secretBundle = Some data ->
    pem_stream_of secretBundle data
| pem_stream_pkcs12 value p12 blocks :
    SecretBundle.ContentType secretBundle = Some PKCS12ContentType ->
    SecretBundle.Value secretBundle = Some value ->
    base64_DecodeString value = inl p12 ->
    pkcs12_ToPEM p12 EmptyString = inl blocks ->
    pem_stream_of secretBundle
      (fold_left (fun pemData b => (pemData +:+ pem_EncodeToMemory b)%string)
         blocks EmptyString).

(** Every object of a list is processed in turn, from state [st] to state
    [st'], and none returns an error. *)
Inductive all_succeed {V : Type} (process : KeyVaultValue.t -> M (FetchState V) unit)
  : list KeyVaultValue.t -> FetchState V -> FetchState V -> Prop :=
| all_succeed_nil st : all_succeed process [] st st
| all_succeed_cons object objects st st1 st2 :
    process object st = Ret tt st1 ->
    all_succeed process objects st1 st2 ->
    all_succeed process (object :: objects) st st2.

(** The state a fetch call starts from: an empty map, no status entry. *)
Definition initial_state {V : Type} (trace : list Event) : FetchState V :=
  mkFetchState ∅ [] trace.





(** [st'] is [st] with nothing but warnings added to the log: the same
    map, the same status entries, no deletion from the shared store and no
    metric. *)
Definition only_warns {V : Type} (st st' : FetchState V) : Prop :=
  fsMap st' = fsMap st
  /\ fsStatus st' = fsStatus st
  /\ exists warnings, fsTrace st' = fsTrace st ++ map Warnf warnings.

(** [st] with one more event in its trace. *)
Definition with_event {V : Type} (st : FetchState V) (e : Event) : FetchState V :=
  mkFetchState (fsMap st) (fsStatus st) (fsTrace st ++ [e]).

(** [tr'] is [tr] with more events after it. *)
Definition extends_trace (tr tr' : list Event) : Prop :=
  exists events, tr' = tr ++ events.

(** [st'] is [st] after more processing that stores nothing under a map key
    whose enabled flag is false: status entries and events are only added,
    and the two maps agree on every disabled map key. *)
Definition grows {V : Type} (st st' : FetchState V) : Prop :=
  (exists entries, fsStatus st' = fsStatus st ++ entries)
  /\ extends_trace (fsTrace st) (fsTrace st')
  /\ (forall k, KMPMapKey.Enabled k = false -> fsMap st' !! k = fsMap st !! k).





(* ===================================================================== *)
(** ** The shared store                                                   *)
(* ===================================================================== *)

(** Modelled from the spec: the Shared Key/Certificate Store of package
    [keymanagementprovider], whose source is not part of the files at hand.
    The spec describes a process-wide mapping from the provider identity to
    the current set [{mapKey -> material}], one for certificates and one
    for keys, with a targeted delete by key. *)
Record SharedStore `{Externals} : Type := mkSharedStore {
  certificatesMap : gmap string (gmap KMPMapKey.t (list Certificate));
  keyMap : gmap string (gmap KMPMapKey.t PublicKey)
}.



(** Modelled from the spec: what one event of a fetch does to the store.
    [DeleteCertificateFromMap] and [DeleteKeyFromMap] remove the map key
    from the set of the provider; log lines and metrics leave the store
    alone. *)
Definition perform `{Externals} (store : SharedStore) (e : Event) : SharedStore :=
  match e with
  | DeleteCertificateFromMap resource mapKey =>
      {| certificatesMap := alter (delete mapKey) resource (certificatesMap store);
         keyMap := keyMap store |}
  | DeleteKeyFromMap resource mapKey =>
      {| certificatesMap := certificatesMap store;
         keyMap := alter (delete mapKey) resource (keyMap store) |}
  | Warnf _ => store
  | ReportAKVCertificateDuration _ => store
  end.

(** The store after the events of a trace, in order. *)
Definition perform_all `{Externals} (store : SharedStore) (trace : list Event)
  : SharedStore :=
  fold_left perform trace store.

(** A computation that needs no more fuel than it is given. *)
Definition finishes {S A : Type} (m : M S A) : Prop :=
  forall s, m s <> OutOfFuel.


(* ===================================================================== *)
(** ** provider.go: validate                                              *)
(* ===================================================================== *)

(** [akvKMProvider] as [Create] builds it and [validate] reads it, before
    the vault clients are set: the fields that identify the vault and the
    caller, next to the configured objects. *)
Module akvKMProviderFields.
Record t : Type := mk {
  provider : string;
  vaultURI : string;
  tenantID : string;
  clientID : string;
  resource : string;
  certificates : list KeyVaultValue.t;
  keys : list KeyVaultValue.t
}.
End akvKMProviderFields.

Definition configInvalid (err : option error) (detail : string) : error :=
  NewError ErrorCodeConfigInvalid re_KeyManagementProvider ProviderName
    re_EmptyLink err detail re_HideStackTrace.

(** [fmt.Sprintf] of an [int] under the verb [%d]: its decimal digits,
    after a minus sign when it is negative. *)
Definition Sprintf_d (n : Z) : string := pretty n.

(** The loops [for i := range objects { if objects[i].Name == "" { return
    ... } }] of [validate]: the index at which the loop returns, counting
    from [i]; [None] when it runs to its end. *)
Fixpoint first_unnamed (objects : list KeyVaultValue.t) (i : Z) : option Z :=
  match objects with
  | [] => None
  | object :: objects' =>
      if bool_decide (KeyVaultValue.Name object = ""%string) then Some i
      else first_unnamed objects' (i + 1)
  end.

(** [validate]; [None] is the nil error. *)
Definition validate (s : akvKMProviderFields.t) : option error :=
  if bool_decide (akvKMProviderFields.vaultURI s = ""%string) then
    Some (configInvalid None "vaultURI is not set")
  else if bool_decide (akvKMProviderFields.tenantID s = ""%string) then
    Some (configInvalid None "tenantID is not set")
  else if bool_decide (akvKMProviderFields.clientID s = ""%string) then
    Some (configInvalid None "clientID is not set")
  else
    match first_unnamed (akvKMProviderFields.certificates s) 0 with
    | Some i =>
        Some (configInvalid None
                ("name is not set for the " +:+ Sprintf_d (GoInt.add i 1)
                 +:+ " th certificate"))
    | None =>
        match first_unnamed (akvKMProviderFields.keys s) 0 with
        | Some i =>
            Some (configInvalid None
                    ("name is not set for the " +:+ Sprintf_d (GoInt.add i 1)
                     +:+ " th key"))
        | None => None
        end
    end.

(* ===================================================================== *)
(** ** The controller: status of a KeyManagementProvider resource         *)
(* ===================================================================== *)

(** runtime.RawExtension: the raw JSON document, [None] for a nil slice.
    The field [Object], which the controller never sets, is left out. *)
Module RawExtension.
Record t : Type := mk { Raw : option string }.
End RawExtension.

(** The status block of the resource [configv1beta1.KeyManagementProvider],
    the one part of the resource the status helpers write. *)
Module ResourceStatus.
Record t : Type := mk {
  IsSuccess : bool;
  Error : string;
  BriefError : string;
  LastFetchedTime : option Time;
  Properties : RawExtension.t
}.
End ResourceStatus.

(** The first [n] bytes of a string. *)
Fixpoint string_take (n : nat) (s : string) : string :=
  match n, s with
  | S n', String c s' => String c (string_take n' s')
  | _, _ => EmptyString
  end.

(** The slice expression [s[:high]] on a string; it panics unless
    [0 <= high <= len(s)]. *)
Definition string_slice_to (s : string) (high : Z) : outcome string :=
  if bool_decide (0 <= high /\ high <= strlen s)
  then Returns (string_take (Z.to_nat high) s)
  else Panics SliceBoundsOutOfRange.

(** One line of the controller's log: [logger.Error(err, msg)]. *)
Inductive LogLine : Type :=
| LogError (err : error) (msg : string).

Section Controller.

(** [constants.MaxBriefErrLength], of package [internal/constants]. *)
Variable MaxBriefErrLength : Z.

(** [json.Marshal] on a status document. *)
Variable json_Marshal_status : KeyManagementProviderStatus -> fallible string.

(** [updateKMProviderErrorStatus]; the result is the new status block of
    [keyManagementProvider]. *)
Definition updateKMProviderErrorStatus (status : ResourceStatus.t)
    (errorString : string) (operationTime : option Time)
  : outcome ResourceStatus.t :=
  let briefErr :=
    if strlen errorString >? MaxBriefErrLength then
      match string_slice_to errorString MaxBriefErrLength with
      | Returns head => Returns (head +:+ "...")%string
      | Panics p => Panics p
      end
    else Returns errorString in
  match briefErr with
  | Returns briefErr =>
      Returns {| ResourceStatus.IsSuccess := false;
                 ResourceStatus.Error := errorString;
                 ResourceStatus.BriefError := briefErr;
                 ResourceStatus.LastFetchedTime := operationTime;
                 ResourceStatus.Properties := ResourceStatus.Properties status |}
  | Panics p => Panics p
  end.

(** [updateKMProviderSuccessStatus]; [kmProviderStatus] is a map and may
    be nil.  The error of [json.Marshal] is dropped, and its nil result
    stored. *)
Definition updateKMProviderSuccessStatus (status : ResourceStatus.t)
    (lastOperationTime : option Time)
    (kmProviderStatus : option KeyManagementProviderStatus) : ResourceStatus.t :=
  {| ResourceStatus.IsSuccess := true;
     ResourceStatus.Error := "";
     ResourceStatus.BriefError := "";
     ResourceStatus.LastFetchedTime := lastOperationTime;
     ResourceStatus.Properties :=
       match kmProviderStatus with
       | Some kmProviderStatus =>
           let jsonString :=
             match json_Marshal_status kmProviderStatus with
             | inl bytes => Some bytes
             | inr _ => None
             end in
           RawExtension.mk jsonString
       | None => ResourceStatus.Properties status
       end |}.

(** [writeKMProviderStatus]: the status block is updated in memory, then
    written through the client's [Status().Update], here [Update]; a
    failure of the write is logged.  The result is the new status block
    and the lines logged. *)
Definition writeKMProviderStatus (Update : ResourceStatus.t -> option error)
    (status : ResourceStatus.t) (isSuccess : bool) (errorString : string)
    (operationTime : Time) (kmProviderStatus : option KeyManagementProviderStatus)
  : outcome (ResourceStatus.t * list LogLine) :=
  let updated :=
    if isSuccess then
      Returns (updateKMProviderSuccessStatus status (Some operationTime)
                 kmProviderStatus)
    else updateKMProviderErrorStatus status errorString (Some operationTime) in
  match updated with
  | Returns status' =>
      match Update status' with
      | Some statusErr =>
          Returns (status',
                   [LogError statusErr
                      ",unable to update key management provider error status"])
      | None => Returns (status', [])
      end
  | Panics p => Panics p
  end.

End Controller.

(* ===================================================================== *)
(** ** Vocabulary of the further properties                               *)
(* ===================================================================== *)

(** Whether a byte occurs in a string. *)
Fixpoint occurs_in (c : ascii) (s : string) : bool :=
  match s with
  | EmptyString => false
  | String d s' => Ascii.eqb c d || occurs_in c s'
  end.

(** [strings.Join(elems, sep)] for a separator of one character. *)
Fixpoint strings_Join (elems : list string) (sep : ascii) : string :=
  match elems with
  | [] => EmptyString
  | [elem] => elem
  | elem :: elems' => elem +:+ String sep (strings_Join elems' sep)
  end.

Section Streams.

Context `{Externals}.

(** The blocks [pem.Decode] finds in a stream when it is called again on
    what the last call left, and what is left when it finds no block. *)
Inductive pem_blocks : string -> list Block.t -> string -> Prop :=
| pem_blocks_end data rest :
    pem_Decode data = (None, rest) ->
    pem_blocks data [] rest
| pem_blocks_next data block rest blocks tail :
    pem_Decode data = (Some block, rest) ->
    pem_blocks rest blocks tail ->
    pem_blocks data (block :: blocks) tail.

(** The certificates a sequence of blocks holds: those of its certificate
    blocks, in order; or the error of the first certificate block that
    does not decode. *)
Fixpoint certificates_of_blocks (blocks : list Block.t) : fallible (list Certificate) :=
  match blocks with
  | [] => inl []
  | block :: blocks' =>
      if bool_decide (Block.Type_ block = "CERTIFICATE"%string) then
        match DecodeCertificates (pem_EncodeToMemory block) with
        | inr err => inr err
        | inl decodedCerts =>
            match certificates_of_blocks blocks' with
            | inr err => inr err
            | inl certs => inl (decodedCerts ++ certs)
            end
        end
      else certificates_of_blocks blocks'
  end.

(** The warnings a sequence of blocks gives rise to: one for each block
    that is not a certificate block. *)
Definition block_warnings (certName version : string) (blocks : list Block.t)
  : list Warning :=
  flat_map
    (fun block =>
       if bool_decide (Block.Type_ block = "PRIVATE KEY"%string) then
         [WarnPrivateKeySkipped certName version]
       else if bool_decide (Block.Type_ block = "CERTIFICATE"%string) then []
       else [WarnUnknownBlockType certName version (Block.Type_ block)])
    blocks.

End Streams.

(** [st] with more events at the end of its trace. *)
Definition with_events {V : Type} (st : FetchState V) (events : list Event)
  : FetchState V :=
  mkFetchState (fsMap st) (fsStatus st) (fsTrace st ++ events).

Section Listing.

Context `{Externals}.

(** The entry a listed certificate version adds to the history: none when
    the item lacks its identifier, its attributes, its creation time or its
    enabled flag. *)
Definition certificate_entry (cert : CertificateItem.t)
  : option KeyVaultValueVersion.t :=
  match CertificateItem.ID cert, CertificateItem.Attributes cert with
  | Some _, Some attributes =>
      match CertificateAttributes.Created attributes,
            CertificateAttributes.Enabled attributes with
      | Some created, Some enabled =>
          Some (KeyVaultValueVersion.mk (ID_Version (CertificateItem.ID cert))
                  created enabled)
      | _, _ => None
      end
  | _, _ => None
  end.

(** The warning logged for a listed certificate version that adds none. *)
Definition certificate_item_warnings (certName : string)
    (items : list CertificateItem.t) : list Warning :=
  flat_map
    (fun cert =>
       match certificate_entry cert with
       | Some _ => []
       | None =>
           [WarnInvalidCertificateItem certName
              (ID_Version (CertificateItem.ID cert))]
       end)
    items.

Definition key_entry (key : KeyItem.t) : option KeyVaultValueVersion.t :=
  match KeyItem.KID key, KeyItem.Attributes key with
  | Some _, Some attributes =>
      match KeyAttributes.Created attributes, KeyAttributes.Enabled attributes with
      | Some created, Some enabled =>
          Some (KeyVaultValueVersion.mk (ID_Version (KeyItem.KID key))
                  created enabled)
      | _, _ => None
      end
  | _, _ => None
  end.

Definition key_item_warnings (keyName : string) (items : list KeyItem.t)
  : list Warning :=
  flat_map
    (fun key =>
       match key_entry key with
       | Some _ => []
       | None => [WarnInvalidKeyItem keyName (ID_Version (KeyItem.KID key))]
       end)
    items.

End Listing.

(** A series of calls of [refresh.Register], in the order in which the
    [init] functions of the importing packages make them; the first panic
    ends the series. *)
Fixpoint Register_all {Refresher : Type}
    (registrations : list (string * option (refresh.RefresherFactory Refresher)))
    (refresherFactories : gmap string (refresh.RefresherFactory Refresher))
  : outcome (gmap string (refresh.RefresherFactory Refresher)) :=
  match registrations with
  | [] => Returns refresherFactories
  | (name, factory) :: registrations' =>
      match refresh.Register Refresher name factory refresherFactories with
      | Returns refresherFactories' => Register_all registrations' refresherFactories'
      | Panics p => Panics p
      end
  end.

(** Two runs end alike: both return, and the same value, or both panic. *)
Definition same_outcome {A : Type} (o1 o2 : outcome A) : Prop :=
  match o1, o2 with
  | Returns a1, Returns a2 => a1 = a2
  | Panics _, Panics _ => True
  | _, _ => False
  end.

(** An object with a name. *)
Definition named (object : KeyVaultValue.t) : Prop :=
  KeyVaultValue.Name object <> ""%string.

(** The object a warning is about. *)
Definition Warning_name (w : Warning) : string :=
  match w with
  | WarnInvalidSecretBundle name _ => name
  | WarnInvalidCertificateBundle name _ => name
  | WarnInvalidCertificateItem name _ => name
  | WarnNoCertificateVersions name => name
  | WarnInvalidKeyBundle name _ => name
  | WarnInvalidKeyItem name _ => name
  | WarnNoKeyVersions name => name
  | WarnPrivateKeySkipped certName _ => certName
  | WarnUnknownBlockType certName _ _ => certName
  end.

(** The object an event is about. *)
Definition Event_name (e : Event) : string :=
  match e with
  | DeleteCertificateFromMap _ mapKey => KMPMapKey.Name mapKey
  | DeleteKeyFromMap _ mapKey => KMPMapKey.Name mapKey
  | Warnf w => Warning_name w
  | ReportAKVCertificateDuration name => name
  end.

(** An event that leaves the shared store alone, or deletes from the
    certificates of the provider [resource]. *)
Definition certificate_event (resource : string) (e : Event) : Prop :=
  match e with
  | DeleteCertificateFromMap r _ => r = resource
  | DeleteKeyFromMap _ _ => False
  | Warnf _ => True
  | ReportAKVCertificateDuration _ => True
  end.

(** An event that leaves the shared store alone, or deletes from the keys
    of the provider [resource]. *)
Definition key_event (resource : string) (e : Event) : Prop :=
  match e with
  | DeleteCertificateFromMap _ _ => False
  | DeleteKeyFromMap r _ => r = resource
  | Warnf _ => True
  | ReportAKVCertificateDuration _ => True
  end.

(** [tr'] is [tr] followed by events about the objects [names], each of
    them [allowed]. *)
Definition trace_scoped (allowed : Event -> Prop) (names : list string)
    (tr tr' : list Event) : Prop :=
  exists events,
    tr' = tr ++ events
    /\ Forall (fun e => Event_name e ∈ names /\ allowed e) events.

(** [st'] is [st] after more processing that concerns the objects [names]
    only: every new map key and every new status entry carries one of the
    names, and so does every new event, which is [allowed]. *)
Definition scoped {V : Type} (allowed : Event -> Prop) (names : list string)
    (st st' : FetchState V) : Prop :=
  (forall k, is_Some (fsMap st' !! k) ->
             is_Some (fsMap st !! k) \/ KMPMapKey.Name k ∈ names)
  /\ (exists entries,
        fsStatus st' = fsStatus st ++ entries
        /\ Forall (fun entry => StatusName entry ∈ names) entries)
  /\ trace_scoped allowed names (fsTrace st) (fsTrace st').

(** [st'] is [st] after more processing in which the map and the status
    entries grow together: the map loses no key, the status entries none;
    every new map key is enabled and has a status entry of its name and
    version that says enabled; and every new status entry that says
    enabled has its map key. *)
Definition reported_together {V : Type} (st st' : FetchState V) : Prop :=
  (forall k, is_Some (fsMap st !! k) -> is_Some (fsMap st' !! k))
  /\ (forall k, is_Some (fsMap st' !! k) ->
        is_Some (fsMap st !! k)
        \/ (KMPMapKey.Enabled k = true
            /\ exists t,
                 getStatusProperty (KMPMapKey.Name k) (KMPMapKey.Version k) t true
                 ∈ fsStatus st'))
  /\ exists entries,
       fsStatus st' = fsStatus st ++ entries
       /\ forall entry,
            entry ∈ entries ->
            StatusEnabled entry = "true"%string ->
            is_Some (fsMap st' !! KMPMapKey.mk (StatusName entry)
                                    (StatusVersion entry) true).

(** [st] followed by what [st0] holds: the status entries and the events of
    [st0] after those of [st], and the map of [st0] laid over the map of
    [st]. *)
Definition followed_by {V : Type} (st st0 : FetchState V) : FetchState V :=
  mkFetchState (fsMap st0 ∪ fsMap st) (fsStatus st ++ fsStatus st0)
    (fsTrace st ++ fsTrace st0).

(** A computation that does from every state what it does from the initial
    state: its result does not depend on the map, the status entries and
    the trace it finds, and it only adds to them. *)
Definition independent {V A : Type} (m : M (FetchState V) A) : Prop :=
  forall st,
    m st = match m (initial_state []) with
           | Ret a st0 => Ret a (followed_by st st0)
           | Fail e st0 => Fail e (followed_by st st0)
           | Crash p => Crash p
           | OutOfFuel => OutOfFuel
           end.

(** The same for a computation on the trace alone. *)
Definition trace_independent {A : Type} (m : M (list Event) A) : Prop :=
  forall tr,
    m tr = match m [] with
           | Ret a tr0 => Ret a (tr ++ tr0)
           | Fail e tr0 => Fail e (tr ++ tr0)
           | Crash p => Crash p
           | OutOfFuel => OutOfFuel
           end.

(** Two providers over the same vault, under the same resource name; the
    objects they are configured with may differ. *)
Definition same_vault (s s' : akvKMProvider) : Prop :=
  resource s = resource s'
  /\ keyKVClient_ s = keyKVClient_ s'
  /\ secretKVClient_ s = secretKVClient_ s'
  /\ certificateKVClient_ s = certificateKVClient_ s'.

(** The same externals with the wall clock showing [now]: a run at another
    time.  Nothing else changes. *)
Definition at_time (ext : Externals) (now : Time) : Externals :=
  {| Certificate := @Certificate ext;
     PublicKey := @PublicKey ext;
     ID_Version := @ID_Version ext;
     time_Now := now;
     Format_RFC3339 := @Format_RFC3339 ext;
     base64_DecodeString := @base64_DecodeString ext;
     pkcs12_ToPEM := @pkcs12_ToPEM ext;
     pem_EncodeToMemory := @pem_EncodeToMemory ext;
     pem_Decode := @pem_Decode ext;
     DecodeCertificates := @DecodeCertificates ext;
     json_Marshal := @json_Marshal ext;
     jose_UnmarshalJSON := @jose_UnmarshalJSON ext;
     CertificatesStatus := @CertificatesStatus ext;
     KeysStatus := @KeysStatus ext |}.

(** A status entry without its time of refresh: name, version and enabled
    flag. *)
Definition untimed (entry : StatusProperty) : StatusProperty :=
  {| StatusName := StatusName entry;
     StatusVersion := StatusVersion entry;
     StatusEnabled := StatusEnabled entry;
     StatusLastRefreshed := EmptyString |}.

(** Two states that differ at most in the times of refresh of their status
    entries. *)
Definition same_but_times {V : Type} (st st' : FetchState V) : Prop :=
  fsMap st = fsMap st'
  /\ map untimed (fsStatus st) = map untimed (fsStatus st')
  /\ fsTrace st = fsTrace st'.

(** The same for what [getCertsFromSecretBundle] returns. *)
Definition parsed_alike {C : Type} (p p' : list C * list StatusProperty) : Prop :=
  p.1 = p'.1 /\ map untimed p.2 = map untimed p'.2.

(** Two runs end alike: both return, with related values and states, both
    return the same error, or both panic in the same way. *)
Definition results_alike {S A : Type} (RS : S -> S -> Prop) (RA : A -> A -> Prop)
    (r r' : res S A) : Prop :=
  match r, r' with
  | Ret a s, Ret a' s' => RA a a' /\ RS s s'
  | Fail e s, Fail e' s' => e = e' /\ RS s s'
  | Crash p, Crash p' => p = p'
  | OutOfFuel, OutOfFuel => True
  | _, _ => False
  end.

Definition alike_runs {S A : Type} (RS : S -> S -> Prop) (RA : A -> A -> Prop)
    (m m' : M S A) : Prop :=
  forall s s', RS s s' -> results_alike RS RA (m s) (m' s').
(* ===================================================================== *)
(** ** Concrete inputs used by the examples                               *)
(* ===================================================================== *)

(** A history of three versions, window of one older version before the
    pinned one. *)
Definition history_abc : KeyVaultValueVersionHistory :=
  [ KeyVaultValueVersion.mk "a" 10 true;
    KeyVaultValueVersion.mk "b" 20 false;
    KeyVaultValueVersion.mk "c" 30 true ].


(** The same versions as the pager may list them, newest first. *)
Definition history_cab : KeyVaultValueVersionHistory :=
  [ KeyVaultValueVersion.mk "c" 30 true;
    KeyVaultValueVersion.mk "a" 10 true;
    KeyVaultValueVersion.mk "b" 20 false ].

(** A refresher factory in the manner of the test suite's mock: it builds a
    refresher (here a string naming it) unless the configuration asks for
    an error, and panics when ["shouldError"] is not a boolean. *)
Definition mockRefresherFactory : refresh.RefresherFactory string :=
  refresh.mkRefresherFactory string
    (fun config =>
       match config !! "shouldError"%string with
       | Some (refresh.VBool true) => Returns (inr (ErrorString "create error"))
       | Some (refresh.VBool false) => Returns (inl "mockRefresher"%string)
       | _ => Panics (PanicMessage "interface conversion")
       end).

Definition registry_with_mock : gmap string (refresh.RefresherFactory string) :=
  <["mockRefresher"%string := mockRefresherFactory]> ∅.

(** *** A vault to run the provider against

    The examples run the provider with the following stand-ins for the
    libraries of [Externals].  PEM streams are plain concatenations of
    encoded blocks; the body of a block is kept as it is written (no base64
    decoding), and a certificate is identified with the body of its block. *)

Definition newline : string := String "010"%char EmptyString.

(** [s] without its prefix [p], when it has it. *)
Fixpoint strip_prefix (p s : string) : option string :=
  match p with
  | EmptyString => Some s
  | String c p' =>
      match s with
      | String d s' => if Ascii.eqb c d then strip_prefix p' s' else None
      | EmptyString => None
      end
  end.

(** [s] split around the first occurrence of [pat]. *)
Fixpoint cut (pat s : string) : option (string * string) :=
  match strip_prefix pat s with
  | Some rest => Some (EmptyString, rest)
  | None =>
      match s with
      | EmptyString => None
      | String c s' =>
          match cut pat s' with
          | Some (before, rest) => Some (String c before, rest)
          | None => None
          end
      end
  end.

Definition example_pem_EncodeToMemory (b : Block.t) : string :=
  "-----BEGIN " +:+ Block.Type_ b +:+ "-----" +:+ newline
  +:+ Block.Bytes b +:+ newline
  +:+ "-----END " +:+ Block.Type_ b +:+ "-----" +:+ newline.

Definition example_pem_Decode (data : string) : option Block.t * string :=
  match strip_prefix "-----BEGIN " data with
  | None => (None, data)
  | Some afterBegin =>
      match cut ("-----" +:+ newline) afterBegin with
      | None => (None, data)
      | Some (type, afterHeader) =>
          match cut (newline +:+ "-----END " +:+ type +:+ "-----" +:+ newline)
                  afterHeader with
          | None => (None, data)
          | Some (body, rest) => (Some (Block.mk type [] body), rest)
          end
      end
  end.

Definition example_DecodeCertificates (pemData : string) : fallible (list string) :=
  match example_pem_Decode pemData with
  | (Some block, EmptyString) =>
      if bool_decide (Block.Type_ block = "CERTIFICATE") then inl [Block.Bytes block]
      else inr (ErrorString "x509: malformed certificate")
  | _ => inr (ErrorString "x509: malformed certificate")
  end.

(** The version is the third segment of the path of an object identifier
    such as [https://kv.vault.azure.net/secrets/cert1/v1]. *)
Definition example_ID_Version (id : option string) : string :=
  match id with
  | None => EmptyString
  | Some id =>
      match strings_Split id "/"%char with
      | _ :: _ :: _ :: _ :: _ :: version :: _ => version
      | _ => EmptyString
      end
  end.

#[global] Instance example_externals : Externals := {|
  Certificate := string;
  PublicKey := string;
  ID_Version := example_ID_Version;
  time_Now := 1700000000;
  Format_RFC3339 := fun _ => "2023-11-14T22:13:20Z"%string;
  base64_DecodeString := fun s => inl s;
  pkcs12_ToPEM := fun _ _ => inr (ErrorString "pkcs12: not supported");
  pem_EncodeToMemory := example_pem_EncodeToMemory;
  pem_Decode := example_pem_Decode;
  DecodeCertificates := example_DecodeCertificates;
  json_Marshal := fun webKey => inl (JSONWebKey.Material webKey);
  jose_UnmarshalJSON := fun keyBytes =>
    if bool_decide (keyBytes = EmptyString)
    then inr (ErrorString "go-jose: unknown json web key type")
    else inl keyBytes;
  CertificatesStatus := "Certificates"%string;
  KeysStatus := "Keys"%string
|}.

Definition pem_private_key : string :=
  example_pem_EncodeToMemory (Block.mk "PRIVATE KEY" [] "MIIEvQIBADANBg").
Definition pem_certificate_leaf : string :=
  example_pem_EncodeToMemory (Block.mk "CERTIFICATE" [] "MIIC8TCCAdmgAw").
Definition pem_certificate_root : string :=
  example_pem_EncodeToMemory (Block.mk "CERTIFICATE" [] "MIIDRTCCAi2gAw").

Definition secret_id_v1 : string := "https://kv.vault.azure.net/secrets/cert1/v1".

(** An enabled PEM bundle: a private key and a chain of two. *)
Definition bundle_pem_chain : SecretBundle.t :=
  SecretBundle.mk (Some (SecretAttributes.mk (Some true)))
    (Some PEMContentType) (Some secret_id_v1)
    (Some (pem_private_key +:+ pem_certificate_leaf +:+ pem_certificate_root)).

(** A bundle of a content type the provider does not read. *)
Definition bundle_plain_text : SecretBundle.t :=
  SecretBundle.mk (Some (SecretAttributes.mk (Some true)))
    (Some "text/plain"%string) (Some secret_id_v1) (Some "hello"%string).

(** Error responses of the vault for a disabled secret: the one Azure Key
    Vault sends, and one that carries the inner code under another outer
    code. *)
Definition error_secret_disabled : error :=
  ResponseError 403
    (Some (BodyJSON (mkAzureError "Forbidden"
                       "Operation get is not allowed on a disabled secret."
                       "SecretDisabled"))).

Definition error_inner_code_only : error :=
  ResponseError 403
    (Some (BodyJSON (mkAzureError "AccessDenied"
                       "Operation get is not allowed on a disabled secret."
                       "SecretDisabled"))).

(** A 403 response error whose response carries no body. *)
Definition error_forbidden_without_body : error :=
  ResponseError 403 (Some BodyNil).

(** A bundle the secret endpoint serves although its attributes say
    disabled. *)
Definition bundle_served_disabled : SecretBundle.t :=
  SecretBundle.mk (Some (SecretAttributes.mk (Some false)))
    (Some PEMContentType)
    (Some "https://kv.vault.azure.net/secrets/cert-stale/v3"%string)
    (Some pem_certificate_leaf).

Definition example_secretKVClient : secretKVClient :=
  mkSecretKVClient
    (fun secretName secretVersion =>
       if bool_decide (secretName = "cert1"%string) then inl bundle_pem_chain
       else if bool_decide (secretName = "cert-off"%string) then inr error_secret_disabled
       else if bool_decide (secretName = "cert-odd"%string) then inr error_inner_code_only
       else if bool_decide (secretName = "cert-stale"%string) then inl bundle_served_disabled
       else if bool_decide (secretName = "cert-bodiless"%string)
            then inr error_forbidden_without_body
       else inr (ErrorString "secret not found")).

Definition certificate_item (version : string) (created : Time) (enabled : bool)
  : CertificateItem.t :=
  CertificateItem.mk (Some (CertificateAttributes.mk (Some created) (Some enabled)))
    (Some ("https://kv.vault.azure.net/certificates/cert1/" +:+ version)%string).

Definition example_certificateKVClient : certificateKVClient :=
  mkCertificateKVClient
    (fun certificateName certificateVersion =>
       if bool_decide (certificateName = "cert-off"%string) then
         inl (CertificateBundle.mk
                (Some (CertificateAttributes.mk (Some 20) (Some false)))
                (Some "https://kv.vault.azure.net/certificates/cert-off/v7"%string))
       else inr (ErrorString "certificate not found"))
    (fun certificateName =>
       if bool_decide (certificateName = "cert1"%string) then
         [ inl [ certificate_item "c" 30 true; certificate_item "a" 10 true ];
           inl [ certificate_item "b" 20 false ] ]
       else []).

Definition key_bundle (name version : string) (enabled : bool) : KeyBundle.t :=
  KeyBundle.mk (Some (KeyAttributes.mk (Some 10) (Some enabled)))
    (Some (JSONWebKey.mk
             (Some ("https://kv.vault.azure.net/keys/" +:+ name +:+ "/" +:+ version)%string)
             (Some JSONWebKeyTypeRSAHSM) "n=AQAB")).

Definition key_item (version : string) (created : Time) (enabled : bool) : KeyItem.t :=
  KeyItem.mk (Some (KeyAttributes.mk (Some created) (Some enabled)))
    (Some ("https://kv.vault.azure.net/keys/key1/" +:+ version)%string).

Definition example_keyKVClient : keyKVClient :=
  mkKeyKVClient
    (fun keyName keyVersion =>
       if bool_decide (keyName = "key1"%string) then
         inl (key_bundle "key1"
                (if bool_decide (keyVersion = EmptyString) then "c"%string else keyVersion)
                true)
       else if bool_decide (keyName = "key-off"%string) then
         inl (key_bundle "key-off" "k9" false)
       else inr (ErrorString "key not found"))
    (fun keyName =>
       if bool_decide (keyName = "key1"%string) then
         [ inl [ key_item "c" 30 true; key_item "a" 10 true; key_item "b" 20 false ] ]
       else []).

(** A provider over the example vault. *)
Definition example_provider (certificates keys : list KeyVaultValue.t) : akvKMProvider :=
  mkAkvKMProvider "default/kmp-akv" certificates keys
    example_keyKVClient example_secretKVClient example_certificateKVClient.

Definition object_cert1 : KeyVaultValue.t := KeyVaultValue.mk "cert1" EmptyString 0.
Definition object_missing : KeyVaultValue.t := KeyVaultValue.mk "missing" EmptyString 0.
Definition object_key1 : KeyVaultValue.t := KeyVaultValue.mk "key1" EmptyString 0.
Definition object_key_missing : KeyVaultValue.t :=
  KeyVaultValue.mk "no-such-key" EmptyString 0.

Definition object_cert_off : KeyVaultValue.t := KeyVaultValue.mk "cert-off" EmptyString 0.

(** Objects with a version history: a pin on a version the vault does not
    list, and a negative limit. *)
Definition object_cert1_unknown_pin : KeyVaultValue.t := KeyVaultValue.mk "cert1" "zzz" 2.
Definition object_key1_unknown_pin : KeyVaultValue.t := KeyVaultValue.mk "key1" "zzz" 2.
Definition object_cert1_negative : KeyVaultValue.t :=
  KeyVaultValue.mk "cert1" EmptyString (-1).
Definition object_key1_negative : KeyVaultValue.t :=
  KeyVaultValue.mk "key1" EmptyString (-1).

Definition object_key_off : KeyVaultValue.t := KeyVaultValue.mk "key-off" EmptyString 0.
Definition object_cert1_history : KeyVaultValue.t := KeyVaultValue.mk "cert1" EmptyString 3.
Definition object_key1_history : KeyVaultValue.t := KeyVaultValue.mk "key1" EmptyString 3.

(** What the example vault leads the provider to. *)
Definition timestamp : string := "2023-11-14T22:13:20Z".
Definition chain_cert1 : list string := ["MIIC8TCCAdmgAw"; "MIIDRTCCAi2gAw"]%string.
Definition entry_cert1 : StatusProperty := getStatusProperty "cert1" "v1" timestamp true.

Definition state_after_cert1 : FetchState (list string) :=
  mkFetchState (<[KMPMapKey.mk "cert1" "v1" true := chain_cert1]> ∅)
    [entry_cert1; entry_cert1]
    [Warnf (WarnPrivateKeySkipped "cert1" "v1"); ReportAKVCertificateDuration "cert1"].

Definition state_after_key1 : FetchState string :=
  mkFetchState (<[KMPMapKey.mk "key1" "c" true := "n=AQAB"%string]> ∅)
    [getStatusProperty "key1" "c" timestamp true]
    [ReportAKVCertificateDuration "key1"].



Definition state_after_cert1_history : FetchState (list string) :=
  mkFetchState
    (<[KMPMapKey.mk "cert1" "c" true := chain_cert1]>
       (<[KMPMapKey.mk "cert1" "a" true := chain_cert1]> ∅))
    [entry_cert1; entry_cert1;
     getStatusProperty "cert1" "b" timestamp false;
     entry_cert1; entry_cert1]
    [Warnf (WarnPrivateKeySkipped "cert1" "v1");
     ReportAKVCertificateDuration "cert1";
     DeleteCertificateFromMap "default/kmp-akv" (KMPMapKey.mk "cert1" "b" false);
     Warnf (WarnPrivateKeySkipped "cert1" "v1");
     ReportAKVCertificateDuration "cert1"].

Definition state_after_cert1_history_and_cert_off : FetchState (list string) :=
  mkFetchState (fsMap state_after_cert1_history)
    (fsStatus state_after_cert1_history
     ++ [getStatusProperty "cert-off" "v7" timestamp false])
    (fsTrace state_after_cert1_history
     ++ [DeleteCertificateFromMap "default/kmp-akv"
           (KMPMapKey.mk "cert-off" "v7" false)]).

Definition state_after_key1_history_and_key_off : FetchState string :=
  mkFetchState
    (<[KMPMapKey.mk "key1" "c" true := "n=AQAB"%string]>
       (<[KMPMapKey.mk "key1" "a" true := "n=AQAB"%string]> ∅))
    [getStatusProperty "key1" "a" timestamp true;
     getStatusProperty "key1" "b" timestamp false;
     getStatusProperty "key1" "c" timestamp true;
     getStatusProperty "key-off" "k9" timestamp false]
    [DeleteKeyFromMap "default/kmp-akv" (KMPMapKey.mk "key1" "b" false);
     DeleteKeyFromMap "default/kmp-akv" (KMPMapKey.mk "key-off" "k9" false)].




(** *** More bundles, and a stricter certificate decoder

    The stand-ins below differ from [example_externals] in two places: a
    certificate block with an empty body does not decode, and the content
    of a PKCS12 archive is one certificate block holding the archive. *)
Definition strict_DecodeCertificates (pemData : string) : fallible (list string) :=
  match example_DecodeCertificates pemData with
  | inl [EmptyString] => inr (ErrorString "x509: malformed certificate")
  | r => r
  end.

Definition strict_externals : Externals := {|
  Certificate := string;
  PublicKey := string;
  ID_Version := example_ID_Version;
  time_Now := 1700000000;
  Format_RFC3339 := fun _ => "2023-11-14T22:13:20Z"%string;
  base64_DecodeString := fun s => inl s;
  pkcs12_ToPEM := fun p12 _ => inl [Block.mk "CERTIFICATE" [] p12];
  pem_EncodeToMemory := example_pem_EncodeToMemory;
  pem_Decode := example_pem_Decode;
  DecodeCertificates := strict_DecodeCertificates;
  json_Marshal := fun webKey => inl (JSONWebKey.Material webKey);
  jose_UnmarshalJSON := fun keyBytes => inl keyBytes;
  CertificatesStatus := "Certificates"%string;
  KeysStatus := "Keys"%string
|}.

Definition pem_public_key : string :=
  example_pem_EncodeToMemory (Block.mk "PUBLIC KEY" [] "MIIBIjANBgkqhk").
Definition pem_certificate_empty : string :=
  example_pem_EncodeToMemory (Block.mk "CERTIFICATE" [] "").

Definition pem_bundle (value : string) : SecretBundle.t :=
  SecretBundle.mk (Some (SecretAttributes.mk (Some true)))
    (Some PEMContentType) (Some secret_id_v1) (Some value).

(** A public key, which the provider does not read, before a certificate. *)
Definition bundle_public_key_first : SecretBundle.t :=
  pem_bundle (pem_public_key +:+ pem_certificate_leaf).

(** Text that holds no PEM block. *)
Definition bundle_no_block : SecretBundle.t := pem_bundle "not a certificate".

(** A certificate followed by text that is no PEM block. *)
Definition bundle_trailing_text : SecretBundle.t :=
  pem_bundle (pem_certificate_leaf +:+ "trailing text").

(** A certificate, then a certificate block that does not decode. *)
Definition bundle_undecodable : SecretBundle.t :=
  pem_bundle (pem_certificate_leaf +:+ pem_certificate_empty).

(** A PKCS12 bundle. *)
Definition bundle_pkcs12 : SecretBundle.t :=
  SecretBundle.mk (Some (SecretAttributes.mk (Some true)))
    (Some PKCS12ContentType) (Some secret_id_v1) (Some "MIIC8TCCAdmgAw"%string).

(** *** A vault whose listings fail, and keys without key material *)

(** A listed version without creation time. *)
Definition certificate_item_undated : CertificateItem.t :=
  CertificateItem.mk (Some (CertificateAttributes.mk None (Some true)))
    (Some "https://kv.vault.azure.net/certificates/cert1/u"%string).

Definition key_item_undated : KeyItem.t :=
  KeyItem.mk (Some (KeyAttributes.mk None (Some true)))
    (Some "https://kv.vault.azure.net/keys/key1/u"%string).

(** A key bundle with attributes and no key. *)
Definition key_bundle_without_key : KeyBundle.t :=
  KeyBundle.mk (Some (KeyAttributes.mk (Some 10) (Some true))) None.

(** The listing of "cert1" and of "key1" fails on its second page; the
    listing of "cert2" and of "key2" holds an undated version; the key
    "bare" comes without key material. *)
Definition flaky_certificateKVClient : certificateKVClient :=
  mkCertificateKVClient
    (fun _ _ => inr (ErrorString "certificate not found"))
    (fun certificateName =>
       if bool_decide (certificateName = "cert1"%string) then
         [ inl [ certificate_item "c" 30 true; certificate_item_undated ];
           inr (ErrorString "context deadline exceeded");
           inl [ certificate_item "b" 20 false ] ]
       else if bool_decide (certificateName = "cert2"%string) then
         [ inl [ certificate_item "c" 30 true; certificate_item_undated ];
           inl [ certificate_item "a" 10 true ] ]
       else []).

Definition flaky_keyKVClient : keyKVClient :=
  mkKeyKVClient
    (fun keyName keyVersion =>
       if bool_decide (keyName = "bare"%string) then inl key_bundle_without_key
       else inr (ErrorString "key not found"))
    (fun keyName =>
       if bool_decide (keyName = "key1"%string) then
         [ inl [ key_item "c" 30 true; key_item_undated ];
           inr (ErrorString "context deadline exceeded");
           inl [ key_item "b" 20 false ] ]
       else if bool_decide (keyName = "key2"%string) then
         [ inl [ key_item "c" 30 true; key_item_undated ];
           inl [ key_item "a" 10 true ] ]
       else if bool_decide (keyName = "bare"%string) then
         [ inl [ key_item "a" 10 true ] ]
       else []).

Definition flaky_provider (certificates keys : list KeyVaultValue.t) : akvKMProvider :=
  mkAkvKMProvider "default/kmp-akv" certificates keys
    flaky_keyKVClient example_secretKVClient flaky_certificateKVClient.

Definition object_key_bare : KeyVaultValue.t := KeyVaultValue.mk "bare" EmptyString 0.
Definition object_key_bare_history : KeyVaultValue.t :=
  KeyVaultValue.mk "bare" EmptyString 1.

(** A provider whose certificate "cert1" is served as text without any
    PEM block. *)
Definition blank_provider (certificates : list KeyVaultValue.t) : akvKMProvider :=
  mkAkvKMProvider "default/kmp-akv" certificates []
    example_keyKVClient
    (mkSecretKVClient (fun _ _ => inl bundle_no_block))
    example_certificateKVClient.

(** *** A provider under validation *)

Definition fields_unnamed_second_key : akvKMProviderFields.t :=
  akvKMProviderFields.mk ProviderName "https://kv.vault.azure.net" "tenant" "client"
    "default/kmp-akv"
    [object_cert1]
    [object_key1; KeyVaultValue.mk "" "v2" 0; KeyVaultValue.mk "" "" 0].

Definition fields_unnamed_first_certificate : akvKMProviderFields.t :=
  akvKMProviderFields.mk ProviderName "https://kv.vault.azure.net" "tenant" "client"
    "default/kmp-akv"
    [KeyVaultValue.mk "" "v1" 0; object_cert1]
    [KeyVaultValue.mk "" "v2" 0].

Definition fields_valid : akvKMProviderFields.t :=
  akvKMProviderFields.mk ProviderName "https://kv.vault.azure.net" "tenant" "client"
    "default/kmp-akv" [object_cert1] [object_key1].

(** *** Statuses of a resource *)

(** The example externals with a rendering of the time that tells three
    hours apart, read at the third of them. *)
Definition dated_Format_RFC3339 (t : Time) : string :=
  if bool_decide (t = 1700000000) then "2023-11-14T22:13:20Z"
  else if bool_decide (t = 1700003600) then "2023-11-14T23:13:20Z"
  else "2023-11-15T00:13:20Z".

Definition dated_externals : Externals := {|
  Certificate := string;
  PublicKey := string;
  ID_Version := example_ID_Version;
  time_Now := 1700007200;
  Format_RFC3339 := dated_Format_RFC3339;
  base64_DecodeString := fun s => inl s;
  pkcs12_ToPEM := fun _ _ => inr (ErrorString "pkcs12: not supported");
  pem_EncodeToMemory := example_pem_EncodeToMemory;
  pem_Decode := example_pem_Decode;
  DecodeCertificates := example_DecodeCertificates;
  json_Marshal := fun webKey => inl (JSONWebKey.Material webKey);
  jose_UnmarshalJSON := fun keyBytes =>
    if bool_decide (keyBytes = EmptyString)
    then inr (ErrorString "go-jose: unknown json web key type")
    else inl keyBytes;
  CertificatesStatus := "Certificates"%string;
  KeysStatus := "Keys"%string
|}.

Definition status_after_success : ResourceStatus.t :=
  ResourceStatus.mk true "" "" (Some 1700000000)
    (RawExtension.mk (Some "{}"%string)).

(** A marshaller that renders every status document as an empty object. *)
Definition example_json_Marshal_status (status : KeyManagementProviderStatus)
  : fallible string := inl "{}"%string.

Definition error_of_forty_bytes : string :=
  "failed to get secret objectName:cert1 ..".
(* ===================================================================== *)
(** * Properties                                                          *)
(* ===================================================================== *)

(** A closed equation between a run of the model and its result, checked
    by evaluation. *)
Ltac by_evaluation :=
  lazymatch goal with
  | |- @eq ?T _ ?r => vm_cast_no_check (@eq_refl T r)
  end.

(** ** Machine integers and slice expressions *)

Lemma wrap_in_range z : GoInt.in_range (GoInt.wrap z).
Proof.
  unfold GoInt.in_range, GoInt.wrap, GoInt.min_int, GoInt.max_int.
  pose proof (Z.mod_pos_bound (z + 2 ^ 63) (2 ^ 64) ltac:(lia)). lia.
Qed.

Lemma wrap_id z : GoInt.in_range z -> GoInt.wrap z = z.
Proof.
  unfold GoInt.in_range, GoInt.wrap, GoInt.min_int, GoInt.max_int. intros Hz.
  rewrite Z.mod_small by lia. lia.
Qed.

(** One overflow upward lands [2^64] below. *)
Lemma wrap_over z :
  GoInt.max_int < z <= GoInt.max_int + 2 ^ 64 -> GoInt.wrap z = z - 2 ^ 64.
Proof.
  unfold GoInt.wrap, GoInt.max_int. intros Hz.
  replace (z + 2 ^ 63) with ((z - 2 ^ 64 + 2 ^ 63) + 1 * 2 ^ 64) by lia.
  rewrite Z.mod_add by lia. rewrite Z.mod_small by lia. lia.
Qed.

Lemma len_nonneg {A} (s : list A) : 0 <= len s.
Proof. unfold len. lia. Qed.

Lemma len_app {A} (s t : list A) : len (s ++ t) = len s + len t.
Proof. unfold len. rewrite length_app. lia. Qed.

Lemma slice_expr_ok {A} (s : list A) low high :
  0 <= low -> low <= high -> high <= len s ->
  slice_expr s low high
  = Returns (take (Z.to_nat (high - low)) (drop (Z.to_nat low) s)).
Proof.
  intros. unfold slice_expr. rewrite bool_decide_eq_true_2; [done | lia].
Qed.

Lemma slice_expr_panics {A} (s : list A) low high :
  low < 0 \/ high < low \/ len s < high ->
  slice_expr s low high = Panics SliceBoundsOutOfRange.
Proof.
  intros. unfold slice_expr. rewrite bool_decide_eq_false_2; [done | lia].
Qed.

(** ** The sort *)

Lemma insert_by_created_length v h :
  length (insert_by_created v h) = S (length h).
Proof.
  induction h as [|w h IH]; simpl; [done |].
  destruct (Before _ _); simpl; [by rewrite IH | done].
Qed.

Lemma Sort_length h : length (Sort h) = length h.
Proof.
  induction h as [|v h IH]; simpl; [done |].
  by rewrite insert_by_created_length, IH.
Qed.

Lemma insert_by_created_perm v h : insert_by_created v h ≡ₚ v :: h.
Proof.
  induction h as [|w h IH]; simpl; [done |].
  destruct (Before _ _); [| done].
  rewrite IH. apply Permutation_swap.
Qed.

Lemma Sort_perm h : Sort h ≡ₚ h.
Proof.
  induction h as [|v h IH]; simpl; [done |].
  by rewrite insert_by_created_perm, IH.
Qed.

Lemma insert_by_created_sorted v h :
  sorted_by_created h -> sorted_by_created (insert_by_created v h).
Proof.
  induction 1 as [|w|w x h Hwx Hs IH]; simpl.
  - constructor.
  - unfold Before. destruct (Z.ltb_spec (KeyVaultValueVersion.Created w)
                               (KeyVaultValueVersion.Created v));
      constructor; try lia; constructor.
  - simpl in IH. unfold Before in *.
    destruct (Z.ltb_spec (KeyVaultValueVersion.Created w)
                (KeyVaultValueVersion.Created v)).
    + destruct (Z.ltb_spec (KeyVaultValueVersion.Created x)
                  (KeyVaultValueVersion.Created v)).
      * constructor; [lia | done].
      * constructor; [lia | done].
    + constructor; [lia |]. by constructor.
Qed.

Lemma Sort_sorted h : sorted_by_created (Sort h).
Proof.
  induction h as [|v h IH]; simpl; [constructor |].
  by apply insert_by_created_sorted.
Qed.

(** ** The search loop of trimVersionHistory *)

Lemma versionIndex_from_absent h version i :
  (forall e, e ∈ h -> KeyVaultValueVersion.Version e <> version) ->
  versionIndex_from h version i = -1.
Proof.
  revert i. induction h as [|v h IH]; intros i Habs; simpl; [done |].
  rewrite bool_decide_eq_false_2 by (apply Habs; left).
  apply IH. intros e He. apply Habs. by right.
Qed.

(** When the version occurs, the loop stops at its first occurrence. *)
Lemma versionIndex_from_found h version i :
  (exists e, e ∈ h /\ KeyVaultValueVersion.Version e = version) ->
  exists (n : nat) (e : KeyVaultValueVersion.t),
    h !! n = Some e
    /\ KeyVaultValueVersion.Version e = version
    /\ (forall (m : nat) e', (m < n)%nat -> h !! m = Some e' ->
          KeyVaultValueVersion.Version e' <> version)
    /\ versionIndex_from h version i = i + Z.of_nat n.
Proof.
  revert i. induction h as [|v h IH]; intros i [e [He Hv]].
  - by apply elem_of_nil in He.
  - simpl. case_bool_decide as Hc.
    + exists 0%nat, v. repeat split; [done | | lia]. intros m e' Hm. lia.
    + assert (Hin : exists e, e ∈ h /\ KeyVaultValueVersion.Version e = version).
      { apply elem_of_cons in He as [-> | He]; [done | eauto]. }
      destruct (IH (i + 1) Hin) as (n & e0 & Hl & Hv0 & Hfirst & Hidx).
      exists (S n), e0. repeat split; [done | done | | lia].
      intros [|m] e' Hm Hl'; simpl in Hl'.
      * by inversion Hl'; subst.
      * eapply Hfirst; [| done]. lia.
Qed.

(** ** trimVersionHistory with a pinned version *)

(** C3.  For a pinned (non-empty) version that occurs in the history and a
    limit [>= 0], [trimVersionHistory] returns a window whose last element
    is the entry of the pinned version (its first occurrence, at index
    [i]), of at most [limit + 1] entries: the entries of the history from
    index [max 0 (i - limit)] to index [i].  The statement needs no
    assumption on the order of the history, so it holds in particular for
    every history sorted ascending by creation time. *)
Theorem trimVersionHistory_pinned_window
    (h : KeyVaultValueVersionHistory) (limit : Z) (version : string) :
  len_fits h ->
  GoInt.in_range limit ->
  0 <= limit ->
  version <> ""%string ->
  (exists e, e ∈ h /\ KeyVaultValueVersion.Version e = version) ->
  exists (i : nat) (e : KeyVaultValueVersion.t) (w : KeyVaultValueVersionHistory),
    h !! i = Some e
    /\ KeyVaultValueVersion.Version e = version
    /\ (forall (m : nat) e', (m < i)%nat -> h !! m = Some e' ->
          KeyVaultValueVersion.Version e' <> version)
    /\ trimVersionHistory h limit version = Returns w
    /\ last w = Some e
    /\ len w <= limit + 1
    /\ len w = Z.min (limit + 1) (Z.of_nat i + 1)
    /\ w = take (Z.to_nat (Z.of_nat i + 1 - Z.max 0 (Z.of_nat i - limit)))
             (drop (Z.to_nat (Z.max 0 (Z.of_nat i - limit))) h).
Proof.
  intros Hfit Hlim Hpos Hne Hin.
  destruct (versionIndex_from_found h version 0 Hin)
    as (i & e & Hl & Hv & Hfirst & Hidx).
  pose proof (lookup_lt_Some _ _ _ Hl) as Hi.
  unfold len_fits, len in Hfit. unfold GoInt.in_range in Hlim.
  assert (Hmax : GoInt.max_int = 2 ^ 63 - 1) by reflexivity.
  assert (Hmin : GoInt.min_int = - 2 ^ 63) by reflexivity.
  set (start := Z.max 0 (Z.of_nat i - limit)).
  set (w := take (Z.to_nat (Z.of_nat i + 1 - start)) (drop (Z.to_nat start) h)).
  assert (Hstart : 0 <= start <= Z.of_nat i) by (unfold start; lia).
  assert (Hlenw : length w = Z.to_nat (Z.of_nat i + 1 - start)).
  { unfold w. rewrite length_take, length_drop. lia. }
  exists i, e, w. repeat split; try done.
  - unfold trimVersionHistory. rewrite bool_decide_eq_false_2 by done.
    cbv zeta. rewrite Hidx. unfold GoInt.sub, GoInt.add.
    rewrite !wrap_id by (unfold GoInt.in_range; lia).
    replace (if 0 + Z.of_nat i - limit <? 0 then 0 else 0 + Z.of_nat i - limit)
      with start by (unfold start; destruct (Z.ltb_spec (0 + Z.of_nat i - limit) 0); lia).
    rewrite slice_expr_ok by (unfold len; lia).
    unfold w. repeat (f_equal; try lia).
  - rewrite last_lookup, Hlenw. unfold w.
    rewrite lookup_take_lt by lia. rewrite lookup_drop.
    rewrite <- Hl. f_equal. lia.
  - unfold len. rewrite Hlenw. unfold start. lia.
  - unfold len. rewrite Hlenw. unfold start. lia.
Qed.

Lemma trimVersionHistory_pinned_window_witness :
  exists (i : nat) (e : KeyVaultValueVersion.t) (w : KeyVaultValueVersionHistory),
    history_abc !! i = Some e
    /\ KeyVaultValueVersion.Version e = "c"%string
    /\ (forall (m : nat) e', (m < i)%nat -> history_abc !! m = Some e' ->
          KeyVaultValueVersion.Version e' <> "c"%string)
    /\ trimVersionHistory history_abc 1 "c" = Returns w
    /\ last w = Some e
    /\ len w <= 1 + 1
    /\ len w = Z.min (1 + 1) (Z.of_nat i + 1)
    /\ w = take (Z.to_nat (Z.of_nat i + 1 - Z.max 0 (Z.of_nat i - 1)))
             (drop (Z.to_nat (Z.max 0 (Z.of_nat i - 1))) history_abc).
Proof.
  apply (trimVersionHistory_pinned_window history_abc 1 "c").
  - unfold len_fits, len, GoInt.max_int. simpl. lia.
  - unfold GoInt.in_range, GoInt.min_int, GoInt.max_int. lia.
  - lia.
  - discriminate.
  - exists (KeyVaultValueVersion.mk "c" 30 true). split; [| reflexivity].
    do 2 apply list_elem_of_further. apply list_elem_of_here.
Defined.

(** ** trimVersionHistory without a pinned version *)

Lemma trimVersionHistory_unpinned (h : KeyVaultValueVersionHistory) (limit : Z) :
  len_fits h ->
  0 <= limit ->
  trimVersionHistory h limit ""
  = Returns (drop (Z.to_nat (len h - Z.min limit (len h))) h).
Proof.
  intros Hfit Hpos. unfold len_fits in Hfit.
  assert (Hmax : GoInt.max_int = 2 ^ 63 - 1) by reflexivity.
  assert (Hmin : GoInt.min_int = - 2 ^ 63) by reflexivity.
  pose proof (len_nonneg h) as Hlen.
  unfold trimVersionHistory. rewrite bool_decide_eq_true_2 by done. cbv zeta.
  replace (if limit >? len h then len h else limit) with (Z.min limit (len h))
    by (destruct (Z.gtb_spec limit (len h)); lia).
  unfold GoInt.sub. rewrite wrap_id by (unfold GoInt.in_range; lia).
  rewrite slice_expr_ok by lia. f_equal.
  rewrite take_ge; [done |]. rewrite length_drop. unfold len. lia.
Qed.

(** A negative limit is only clamped from above: the low index of the
    slice expression is [len - limit], beyond the length, or negative when
    the subtraction overflows. *)
Lemma trimVersionHistory_unpinned_low_index (h : KeyVaultValueVersionHistory)
    (limit : Z) :
  len_fits h ->
  GoInt.min_int <= limit < 0 ->
  let low := GoInt.sub (len h) limit in
  (low < 0 \/ len h < low)
  /\ (len h - limit <= GoInt.max_int -> low = len h - limit /\ len h < low).
Proof.
  intros Hfit Hneg. unfold len_fits in Hfit. cbv zeta.
  assert (Hmax : GoInt.max_int = 2 ^ 63 - 1) by reflexivity.
  assert (Hmin : GoInt.min_int = - 2 ^ 63) by reflexivity.
  pose proof (len_nonneg h) as Hlen. unfold GoInt.sub.
  destruct (Z_le_gt_dec (len h - limit) GoInt.max_int) as [Hle | Hgt].
  - rewrite wrap_id by (unfold GoInt.in_range; lia). lia.
  - rewrite wrap_over by lia. lia.
Qed.

Lemma trimVersionHistory_unpinned_negative (h : KeyVaultValueVersionHistory)
    (limit : Z) :
  len_fits h ->
  GoInt.min_int <= limit < 0 ->
  trimVersionHistory h limit "" = Panics SliceBoundsOutOfRange.
Proof.
  intros Hfit Hneg.
  destruct (trimVersionHistory_unpinned_low_index h limit Hfit Hneg) as [Hlow _].
  cbv zeta in Hlow. pose proof (len_nonneg h) as Hlen.
  unfold trimVersionHistory. rewrite bool_decide_eq_true_2 by done. cbv zeta.
  replace (if limit >? len h then len h else limit) with limit
    by (destruct (Z.gtb_spec limit (len h)); lia).
  apply slice_expr_panics. lia.
Qed.

(** A pinned version that does not occur leaves [versionIndex] at [-1]; the
    slice expression is [[0:0]]. *)
Lemma trimVersionHistory_unknown_pin (h : KeyVaultValueVersionHistory)
    (limit : Z) (version : string) :
  GoInt.in_range limit ->
  0 <= limit ->
  version <> ""%string ->
  (forall e, e ∈ h -> KeyVaultValueVersion.Version e <> version) ->
  trimVersionHistory h limit version = Returns [].
Proof.
  intros Hlim Hpos Hne Habs. unfold GoInt.in_range in Hlim.
  assert (Hmax : GoInt.max_int = 2 ^ 63 - 1) by reflexivity.
  assert (Hmin : GoInt.min_int = - 2 ^ 63) by reflexivity.
  unfold trimVersionHistory. rewrite bool_decide_eq_false_2 by done. cbv zeta.
  rewrite versionIndex_from_absent by done.
  unfold GoInt.sub, GoInt.add.
  rewrite !wrap_id by (unfold GoInt.in_range; lia).
  replace (if -1 - limit <? 0 then 0 else -1 - limit) with 0
    by (destruct (Z.ltb_spec (-1 - limit) 0); lia).
  rewrite slice_expr_ok by (pose proof (len_nonneg h); lia). done.
Qed.

(** C4.  Without a pinned version, sorting a history and trimming it with
    the history's length as limit returns the whole sorted history, in
    order (also when the history is empty); and for every limit [>= 0] the
    result is the last [min limit (len h)] entries of the history. *)
Theorem trimVersionHistory_unpinned_window
    (h : KeyVaultValueVersionHistory) (limit : Z) :
  len_fits h ->
  0 <= limit ->
  (h <> [] -> trimVersionHistory (Sort h) (len h) "" = Returns (Sort h))
  /\ sorted_by_created (Sort h)
  /\ Sort h ≡ₚ h
  /\ exists w,
       trimVersionHistory h limit "" = Returns w
       /\ w = drop (Z.to_nat (len h - Z.min limit (len h))) h
       /\ len w = Z.min limit (len h)
       /\ (exists older, h = older ++ w).
Proof.
  intros Hfit Hpos. pose proof (len_nonneg h) as Hlen.
  assert (HlenS : len (Sort h) = len h) by (unfold len; by rewrite Sort_length).
  repeat split.
  - intros _. rewrite trimVersionHistory_unpinned.
    + rewrite HlenS. replace (len h - Z.min (len h) (len h)) with 0 by lia. done.
    + unfold len_fits. by rewrite HlenS.
    + done.
  - apply Sort_sorted.
  - apply Sort_perm.
  - eexists. repeat split.
    + by apply trimVersionHistory_unpinned.
    + unfold len. rewrite length_drop. unfold len. lia.
    + exists (take (Z.to_nat (len h - Z.min limit (len h))) h).
      by rewrite take_drop.
Qed.

Lemma trimVersionHistory_unpinned_window_witness :
  (trimVersionHistory (Sort history_cab) 3 "" = Returns history_abc)
  /\ trimVersionHistory history_abc 2 ""
     = Returns [ KeyVaultValueVersion.mk "b" 20 false;
                 KeyVaultValueVersion.mk "c" 30 true ].
Proof.
  assert (Hfit : len_fits history_cab)
    by (unfold len_fits, len, GoInt.max_int; simpl; lia).
  assert (Hfit' : len_fits history_abc)
    by (unfold len_fits, len, GoInt.max_int; simpl; lia).
  destruct (trimVersionHistory_unpinned_window history_cab 3 Hfit ltac:(lia))
    as (Hall & _).
  destruct (trimVersionHistory_unpinned_window history_abc 2 Hfit' ltac:(lia))
    as (_ & _ & _ & w & Htrim & Hw & _).
  split.
  - apply Hall. discriminate.
  - rewrite Htrim, Hw. reflexivity.
Defined.

(** ** The refresher registry *)

(** C8.  [Register] panics when the factory is nil or the name is taken,
    and registers the factory otherwise.  [CreateRefresherFromConfig]
    returns the error "refresher type cannot be empty" when the entry
    ["type"] of the configuration is absent, is not a string, or is the
    empty string, and the error "refresher factory with name ... not found"
    when no factory is registered under the type; it does not panic in
    either case. *)
Theorem refresher_registry_errors (Refresher : Type)
    (name : string) (factory : option (refresh.RefresherFactory Refresher))
    (refresherFactories : gmap string (refresh.RefresherFactory Refresher))
    (refresherConfig : gmap string refresh.ConfigValue) :
  (factory = None ->
     refresh.Register Refresher name factory refresherFactories
     = Panics (PanicMessage "refresher factory cannot be nil"))
  /\ (forall f, factory = Some f -> is_Some (refresherFactories !! name) ->
        refresh.Register Refresher name factory refresherFactories
        = Panics (PanicMessage ("refresher factory named " +:+ name
                                +:+ " already registered")))
  /\ (forall f, factory = Some f -> refresherFactories !! name = None ->
        refresh.Register Refresher name factory refresherFactories
        = Returns (<[name := f]> refresherFactories))
  /\ (refresherConfig !! "type"%string = None
      \/ (exists b, refresherConfig !! "type"%string = Some (refresh.VBool b))
      \/ (exists d, refresherConfig !! "type"%string = Some (refresh.VOther d))
      \/ refresherConfig !! "type"%string = Some (refresh.VString "") ->
        refresh.CreateRefresherFromConfig Refresher refresherConfig refresherFactories
        = Returns (inr (ErrorString "refresher type cannot be empty")))
  /\ (forall refresherType,
        refresherConfig !! "type"%string = Some (refresh.VString refresherType) ->
        refresherType <> ""%string ->
        refresherFactories !! refresherType = None ->
        refresh.CreateRefresherFromConfig Refresher refresherConfig refresherFactories
        = Returns (inr (ErrorString ("refresher factory with name "
                                     +:+ refresherType +:+ " not found")))).
Proof.
  repeat split.
  - intros ->. reflexivity.
  - intros f -> [g Hg]. unfold refresh.Register. by rewrite Hg.
  - intros f -> Hfree. unfold refresh.Register. by rewrite Hfree.
  - unfold refresh.CreateRefresherFromConfig.
    intros [-> | [[b ->] | [[d ->] | ->]]]; reflexivity.
  - intros refresherType Hty Hne Hfree.
    unfold refresh.CreateRefresherFromConfig. rewrite Hty. simpl.
    rewrite bool_decide_eq_false_2 by done. by rewrite Hfree.
Qed.

Lemma refresher_registry_errors_witness :
  refresh.Register string "mockRefresher" None registry_with_mock
  = Panics (PanicMessage "refresher factory cannot be nil")
  /\ refresh.Register string "mockRefresher" (Some mockRefresherFactory)
       registry_with_mock
     = Panics (PanicMessage "refresher factory named mockRefresher already registered")
  /\ refresh.Register string "mockRefresher" (Some mockRefresherFactory) ∅
     = Returns registry_with_mock
  /\ refresh.CreateRefresherFromConfig string
       (<["type"%string := refresh.VBool true]> ∅) registry_with_mock
     = Returns (inr (ErrorString "refresher type cannot be empty"))
  /\ refresh.CreateRefresherFromConfig string
       (<["type"%string := refresh.VString "invalidRefresher"]> ∅) registry_with_mock
     = Returns (inr (ErrorString "refresher factory with name invalidRefresher not found")).
Proof.
  destruct (refresher_registry_errors string "mockRefresher" None
              registry_with_mock ∅) as (Hnil & _).
  destruct (refresher_registry_errors string "mockRefresher"
              (Some mockRefresherFactory) registry_with_mock ∅)
    as (_ & Htaken & _).
  destruct (refresher_registry_errors string "mockRefresher"
              (Some mockRefresherFactory) ∅ ∅) as (_ & _ & Hfree & _).
  destruct (refresher_registry_errors string "mockRefresher" None
              registry_with_mock (<["type"%string := refresh.VBool true]> ∅))
    as (_ & _ & _ & Hempty & _).
  destruct (refresher_registry_errors string "mockRefresher" None
              registry_with_mock
              (<["type"%string := refresh.VString "invalidRefresher"]> ∅))
    as (_ & _ & _ & _ & Hmissing).
  split; [| split; [| split; [| split]]].
  - apply Hnil. reflexivity.
  - apply (Htaken mockRefresherFactory); [reflexivity |].
    exists mockRefresherFactory. reflexivity.
  - apply (Hfree mockRefresherFactory); reflexivity.
  - apply Hempty. right. left. exists true. reflexivity.
  - apply (Hmissing "invalidRefresher"%string);
      [reflexivity | discriminate | reflexivity].
Defined.

(** ** The monad of the provider *)

Lemma bind_Ret {S A B} (m : M S A) (k : A -> M S B) s a s' :
  m s = Ret a s' -> bind m k s = k a s'.
Proof. unfold bind. by intros ->. Qed.

Lemma bind_Fail {S A B} (m : M S A) (k : A -> M S B) s e s' :
  m s = Fail e s' -> bind m k s = Fail e s'.
Proof. unfold bind. by intros ->. Qed.

Lemma bind_Crash {S A B} (m : M S A) (k : A -> M S B) s p :
  m s = Crash p -> bind m k s = Crash p.
Proof. unfold bind. by intros ->. Qed.

Lemma bind_Ret_inv {S A B} (m : M S A) (k : A -> M S B) s b s2 :
  bind m k s = Ret b s2 -> exists a s1, m s = Ret a s1 /\ k a s1 = Ret b s2.
Proof. unfold bind. destruct (m s); try done. eauto. Qed.

Lemma bind_Fail_inv {S A B} (m : M S A) (k : A -> M S B) s e s2 :
  bind m k s = Fail e s2 ->
  m s = Fail e s2 \/ exists a s1, m s = Ret a s1 /\ k a s1 = Fail e s2.
Proof.
  unfold bind. destruct (m s) as [a s1 | e' s1 | p |]; try done.
  - intros Hk. right. eauto.
  - intros [= -> ->]. by left.
Qed.

Section Respects.

Context {S : Type} (R : S -> S -> Prop) `{!PreOrder R}.

Lemma respects_ret {A} (a : A) : respects R (ret a).
Proof. intros s. simpl. reflexivity. Qed.

Lemma respects_fail {A} e : respects R (fail (A := A) e).
Proof. intros s. simpl. reflexivity. Qed.

Lemma respects_crash {A} p : respects R (crash (A := A) p).
Proof. by intros s. Qed.

Lemma respects_of_outcome {A} (o : outcome A) : respects R (of_outcome o).
Proof. destruct o; [apply respects_ret | apply respects_crash]. Qed.

Lemma respects_deref {A} (p : option A) : respects R (deref p).
Proof. destruct p; [apply respects_ret | apply respects_crash]. Qed.

Lemma respects_bind {A B} (m : M S A) (k : A -> M S B) :
  respects R m -> (forall a, respects R (k a)) -> respects R (bind m k).
Proof.
  intros Hm Hk s. unfold bind. specialize (Hm s).
  destruct (m s) as [a s1 | e s1 | p |]; try done.
  specialize (Hk a s1). destruct (k a s1); try done; by etrans.
Qed.

Lemma respects_wrap_error {A} prefix (m : M S A) :
  respects R m -> respects R (wrap_error prefix m).
Proof.
  intros Hm s. unfold wrap_error. specialize (Hm s). by destruct (m s).
Qed.

End Respects.

(** ** Strings *)

Lemma string_append_assoc (a b c : string) :
  ((a +:+ b) +:+ c)%string = (a +:+ b +:+ c)%string.
Proof.
  induction a as [|x a IH]; [done |].
  change (String x ((a +:+ b) +:+ c) = String x (a +:+ b +:+ c)).
  by rewrite IH.
Qed.

Lemma mentions_here (pre part post : string) :
  mentions (pre +:+ part +:+ post) part.
Proof. by exists pre, post. Qed.

Lemma mentions_after (a msg part : string) :
  mentions msg part -> mentions (a +:+ msg) part.
Proof.
  intros (pre & post & ->). exists (a +:+ pre)%string, post.
  by rewrite string_append_assoc.
Qed.

Lemma mentions_end (pre part : string) : mentions (pre +:+ part) part.
Proof.
  exists pre, ""%string. f_equal.
  induction part as [|x part IH]; [done |].
  change (String x part = String x (part +:+ "")). by rewrite <- IH.
Qed.

(** ** getCertsFromSecretBundle: unsupported content types *)

Lemma isValidSecretBundle_fields secretBundle :
  isValidSecretBundle secretBundle = true ->
  exists attributes enabled contentType value id,
    SecretBundle.Attributes secretBundle = Some attributes
    /\ SecretAttributes.Enabled attributes = Some enabled
    /\ SecretBundle.ContentType secretBundle = Some contentType
    /\ SecretBundle.Value secretBundle = Some value
    /\ SecretBundle.ID secretBundle = Some id.
Proof.
  unfold isValidSecretBundle.
  destruct secretBundle as [[[[e|]]|] [ct|] [id|] [v|]]; simpl;
    intros Hv; try discriminate;
    repeat (rewrite ?andb_false_r, ?andb_true_r in Hv; simpl in Hv);
    try discriminate;
    try (rewrite bool_decide_eq_false_2 in Hv by (intros Hc; by apply Hc);
         discriminate).
  eauto 10.
Qed.

(** C6.  A secret bundle whose declared content type is neither
    "application/x-pkcs12" nor "application/x-pem-file" makes
    [getCertsFromSecretBundle] return an error: no certificate and no
    status entry comes back, nothing is logged, and the detail of the
    error names the offending content type and both supported ones.  (The
    identifier of the bundle is present, as [isValidSecretBundle] has
    checked at both call sites.) *)
Theorem getCertsFromSecretBundle_unsupported_content_type {ext : Externals}
    (secretBundle : SecretBundle.t) (certName : string) (enabled : bool)
    (id contentType : string) (trace : list Event) :
  SecretBundle.ID secretBundle = Some id ->
  SecretBundle.ContentType secretBundle = Some contentType ->
  contentType <> PKCS12ContentType ->
  contentType <> PEMContentType ->
  exists detail : string,
    getCertsFromSecretBundle secretBundle certName enabled trace
    = Fail (NewError ErrorCodeCertInvalid re_KeyManagementProvider ProviderName
              re_EmptyLink None detail re_HideStackTrace) trace
    /\ detail
       = ("certificate " +:+ certName +:+ " version " +:+ getObjectVersion id
          +:+ ", unsupported secret content type " +:+ contentType
          +:+ ", supported type are application/x-pkcs12 and application/x-pem-file")%string
    /\ mentions detail contentType
    /\ mentions detail "application/x-pkcs12"
    /\ mentions detail "application/x-pem-file".
Proof.
  intros Hid Hct Hp12 Hpem.
  exists (unsupported_content_type_detail certName (getObjectVersion id) contentType).
  split; [| split; [| split; [| split]]].
  - unfold getCertsFromSecretBundle. rewrite Hid, Hct. unfold bind, deref, ret.
    rewrite !bool_decide_eq_true_2 by done. reflexivity.
  - reflexivity.
  - unfold unsupported_content_type_detail.
    do 4 apply mentions_after. apply mentions_here.
  - unfold unsupported_content_type_detail.
    do 6 apply mentions_after. apply mentions_here.
  - unfold unsupported_content_type_detail.
    do 8 apply mentions_after. apply mentions_end.
Qed.

Lemma getCertsFromSecretBundle_unsupported_content_type_witness :
  exists detail : string,
    getCertsFromSecretBundle bundle_plain_text "cert1" true []
    = Fail (NewError ErrorCodeCertInvalid re_KeyManagementProvider ProviderName
              re_EmptyLink None detail re_HideStackTrace) []
    /\ detail
       = ("certificate " +:+ "cert1" +:+ " version " +:+ getObjectVersion secret_id_v1
          +:+ ", unsupported secret content type " +:+ "text/plain"
          +:+ ", supported type are application/x-pkcs12 and application/x-pem-file")%string
    /\ mentions detail "text/plain"
    /\ mentions detail "application/x-pkcs12"
    /\ mentions detail "application/x-pem-file".
Proof.
  apply (getCertsFromSecretBundle_unsupported_content_type
           bundle_plain_text "cert1" true secret_id_v1 "text/plain" []).
  - reflexivity.
  - reflexivity.
  - discriminate.
  - discriminate.
Defined.

Example getCertsFromSecretBundle_chain_runs :
  getCertsFromSecretBundle bundle_pem_chain "cert1" true []
  = Ret (["MIIC8TCCAdmgAw"; "MIIDRTCCAi2gAw"]%string,
         [getStatusProperty "cert1" "v1" "2023-11-14T22:13:20Z" true;
          getStatusProperty "cert1" "v1" "2023-11-14T22:13:20Z" true])
      [Warnf (WarnPrivateKeySkipped "cert1" "v1")].
Proof. by_evaluation. Qed.

(** ** getCertsFromSecretBundle: walking the PEM stream *)

Section ParseBlocks.

Context `{Externals}.

Lemma handleBlock_private_key certName version lastRefreshed enabled block
    results certsStatus trace :
  Block.Type_ block = "PRIVATE KEY"%string ->
  handleBlock certName version lastRefreshed enabled block results certsStatus trace
  = Ret (results, certsStatus)
      (trace ++ [Warnf (WarnPrivateKeySkipped certName version)]).
Proof.
  intros Hty. unfold handleBlock. rewrite Hty. reflexivity.
Qed.

Lemma handleBlock_certificate certName version lastRefreshed enabled block
    results certsStatus trace decodedCerts :
  Block.Type_ block = "CERTIFICATE"%string ->
  DecodeCertificates (pem_EncodeToMemory block) = inl decodedCerts ->
  handleBlock certName version lastRefreshed enabled block results certsStatus trace
  = Ret (results ++ decodedCerts,
         certsStatus
         ++ map (fun _ => getStatusProperty certName version lastRefreshed enabled)
              decodedCerts)
      trace.
Proof.
  intros Hty Hdec. unfold handleBlock. rewrite Hty. simpl.
  change (EmptyString +:+ pem_EncodeToMemory block)%string
    with (pem_EncodeToMemory block).
  rewrite Hdec. unfold ret. f_equal.
  clear Hdec. revert results certsStatus.
  induction decodedCerts as [|c cs IH]; intros results certsStatus; simpl.
  - by rewrite !app_nil_r.
  - rewrite IH. simpl. by rewrite <- !app_assoc.
Qed.

(** The stream of a bundle is what [pem.Decode] is first called on. *)
Lemma getCertsFromSecretBundle_stream secretBundle certName enabled id data trace :
  SecretBundle.ID secretBundle = Some id ->
  pem_stream_of secretBundle data ->
  getCertsFromSecretBundle secretBundle certName enabled trace
  = match (pem_Decode data).1 with
    | None => Ret ([], []) trace
    | Some block =>
        decodeBlocks (S (String.length (pem_Decode data).2)) certName
          (getObjectVersion id) (Format_RFC3339 time_Now) enabled block
          (pem_Decode data).2 [] [] trace
    end.
Proof.
  intros Hid Hstream. unfold getCertsFromSecretBundle. rewrite Hid.
  destruct Hstream as [data Hct Hv | value p12 blocks Hct Hv Hb64 Hp12].
  - rewrite Hct, Hv. unfold bind, deref, ret. simpl.
    by destruct (pem_Decode data).1.
  - rewrite Hct, Hv. unfold bind, deref, ret. simpl.
    rewrite Hb64, Hp12.
    by destruct (pem_Decode _).1.
Qed.

End ParseBlocks.

(** C5.  A bundle whose PEM stream is one private-key block followed by two
    certificate blocks of one certificate each, and nothing after them,
    parses to exactly the two certificates, in order, with one status entry
    each; the private-key block adds no certificate and no status entry,
    only a warning to the log, and no error is returned. *)
Theorem getCertsFromSecretBundle_key_then_two_certificates {ext : Externals}
    (secretBundle : SecretBundle.t) (certName : string) (enabled : bool)
    (id data rest1 rest2 rest3 : string)
    (keyBlock certBlock1 certBlock2 : Block.t) (cert1 cert2 : Certificate)
    (trace : list Event) :
  pem_Decode_consumes ->
  SecretBundle.ID secretBundle = Some id ->
  pem_stream_of secretBundle data ->
  pem_Decode data = (Some keyBlock, rest1) ->
  Block.Type_ keyBlock = "PRIVATE KEY"%string ->
  pem_Decode rest1 = (Some certBlock1, rest2) ->
  Block.Type_ certBlock1 = "CERTIFICATE"%string ->
  DecodeCertificates (pem_EncodeToMemory certBlock1) = inl [cert1] ->
  pem_Decode rest2 = (Some certBlock2, rest3) ->
  Block.Type_ certBlock2 = "CERTIFICATE"%string ->
  DecodeCertificates (pem_EncodeToMemory certBlock2) = inl [cert2] ->
  pem_Decode rest3 = (None, EmptyString) ->
  let entry :=
    getStatusProperty certName (getObjectVersion id) (Format_RFC3339 time_Now)
      enabled in
  getCertsFromSecretBundle secretBundle certName enabled trace
  = Ret ([cert1; cert2], [entry; entry])
      (trace ++ [Warnf (WarnPrivateKeySkipped certName (getObjectVersion id))]).
Proof.
  intros Hcons Hid Hstream Hd0 Hkey Hd1 Hty1 Hc1 Hd2 Hty2 Hc2 Hd3 entry.
  rewrite (getCertsFromSecretBundle_stream _ _ _ _ _ _ Hid Hstream).
  rewrite Hd0. cbn [fst snd].
  pose proof (Hcons _ _ _ Hd1) as Hlt1. pose proof (Hcons _ _ _ Hd2) as Hlt2.
  destruct (String.length rest1) as [|[|n]] eqn:Hlen; [lia | lia |].
  cbn [decodeBlocks]. unfold bind at 1.
  rewrite (handleBlock_private_key _ _ _ _ _ _ _ _ Hkey).
  rewrite Hd1. cbn [fst snd]. unfold bind at 1.
  rewrite (handleBlock_certificate _ _ _ _ _ _ _ _ _ Hty1 Hc1).
  rewrite Hd2. cbn [fst snd]. unfold bind at 1.
  rewrite (handleBlock_certificate _ _ _ _ _ _ _ _ _ Hty2 Hc2).
  rewrite Hd3. cbn [fst snd]. reflexivity.
Qed.

Lemma example_pem_Decode_consumes : pem_Decode_consumes.
Proof.
  assert (Hstrip : forall p s r, strip_prefix p s = Some r ->
                     (String.length r <= String.length s)%nat).
  { induction p as [|c p IH]; intros [|d s] r; simpl; try discriminate.
    - intros [= <-]. done.
    - intros [= <-]. done.
    - destruct (Ascii.eqb c d); [| discriminate].
      intros Hr. apply IH in Hr. lia. }
  assert (Hstrip_lt : forall c p s r, strip_prefix (String c p) s = Some r ->
                        (String.length r < String.length s)%nat).
  { intros c p [|d s] r; simpl; [discriminate |].
    destruct (Ascii.eqb c d); [| discriminate].
    intros Hr. apply Hstrip in Hr. lia. }
  assert (Hcut : forall pat s a r, cut pat s = Some (a, r) ->
                   (String.length r <= String.length s)%nat).
  { intros pat. induction s as [|c s IH]; intros a r; simpl.
    - destruct (strip_prefix pat EmptyString) eqn:Hs; [| discriminate].
      intros [= <- <-]. by apply Hstrip in Hs.
    - destruct (strip_prefix pat (String c s)) eqn:Hs.
      + intros [= <- <-]. by apply Hstrip in Hs.
      + destruct (cut pat s) as [[b q]|] eqn:Hc; [| discriminate].
        intros [= <- <-]. specialize (IH _ _ eq_refl). simpl. lia. }
  intros data block rest. simpl. unfold example_pem_Decode.
  destruct (strip_prefix _ data) as [afterBegin|] eqn:Hb; [| discriminate].
  destruct (cut _ afterBegin) as [[type afterHeader]|] eqn:Hh; [| discriminate].
  destruct (cut _ afterHeader) as [[body rest']|] eqn:He; [| discriminate].
  intros [= <- <-].
  apply Hcut in Hh, He.
  apply (Hstrip_lt "-"%char "----BEGIN "%string) in Hb. lia.
Qed.

Lemma getCertsFromSecretBundle_key_then_two_certificates_witness :
  getCertsFromSecretBundle bundle_pem_chain "cert1" true []
  = Ret (["MIIC8TCCAdmgAw"; "MIIDRTCCAi2gAw"]%string,
         [getStatusProperty "cert1" "v1" "2023-11-14T22:13:20Z" true;
          getStatusProperty "cert1" "v1" "2023-11-14T22:13:20Z" true])
      [Warnf (WarnPrivateKeySkipped "cert1" "v1")].
Proof.
  apply (getCertsFromSecretBundle_key_then_two_certificates
           (ext := example_externals) bundle_pem_chain "cert1" true secret_id_v1
           (pem_private_key +:+ pem_certificate_leaf +:+ pem_certificate_root)
           (pem_certificate_leaf +:+ pem_certificate_root)
           pem_certificate_root EmptyString
           (Block.mk "PRIVATE KEY" [] "MIIEvQIBADANBg")
           (Block.mk "CERTIFICATE" [] "MIIC8TCCAdmgAw")
           (Block.mk "CERTIFICATE" [] "MIIDRTCCAi2gAw")
           "MIIC8TCCAdmgAw"%string "MIIDRTCCAi2gAw"%string []).
  - exact example_pem_Decode_consumes.
  - reflexivity.
  - apply pem_stream_pem; reflexivity.
  - by_evaluation.
  - reflexivity.
  - by_evaluation.
  - reflexivity.
  - by_evaluation.
  - by_evaluation.
  - reflexivity.
  - by_evaluation.
  - by_evaluation.
Defined.

(** ** GetCertificates and GetKeys: all or nothing *)

Section AllOrNothing.

Context {ext : Externals}.

Lemma processCertificates_all_succeed s objects st st' :
  all_succeed (processCertificate s) objects st st' ->
  processCertificates s objects st = Ret tt st'.
Proof.
  induction 1 as [st | object objects st st1 st2 Hobj _ IH]; [done |].
  simpl. by rewrite (bind_Ret _ _ _ _ _ Hobj).
Qed.

Lemma processKeys_all_succeed s objects st st' :
  all_succeed (processKey s) objects st st' ->
  processKeys s objects st = Ret tt st'.
Proof.
  induction 1 as [st | object objects st st1 st2 Hobj _ IH]; [done |].
  simpl. by rewrite (bind_Ret _ _ _ _ _ Hobj).
Qed.

(** The first object that returns an error ends the loop with that error. *)
Lemma processCertificates_first_failure s pre object post st st1 err st' :
  all_succeed (processCertificate s) pre st st1 ->
  processCertificate s object st1 = Fail err st' ->
  processCertificates s (pre ++ object :: post) st = Fail err st'.
Proof.
  induction 1 as [st | o objects st st1 st2 Hobj _ IH]; intros Hfail; simpl.
  - by rewrite (bind_Fail _ _ _ _ _ Hfail).
  - rewrite (bind_Ret _ _ _ _ _ Hobj). by apply IH.
Qed.

Lemma processKeys_first_failure s pre object post st st1 err st' :
  all_succeed (processKey s) pre st st1 ->
  processKey s object st1 = Fail err st' ->
  processKeys s (pre ++ object :: post) st = Fail err st'.
Proof.
  induction 1 as [st | o objects st st1 st2 Hobj _ IH]; intros Hfail; simpl.
  - by rewrite (bind_Fail _ _ _ _ _ Hfail).
  - rewrite (bind_Ret _ _ _ _ _ Hobj). by apply IH.
Qed.

(** The first object that panics ends the loop with that panic. *)
Lemma processCertificates_first_crash s pre object post st st1 p :
  all_succeed (processCertificate s) pre st st1 ->
  processCertificate s object st1 = Crash p ->
  processCertificates s (pre ++ object :: post) st = Crash p.
Proof.
  induction 1 as [st | o objects st st1 st2 Hobj _ IH]; intros Hcrash; simpl.
  - by rewrite (bind_Crash _ _ _ _ Hcrash).
  - rewrite (bind_Ret _ _ _ _ _ Hobj). by apply IH.
Qed.

Lemma processKeys_first_crash s pre object post st st1 p :
  all_succeed (processKey s) pre st st1 ->
  processKey s object st1 = Crash p ->
  processKeys s (pre ++ object :: post) st = Crash p.
Proof.
  induction 1 as [st | o objects st st1 st2 Hobj _ IH]; intros Hcrash; simpl.
  - by rewrite (bind_Crash _ _ _ _ Hcrash).
  - rewrite (bind_Ret _ _ _ _ _ Hobj). by apply IH.
Qed.

End AllOrNothing.

(** C7.  When the processing of one configured object returns an error
    (the objects before it having returned none), [GetCertificates] returns
    a nil map, a nil status and that very error; when every object is
    processed without error it returns the map built, the status document
    and no error.  Whatever happens, a call that returns gives either
    [(map, status, nil)] or [(nil, nil, err)], never a partial result.  The
    same holds of [GetKeys]. *)
Theorem fetch_all_or_nothing {ext : Externals} (s : akvKMProvider)
    (trace : list Event) :
  (forall pre object post st err st',
     certificates s = pre ++ object :: post ->
     all_succeed (processCertificate s) pre (initial_state trace) st ->
     processCertificate s object st = Fail err st' ->
     GetCertificates s trace = Ret (None, None, Some err) (fsTrace st'))
  /\ (forall st',
        all_succeed (processCertificate s) (certificates s) (initial_state trace) st' ->
        GetCertificates s trace
        = Ret (Some (fsMap st'),
               Some (getStatusMap (fsStatus st') CertificatesStatus), None)
            (fsTrace st'))
  /\ (forall r trace',
        GetCertificates s trace = Ret r trace' ->
        (exists certsMap status, r = (Some certsMap, Some status, None))
        \/ (exists err, r = (None, None, Some err)))
  /\ (forall pre object post st err st',
        keys s = pre ++ object :: post ->
        all_succeed (processKey s) pre (initial_state trace) st ->
        processKey s object st = Fail err st' ->
        GetKeys s trace = Ret (None, None, Some err) (fsTrace st'))
  /\ (forall st',
        all_succeed (processKey s) (keys s) (initial_state trace) st' ->
        GetKeys s trace
        = Ret (Some (fsMap st'), Some (getStatusMap (fsStatus st') KeysStatus), None)
            (fsTrace st'))
  /\ (forall r trace',
        GetKeys s trace = Ret r trace' ->
        (exists keysMap status, r = (Some keysMap, Some status, None))
        \/ (exists err, r = (None, None, Some err))).
Proof.
  split; [| split; [| split; [| split; [| split]]]].
  - intros pre object post st err st' Hobjs Hpre Hfail.
    unfold GetCertificates. rewrite Hobjs.
    fold (initial_state (V := list Certificate) trace).
    by rewrite (processCertificates_first_failure _ _ _ _ _ _ _ _ Hpre Hfail).
  - intros st' Hall. unfold GetCertificates.
    fold (initial_state (V := list Certificate) trace).
    by rewrite (processCertificates_all_succeed _ _ _ _ Hall).
  - intros r trace'. unfold GetCertificates.
    destruct (processCertificates _ _ _) as [[] st' | err st' | p |];
      intros [= <- <-]; eauto.
  - intros pre object post st err st' Hobjs Hpre Hfail.
    unfold GetKeys. rewrite Hobjs.
    fold (initial_state (V := PublicKey) trace).
    by rewrite (processKeys_first_failure _ _ _ _ _ _ _ _ Hpre Hfail).
  - intros st' Hall. unfold GetKeys.
    fold (initial_state (V := PublicKey) trace).
    by rewrite (processKeys_all_succeed _ _ _ _ Hall).
  - intros r trace'. unfold GetKeys.
    destruct (processKeys _ _ _) as [[] st' | err st' | p |];
      intros [= <- <-]; eauto.
Qed.

Example GetCertificates_one_chain :
  GetCertificates (example_provider [object_cert1] []) []
  = Ret (Some (<[KMPMapKey.mk "cert1" "v1" true :=
                  ["MIIC8TCCAdmgAw"; "MIIDRTCCAi2gAw"]%string]> ∅),
         Some (getStatusMap
                 [getStatusProperty "cert1" "v1" "2023-11-14T22:13:20Z" true;
                  getStatusProperty "cert1" "v1" "2023-11-14T22:13:20Z" true]
                 "Certificates"),
         None)
      [Warnf (WarnPrivateKeySkipped "cert1" "v1");
       ReportAKVCertificateDuration "cert1"].
Proof. by_evaluation. Qed.

Lemma fetch_all_or_nothing_witness :
  GetCertificates (example_provider [object_cert1; object_missing] []) []
  = Ret (None, None,
         Some (Errorf_w "failed to get secret objectName:missing, objectVersion:, error: "
                 (ErrorString "secret not found")))
      [Warnf (WarnPrivateKeySkipped "cert1" "v1");
       ReportAKVCertificateDuration "cert1"]
  /\ GetCertificates (example_provider [object_cert1] []) []
     = Ret (Some (<[KMPMapKey.mk "cert1" "v1" true := chain_cert1]> ∅),
            Some (getStatusMap [entry_cert1; entry_cert1] "Certificates"), None)
         [Warnf (WarnPrivateKeySkipped "cert1" "v1");
          ReportAKVCertificateDuration "cert1"]
  /\ GetKeys (example_provider [] [object_key1; object_key_missing]) []
     = Ret (None, None,
            Some (Errorf_w "failed to get key objectName:no-such-key, objectVersion:, error: "
                    (ErrorString "key not found")))
         [ReportAKVCertificateDuration "key1"]
  /\ GetKeys (example_provider [] [object_key1]) []
     = Ret (Some (<[KMPMapKey.mk "key1" "c" true := "n=AQAB"%string]> ∅),
            Some (getStatusMap [getStatusProperty "key1" "c" timestamp true] "Keys"),
            None)
         [ReportAKVCertificateDuration "key1"].
Proof.
  destruct (fetch_all_or_nothing (ext := example_externals)
              (example_provider [object_cert1; object_missing] []) [])
    as (Hfail & _).
  destruct (fetch_all_or_nothing (ext := example_externals)
              (example_provider [object_cert1] []) [])
    as (_ & Hok & _).
  destruct (fetch_all_or_nothing (ext := example_externals)
              (example_provider [] [object_key1; object_key_missing]) [])
    as (_ & _ & _ & Hkfail & _).
  destruct (fetch_all_or_nothing (ext := example_externals)
              (example_provider [] [object_key1]) [])
    as (_ & _ & _ & _ & Hkok & _).
  split; [| split; [| split]].
  - apply (Hfail [object_cert1] object_missing [] state_after_cert1 _
             state_after_cert1 eq_refl).
    + apply (all_succeed_cons _ _ _ _ state_after_cert1);
        [by_evaluation | apply all_succeed_nil].
    + by_evaluation.
  - apply (Hok state_after_cert1).
    apply (all_succeed_cons _ _ _ _ state_after_cert1);
      [by_evaluation | apply all_succeed_nil].
  - apply (Hkfail [object_key1] object_key_missing [] state_after_key1 _
             state_after_key1 eq_refl).
    + apply (all_succeed_cons _ _ _ _ state_after_key1);
        [by_evaluation | apply all_succeed_nil].
    + by_evaluation.
  - apply (Hkok state_after_key1).
    apply (all_succeed_cons _ _ _ _ state_after_key1);
      [by_evaluation | apply all_succeed_nil].
Defined.

(** ** The disabled-secret fallback *)








(** ** The shared store after a fetch *)

Section Store.

Context {ext : Externals}.









(** Warnings leave the store as it is. *)
Lemma perform_all_warnings store warnings :
  perform_all store (map Warnf warnings) = store.
Proof. induction warnings as [|w ws IH]; [done | exact IH]. Qed.

Lemma perform_all_app store trace1 trace2 :
  perform_all store (trace1 ++ trace2) = perform_all (perform_all store trace1) trace2.
Proof. unfold perform_all. apply fold_left_app. Qed.

End Store.

Lemma only_warns_store {ext : Externals} {V} (st st' : FetchState V) store :
  only_warns st st' ->
  perform_all store (fsTrace st') = perform_all store (fsTrace st).
Proof.
  intros (_ & _ & ws & ->). by rewrite perform_all_app, perform_all_warnings.
Qed.

(** ** Fetching the version history *)

#[global] Instance only_warns_preorder {V : Type} : PreOrder (@only_warns V).
Proof.
  split.
  - intros st. repeat split. exists []. simpl. by rewrite app_nil_r.
  - intros st1 st2 st3 (Hm1 & Hs1 & ws1 & Ht1) (Hm2 & Hs2 & ws2 & Ht2).
    repeat split; [congruence | congruence |].
    exists (ws1 ++ ws2). rewrite Ht2, Ht1, map_app. by rewrite app_assoc.
Qed.

Lemma wrap_error_Ret {S A} prefix (m : M S A) s a s' :
  m s = Ret a s' -> wrap_error prefix m s = Ret a s'.
Proof. unfold wrap_error. by intros ->. Qed.

Lemma wrap_error_Fail {S A} prefix (m : M S A) s e s' :
  m s = Fail e s' -> wrap_error prefix m s = Fail (Errorf_w prefix e) s'.
Proof. unfold wrap_error. by intros ->. Qed.

Lemma emit_warning_only_warns {V} (w : Warning) :
  respects (@only_warns V) (emit (Warnf w)).
Proof. intros st. simpl. repeat split. by exists [w]. Qed.

Section VersionHistory.

Context {ext : Externals}.

Lemma certificateItems_only_warns certName items versionHistory :
  respects only_warns (certificateItems certName items versionHistory).
Proof.
  revert versionHistory. induction items as [|cert items IH]; intros vh; simpl.
  - apply respects_ret; apply _.
  - destruct (negb _).
    + apply respects_bind; [apply _ | apply emit_warning_only_warns | auto].
    + repeat (apply respects_bind; [apply _ | apply respects_deref; apply _ |]; intros ?).
      apply IH.
Qed.

Lemma certificatePages_only_warns certName pages versionHistory :
  respects only_warns (certificatePages certName pages versionHistory).
Proof.
  revert versionHistory. induction pages as [|[items | err] pages IH]; intros vh; simpl.
  - apply respects_ret; apply _.
  - apply respects_bind; [apply _ | apply certificateItems_only_warns | auto].
  - apply respects_fail; apply _.
Qed.

Lemma fetchCertificateVersionHistory_only_warns s certName :
  respects only_warns (fetchCertificateVersionHistory s certName).
Proof.
  unfold fetchCertificateVersionHistory.
  apply respects_bind; [apply _ | apply certificatePages_only_warns |].
  intros vh. apply respects_ret; apply _.
Qed.

Lemma keyItems_only_warns keyName items versionHistory :
  respects only_warns (keyItems keyName items versionHistory).
Proof.
  revert versionHistory. induction items as [|key items IH]; intros vh; simpl.
  - apply respects_ret; apply _.
  - destruct (negb _).
    + apply respects_bind; [apply _ | apply emit_warning_only_warns | auto].
    + repeat (apply respects_bind; [apply _ | apply respects_deref; apply _ |]; intros ?).
      apply IH.
Qed.

Lemma keyPages_only_warns keyName pages versionHistory :
  respects only_warns (keyPages keyName pages versionHistory).
Proof.
  revert versionHistory. induction pages as [|[items | err] pages IH]; intros vh; simpl.
  - apply respects_ret; apply _.
  - apply respects_bind; [apply _ | apply keyItems_only_warns | auto].
  - apply respects_fail; apply _.
Qed.

Lemma fetchKeyVersionHistory_only_warns s keyName :
  respects only_warns (fetchKeyVersionHistory s keyName).
Proof.
  unfold fetchKeyVersionHistory.
  apply respects_bind; [apply _ | apply keyPages_only_warns |].
  intros vh. apply respects_ret; apply _.
Qed.

(** [processCertificateVersions] once the history is fetched. *)
Lemma processCertificateVersions_fetched s keyVaultCert startTime h st st1 :
  fetchCertificateVersionHistory s (KeyVaultValue.Name keyVaultCert) st = Ret h st1 ->
  processCertificateVersions s keyVaultCert startTime st
  = match trimVersionHistory h (KeyVaultValue.VersionHistoryLimit keyVaultCert)
            (KeyVaultValue.Version keyVaultCert) with
    | Returns versionHistory =>
        if bool_decide (len versionHistory = 0) then
          Ret tt (with_event st1
                    (Warnf (WarnNoCertificateVersions (KeyVaultValue.Name keyVaultCert))))
        else certificateVersions s keyVaultCert startTime versionHistory st1
    | Panics p => Crash p
    end.
Proof.
  intros Hfetch. unfold processCertificateVersions.
  rewrite (bind_Ret _ _ _ _ _ (wrap_error_Ret _ _ _ _ _ Hfetch)).
  destruct (trimVersionHistory _ _ _) as [w | p]; [| done].
  unfold bind, of_outcome, ret. by case_bool_decide.
Qed.

Lemma processKeyVersions_fetched s keyVaultKey startTime h st st1 :
  fetchKeyVersionHistory s (KeyVaultValue.Name keyVaultKey) st = Ret h st1 ->
  processKeyVersions s keyVaultKey startTime st
  = match trimVersionHistory h (KeyVaultValue.VersionHistoryLimit keyVaultKey)
            (KeyVaultValue.Version keyVaultKey) with
    | Returns versionHistory =>
        if bool_decide (len versionHistory = 0) then
          Ret tt (with_event st1
                    (Warnf (WarnNoKeyVersions (KeyVaultValue.Name keyVaultKey))))
        else keyVersions s keyVaultKey startTime versionHistory st1
    | Panics p => Crash p
    end.
Proof.
  intros Hfetch. unfold processKeyVersions.
  rewrite (bind_Ret _ _ _ _ _ (wrap_error_Ret _ _ _ _ _ Hfetch)).
  destruct (trimVersionHistory _ _ _) as [w | p]; [| done].
  unfold bind, of_outcome, ret. by case_bool_decide.
Qed.

Lemma only_warns_with_event {V} (st st1 : FetchState V) (w : Warning) :
  only_warns st st1 -> only_warns st (with_event st1 (Warnf w)).
Proof.
  intros Hst. etrans; [exact Hst |]. repeat split. by exists [w].
Qed.

End VersionHistory.

(** C10.  A pinned (non-empty) version that does not occur in the history,
    with a limit [>= 0]: the search leaves the index at [-1] and
    [trimVersionHistory] returns the empty history.  Once the history is
    fetched, [processCertificateVersions] and [processKeyVersions] log the
    warning and return no error; the state they leave differs from the one
    they started in by warnings only (no map entry, no status entry, no
    deletion from the store, which is left as it was), so the fetch call
    goes on with the next object. *)
Theorem unknown_pinned_version_contributes_nothing {ext : Externals}
    (s : akvKMProvider) (object : KeyVaultValue.t) (startTime : Time)
    (h : KeyVaultValueVersionHistory)
    (st st1 : FetchState (list Certificate)) (kst kst1 : FetchState PublicKey) :
  GoInt.in_range (KeyVaultValue.VersionHistoryLimit object) ->
  0 <= KeyVaultValue.VersionHistoryLimit object ->
  KeyVaultValue.Version object <> EmptyString ->
  (forall e, e ∈ h ->
     KeyVaultValueVersion.Version e <> KeyVaultValue.Version object) ->
  versionIndex_from h (KeyVaultValue.Version object) 0 = -1
  /\ trimVersionHistory h (KeyVaultValue.VersionHistoryLimit object)
       (KeyVaultValue.Version object) = Returns []
  /\ (fetchCertificateVersionHistory s (KeyVaultValue.Name object) st = Ret h st1 ->
      let st' :=
        with_event st1
          (Warnf (WarnNoCertificateVersions (KeyVaultValue.Name object))) in
      processCertificateVersions s object startTime st = Ret tt st'
      /\ only_warns st st'
      /\ (forall store,
            perform_all store (fsTrace st') = perform_all store (fsTrace st))
      /\ (KeyVaultValue.VersionHistoryLimit object <> 0 ->
          forall objects,
            processCertificates s (object :: objects) st
            = processCertificates s objects
                (with_event st1
                   (Warnf (WarnNoCertificateVersions (KeyVaultValue.Name object))))))
  /\ (fetchKeyVersionHistory s (KeyVaultValue.Name object) kst = Ret h kst1 ->
      let kst' :=
        with_event kst1 (Warnf (WarnNoKeyVersions (KeyVaultValue.Name object))) in
      processKeyVersions s object startTime kst = Ret tt kst'
      /\ only_warns kst kst'
      /\ (forall store,
            perform_all store (fsTrace kst') = perform_all store (fsTrace kst))
      /\ (KeyVaultValue.VersionHistoryLimit object <> 0 ->
          forall objects,
            processKeys s (object :: objects) kst
            = processKeys s objects
                (with_event kst1
                   (Warnf (WarnNoKeyVersions (KeyVaultValue.Name object)))))).
Proof.
  intros Hrange Hpos Hpin Habs.
  pose proof (trimVersionHistory_unknown_pin h _ _ Hrange Hpos Hpin Habs) as Htrim.
  split; [by apply versionIndex_from_absent |]. split; [exact Htrim |]. split.
  - intros Hfetch st'.
    assert (Hrun : forall t, processCertificateVersions s object t st = Ret tt st').
    { intros t. rewrite (processCertificateVersions_fetched _ _ _ _ _ _ Hfetch).
      by rewrite Htrim. }
    assert (Hwarn : only_warns st st').
    { apply only_warns_with_event.
      pose proof (fetchCertificateVersionHistory_only_warns s
                    (KeyVaultValue.Name object) st) as Hw.
      by rewrite Hfetch in Hw. }
    split; [apply Hrun |]. split; [exact Hwarn |]. split.
    + intros store. by apply only_warns_store.
    + intros Hne objects. simpl. unfold processCertificate.
      rewrite bool_decide_eq_false_2 by done.
      by rewrite (bind_Ret _ _ _ _ _ (Hrun time_Now)).
  - intros Hfetch kst'.
    assert (Hrun : forall t, processKeyVersions s object t kst = Ret tt kst').
    { intros t. rewrite (processKeyVersions_fetched _ _ _ _ _ _ Hfetch).
      by rewrite Htrim. }
    assert (Hwarn : only_warns kst kst').
    { apply only_warns_with_event.
      pose proof (fetchKeyVersionHistory_only_warns s
                    (KeyVaultValue.Name object) kst) as Hw.
      by rewrite Hfetch in Hw. }
    split; [apply Hrun |]. split; [exact Hwarn |]. split.
    + intros store. by apply only_warns_store.
    + intros Hne objects. simpl. unfold processKey.
      rewrite bool_decide_eq_false_2 by done.
      by rewrite (bind_Ret _ _ _ _ _ (Hrun time_Now)).
Qed.

Example fetchCertificateVersionHistory_example :
  fetchCertificateVersionHistory (example_provider [] []) "cert1" (initial_state [])
  = Ret history_abc (initial_state []).
Proof. by_evaluation. Qed.

Example fetchKeyVersionHistory_example :
  fetchKeyVersionHistory (example_provider [] []) "key1" (initial_state [])
  = Ret history_abc (initial_state []).
Proof. by_evaluation. Qed.

Lemma history_abc_has_no_zzz :
  forall e, e ∈ history_abc -> KeyVaultValueVersion.Version e <> "zzz"%string.
Proof.
  intros e He. unfold history_abc in He.
  repeat (apply elem_of_cons in He as [-> | He]; [discriminate |]).
  by apply elem_of_nil in He.
Defined.

Lemma unknown_pinned_version_contributes_nothing_witness :
  trimVersionHistory history_abc 2 "zzz" = Returns []
  /\ processCertificateVersions (example_provider [] []) object_cert1_unknown_pin
       time_Now (initial_state [])
     = Ret tt (mkFetchState ∅ [] [Warnf (WarnNoCertificateVersions "cert1")])
  /\ processCertificates (example_provider [] [])
       [object_cert1_unknown_pin; object_cert1] (initial_state [])
     = processCertificates (example_provider [] []) [object_cert1]
         (mkFetchState ∅ [] [Warnf (WarnNoCertificateVersions "cert1")])
  /\ processKeyVersions (example_provider [] []) object_key1_unknown_pin
       time_Now (initial_state [])
     = Ret tt (mkFetchState ∅ [] [Warnf (WarnNoKeyVersions "key1")]).
Proof.
  assert (Hrange : GoInt.in_range 2)
    by (unfold GoInt.in_range, GoInt.min_int, GoInt.max_int; lia).
  destruct (unknown_pinned_version_contributes_nothing (ext := example_externals)
              (example_provider [] []) object_cert1_unknown_pin time_Now
              history_abc (initial_state []) (initial_state [])
              (initial_state []) (initial_state [])
              Hrange ltac:(simpl; lia) ltac:(discriminate) history_abc_has_no_zzz)
    as (_ & Htrim & Hcert & _).
  destruct (unknown_pinned_version_contributes_nothing (ext := example_externals)
              (example_provider [] []) object_key1_unknown_pin time_Now
              history_abc (initial_state []) (initial_state [])
              (initial_state []) (initial_state [])
              Hrange ltac:(simpl; lia) ltac:(discriminate) history_abc_has_no_zzz)
    as (_ & _ & _ & Hkey).
  specialize (Hcert fetchCertificateVersionHistory_example).
  specialize (Hkey fetchKeyVersionHistory_example).
  cbv zeta in Hcert, Hkey.
  destruct Hcert as (Hrun & _ & _ & Hnext). destruct Hkey as (Hkrun & _).
  split; [exact Htrim |]. split; [exact Hrun |]. split; [| exact Hkrun].
  apply Hnext. discriminate.
Defined.

(** ** A negative versionHistoryLimit *)

(** C9.  [trimVersionHistory] is partial in its limit.  With no pinned
    version and a negative limit the clamp [limit > len] does not fire, the
    low index of the slice expression is [len - limit] (beyond the length
    of the history; negative when the subtraction overflows), and the call
    panics instead of returning.  An object configured with a negative
    [versionHistoryLimit] reaches this call, since only the value 0 selects
    the single-version path: once its history is fetched,
    [processCertificate] and [processKey] panic, and with them
    [GetCertificates] and [GetKeys].  (The history need not be non-empty.) *)
Theorem negative_versionHistoryLimit_panics {ext : Externals}
    (s : akvKMProvider) (object : KeyVaultValue.t)
    (h : KeyVaultValueVersionHistory)
    (st st1 : FetchState (list Certificate)) (kst kst1 : FetchState PublicKey) :
  len_fits h ->
  GoInt.min_int <= KeyVaultValue.VersionHistoryLimit object < 0 ->
  KeyVaultValue.Version object = EmptyString ->
  let limit := KeyVaultValue.VersionHistoryLimit object in
  let low := GoInt.sub (len h) limit in
  trimVersionHistory h limit EmptyString = Panics SliceBoundsOutOfRange
  /\ (low < 0 \/ len h < low)
  /\ (len h - limit <= GoInt.max_int -> low = len h - limit /\ len h < low)
  /\ processCertificate s object st = processCertificateVersions s object time_Now st
  /\ processKey s object kst = processKeyVersions s object time_Now kst
  /\ (fetchCertificateVersionHistory s (KeyVaultValue.Name object) st = Ret h st1 ->
      processCertificate s object st = Crash SliceBoundsOutOfRange
      /\ forall pre post trace,
           certificates s = pre ++ object :: post ->
           all_succeed (processCertificate s) pre (initial_state trace) st ->
           GetCertificates s trace = Crash SliceBoundsOutOfRange)
  /\ (fetchKeyVersionHistory s (KeyVaultValue.Name object) kst = Ret h kst1 ->
      processKey s object kst = Crash SliceBoundsOutOfRange
      /\ forall pre post trace,
           keys s = pre ++ object :: post ->
           all_succeed (processKey s) pre (initial_state trace) kst ->
           GetKeys s trace = Crash SliceBoundsOutOfRange).
Proof.
  intros Hfit Hneg Hpin limit low.
  pose proof (trimVersionHistory_unpinned_negative h limit Hfit Hneg) as Htrim.
  destruct (trimVersionHistory_unpinned_low_index h limit Hfit Hneg) as [Hlow Hexact].
  assert (Hroute : processCertificate s object st
                   = processCertificateVersions s object time_Now st).
  { unfold processCertificate. rewrite bool_decide_eq_false_2; [done |].
    fold limit. lia. }
  assert (Hkroute : processKey s object kst
                    = processKeyVersions s object time_Now kst).
  { unfold processKey. rewrite bool_decide_eq_false_2; [done |].
    fold limit. lia. }
  split; [exact Htrim |]. split; [exact Hlow |]. split; [exact Hexact |].
  split; [exact Hroute |]. split; [exact Hkroute |]. split.
  - intros Hfetch.
    assert (Hcrash : processCertificate s object st = Crash SliceBoundsOutOfRange).
    { rewrite Hroute, (processCertificateVersions_fetched _ _ _ _ _ _ Hfetch).
      fold limit. by rewrite Hpin, Htrim. }
    split; [exact Hcrash |]. intros pre post trace Hobjs Hpre.
    unfold GetCertificates. rewrite Hobjs.
    fold (initial_state (V := list Certificate) trace).
    by rewrite (processCertificates_first_crash _ _ _ _ _ _ _ Hpre Hcrash).
  - intros Hfetch.
    assert (Hcrash : processKey s object kst = Crash SliceBoundsOutOfRange).
    { rewrite Hkroute, (processKeyVersions_fetched _ _ _ _ _ _ Hfetch).
      fold limit. by rewrite Hpin, Htrim. }
    split; [exact Hcrash |]. intros pre post trace Hobjs Hpre.
    unfold GetKeys. rewrite Hobjs.
    fold (initial_state (V := PublicKey) trace).
    by rewrite (processKeys_first_crash _ _ _ _ _ _ _ Hpre Hcrash).
Qed.

Lemma negative_versionHistoryLimit_panics_witness :
  trimVersionHistory history_abc (-1) EmptyString = Panics SliceBoundsOutOfRange
  /\ GoInt.sub (len history_abc) (-1) = 4
  /\ GetCertificates (example_provider [object_cert1; object_cert1_negative] []) []
     = Crash SliceBoundsOutOfRange
  /\ GetKeys (example_provider [] [object_key1_negative]) []
     = Crash SliceBoundsOutOfRange.
Proof.
  assert (Hfit : len_fits history_abc)
    by (unfold len_fits, len, GoInt.max_int; simpl; lia).
  destruct (negative_versionHistoryLimit_panics (ext := example_externals)
              (example_provider [object_cert1; object_cert1_negative] [])
              object_cert1_negative history_abc
              state_after_cert1 state_after_cert1
              (initial_state []) (initial_state [])
              Hfit ltac:(unfold GoInt.min_int; simpl; lia) eq_refl)
    as (Htrim & _ & Hlow & _ & _ & Hcert & _).
  destruct (negative_versionHistoryLimit_panics (ext := example_externals)
              (example_provider [] [object_key1_negative])
              object_key1_negative history_abc
              (initial_state []) (initial_state [])
              (initial_state []) (initial_state [])
              Hfit ltac:(unfold GoInt.min_int; simpl; lia) eq_refl)
    as (_ & _ & _ & _ & _ & _ & Hkey).
  split; [exact Htrim |]. split; [| split].
  - apply Hlow. unfold len, GoInt.max_int. simpl. lia.
  - destruct Hcert as [_ Hcall]; [by_evaluation |].
    apply (Hcall [object_cert1] [] []); [reflexivity |].
    apply (all_succeed_cons _ _ _ _ state_after_cert1);
      [by_evaluation | apply all_succeed_nil].
  - destruct Hkey as [_ Hcall]; [by_evaluation |].
    apply (Hcall [] [] []); [reflexivity | apply all_succeed_nil].
Defined.

(** ** Disabled versions *)

#[global] Instance extends_trace_preorder : PreOrder extends_trace.
Proof.
  split.
  - intros tr. exists []. by rewrite app_nil_r.
  - intros t1 t2 t3 [e1 ->] [e2 ->]. exists (e1 ++ e2). by rewrite app_assoc.
Qed.

#[global] Instance grows_preorder {V : Type} : PreOrder (@grows V).
Proof.
  split.
  - intros st. split; [| split]; [exists []; by rewrite app_nil_r | reflexivity | done].
  - intros st1 st2 st3 ([e1 Hs1] & Ht1 & Hm1) ([e2 Hs2] & Ht2 & Hm2).
    split; [| split].
    + exists (e1 ++ e2). by rewrite Hs2, Hs1, app_assoc.
    + by etrans.
    + intros k Hk. by rewrite Hm2, Hm1.
Qed.


Lemma respects_weaken {S A} (R R' : S -> S -> Prop) (m : M S A) :
  (forall s s', R s s' -> R' s s') -> respects R m -> respects R' m.
Proof.
  intros Hsub Hm s. specialize (Hm s). destruct (m s); auto.
Qed.








Lemma bind_deref_Some {S A B} (a : A) (k : A -> M S B) :
  bind (deref (Some a)) k = k a.
Proof. reflexivity. Qed.


Section Disabled.

Context {ext : Externals}.















End Disabled.




Section DisabledVersions.

Context {ext : Externals}.














End DisabledVersions.







(** ** The fuel of the PEM loop is enough *)

Lemma finishes_ret {S A} (a : A) : finishes (S := S) (ret a).
Proof. by intros s. Qed.

Lemma finishes_fail {S A} e : finishes (S := S) (fail (A := A) e).
Proof. by intros s. Qed.

Lemma finishes_crash {S A} p : finishes (S := S) (crash (A := A) p).
Proof. by intros s. Qed.

Lemma finishes_of_outcome {S A} (o : outcome A) : finishes (S := S) (of_outcome o).
Proof. by destruct o; intros s. Qed.

Lemma finishes_deref {S A} (p : option A) : finishes (S := S) (deref p).
Proof. by destruct p; intros s. Qed.

Lemma finishes_bind {S A B} (m : M S A) (k : A -> M S B) :
  finishes m -> (forall a, finishes (k a)) -> finishes (bind m k).
Proof.
  intros Hm Hk s. unfold bind. specialize (Hm s).
  destruct (m s) as [a s1 | e s1 | p |]; try done. apply Hk.
Qed.

Lemma finishes_wrap_error {S A} prefix (m : M S A) :
  finishes m -> finishes (wrap_error prefix m).
Proof. intros Hm s. unfold wrap_error. specialize (Hm s). by destruct (m s). Qed.

Lemma finishes_with_trace {V A} (m : M (list Event) A) :
  finishes m -> finishes (with_trace (V := V) m).
Proof.
  intros Hm s. unfold with_trace. specialize (Hm (fsTrace s)).
  by destruct (m (fsTrace s)).
Qed.

Lemma finishes_emit {V} e : finishes (emit (V := V) e).
Proof. by intros s. Qed.

Lemma finishes_append_status {V} entries : finishes (append_status (V := V) entries).
Proof. by intros s. Qed.

Lemma finishes_map_store {V} mapKey (v : V) : finishes (map_store mapKey v).
Proof. by intros s. Qed.

Lemma finishes_log e : finishes (log e).
Proof. by intros s. Qed.

Section Termination.

Context {ext : Externals}.

Hypothesis pem_Decode_shrinks : pem_Decode_consumes.

Lemma handleBlock_finishes certName version lastRefreshed enabled block
    results certsStatus :
  finishes (handleBlock certName version lastRefreshed enabled block results
              certsStatus).
Proof.
  unfold handleBlock. repeat case_bool_decide.
  - apply finishes_bind; [apply finishes_log | intros _; apply finishes_ret].
  - destruct (DecodeCertificates _); [apply finishes_ret | apply finishes_fail].
  - apply finishes_bind; [apply finishes_log | intros _; apply finishes_ret].
Qed.

Lemma decodeBlocks_finishes fuel certName version lastRefreshed enabled
    block rest results certsStatus :
  (String.length rest < fuel)%nat ->
  finishes (decodeBlocks fuel certName version lastRefreshed enabled block rest
              results certsStatus).
Proof.
  revert block rest results certsStatus.
  induction fuel as [|fuel IH]; intros block rest results certsStatus Hfuel; [lia |].
  cbn [decodeBlocks].
  apply finishes_bind; [apply handleBlock_finishes |]. intros acc.
  destruct (pem_Decode rest) as [[block'|] rest'] eqn:Hdec; cbn [fst snd].
  - apply IH. pose proof (pem_Decode_shrinks _ _ _ Hdec). lia.
  - case_bool_decide; [apply finishes_fail | apply finishes_ret].
Qed.

Lemma getCertsFromSecretBundle_finishes secretBundle certName enabled :
  finishes (getCertsFromSecretBundle secretBundle certName enabled).
Proof.
  unfold getCertsFromSecretBundle.
  apply finishes_bind; [apply finishes_deref |]. intros id.
  apply finishes_bind; [apply finishes_deref |]. intros ct.
  destruct (_ && _); [apply finishes_fail |].
  apply finishes_bind; [apply finishes_deref |]. intros value.
  apply finishes_bind.
  - case_bool_decide; [| apply finishes_ret].
    destruct (base64_DecodeString value); [| apply finishes_fail].
    destruct (pkcs12_ToPEM _ _); [apply finishes_ret | apply finishes_fail].
  - intros data. destruct (pem_Decode data).1.
    + apply decodeBlocks_finishes. lia.
    + apply finishes_ret.
Qed.

Lemma store_parsed_finishes secretBundle name mapKey enabled
    (k : M (FetchState (list Certificate)) unit) :
  finishes k ->
  finishes
    (let* parsed :=
       wrap_error "failed to get certificates from secret bundle:"
         (with_trace (getCertsFromSecretBundle secretBundle name enabled)) in
     let* _ := emit (ReportAKVCertificateDuration name) in
     let* _ := append_status parsed.2 in
     let* _ := map_store mapKey parsed.1 in
     k).
Proof.
  intros Hk.
  apply finishes_bind.
  { apply finishes_wrap_error, finishes_with_trace,
      getCertsFromSecretBundle_finishes. }
  intros parsed.
  apply finishes_bind; [apply finishes_emit |]. intros _.
  apply finishes_bind; [apply finishes_append_status |]. intros _.
  apply finishes_bind; [apply finishes_map_store |]. intros _. exact Hk.
Qed.

Lemma certificateVersions_finishes s keyVaultCert startTime versionHistory :
  finishes (certificateVersions s keyVaultCert startTime versionHistory).
Proof.
  induction versionHistory as [|certVersion versionHistory IH]; simpl.
  - apply finishes_ret.
  - destruct (negb _).
    + apply finishes_bind; [apply finishes_append_status |]. intros _.
      apply finishes_bind; [apply finishes_emit | auto].
    + destruct (GetSecret _ _ _) as [secretBundle | err]; [| apply finishes_fail].
      destruct (negb _).
      * apply finishes_bind; [apply finishes_emit | auto].
      * by apply store_parsed_finishes.
Qed.

Lemma fetchCertificateVersionHistory_finishes s certName :
  finishes (fetchCertificateVersionHistory s certName).
Proof.
  assert (Hitems : forall items vh, finishes (certificateItems certName items vh)).
  { induction items as [|cert items IH]; intros vh; simpl; [apply finishes_ret |].
    destruct (negb _).
    - apply finishes_bind; [apply finishes_emit | auto].
    - repeat (apply finishes_bind; [apply finishes_deref |]; intros ?). apply IH. }
  assert (Hpages : forall pages vh, finishes (certificatePages certName pages vh)).
  { induction pages as [|[items | err] pages IH]; intros vh; simpl.
    - apply finishes_ret.
    - apply finishes_bind; [apply Hitems | auto].
    - apply finishes_fail. }
  unfold fetchCertificateVersionHistory.
  apply finishes_bind; [apply Hpages |]. intros vh. apply finishes_ret.
Qed.

Lemma processCertificate_finishes s keyVaultCert :
  finishes (processCertificate s keyVaultCert).
Proof.
  unfold processCertificate. case_bool_decide.
  - unfold processCertificateVersion.
    destruct (GetSecret _ _ _) as [secretBundle | err].
    + destruct (negb _); [apply finishes_emit |].
      apply finishes_bind; [apply finishes_deref |]. intros attrs.
      apply finishes_bind; [apply finishes_deref |]. intros isEnabled.
      apply (store_parsed_finishes secretBundle _ _ isEnabled (ret tt)).
      apply finishes_ret.
    + apply finishes_bind; [apply finishes_of_outcome |]. intros disabled.
      destruct (negb disabled); [apply finishes_fail |].
      unfold handleDisabledSecret.
      destruct (GetCertificate _ _ _) as [certResponse | err'];
        [| apply finishes_fail].
      destruct (negb _); [apply finishes_emit |].
      apply finishes_bind; [apply finishes_deref |]. intros attrs.
      apply finishes_bind; [apply finishes_deref |]. intros isEnabled.
      apply finishes_bind; [apply finishes_append_status |]. intros _.
      apply finishes_emit.
  - unfold processCertificateVersions.
    apply finishes_bind.
    { apply finishes_wrap_error, fetchCertificateVersionHistory_finishes. }
    intros h. apply finishes_bind; [apply finishes_of_outcome |]. intros w.
    case_bool_decide; [apply finishes_emit | apply certificateVersions_finishes].
Qed.

(** Given that [pem.Decode] consumes input, the fuel of the PEM loop never
    runs out in [GetCertificates].  (A pager being the finite sequence of
    the pages the vault hands over, the listing loops end with the pages.) *)
Lemma GetCertificates_finishes s : finishes (GetCertificates s).
Proof.
  assert (Hloop : forall objects, finishes (processCertificates s objects)).
  { induction objects as [|object objects IH]; simpl; [apply finishes_ret |].
    apply finishes_bind; [apply processCertificate_finishes | auto]. }
  intros trace. unfold GetCertificates.
  specialize (Hloop (certificates s) (mkFetchState ∅ [] trace)).
  by destruct (processCertificates _ _ _).
Qed.

End Termination.

(** [GetKeys] has no loop on fuel. *)
Lemma GetKeys_finishes {ext : Externals} s : finishes (GetKeys s).
Proof.
  assert (Hitems : forall name items vh, finishes (keyItems name items vh)).
  { intros name. induction items as [|key items IH]; intros vh; simpl;
      [apply finishes_ret |].
    destruct (negb _).
    - apply finishes_bind; [apply finishes_emit | auto].
    - repeat (apply finishes_bind; [apply finishes_deref |]; intros ?). apply IH. }
  assert (Hpages : forall name pages vh, finishes (keyPages name pages vh)).
  { intros name. induction pages as [|[items | err] pages IH]; intros vh; simpl.
    - apply finishes_ret.
    - apply finishes_bind; [apply Hitems | auto].
    - apply finishes_fail. }
  assert (Hversions : forall object t w, finishes (keyVersions s object t w)).
  { intros object t. induction w as [|keyVersion w IH]; simpl; [apply finishes_ret |].
    destruct (negb _).
    - apply finishes_bind; [apply finishes_append_status |]. intros _.
      apply finishes_bind; [apply finishes_emit | auto].
    - destruct (GetKey _ _ _) as [keyBundle | err]; [| apply finishes_fail].
      destruct (negb _).
      + apply finishes_bind; [apply finishes_emit | auto].
      + destruct (getKeyFromKeyBundle keyBundle); [| apply finishes_fail].
        apply finishes_bind; [apply finishes_map_store |]. intros _.
        apply finishes_bind; [apply finishes_append_status | auto]. }
  assert (Hobject : forall object, finishes (processKey s object)).
  { intros object. unfold processKey. case_bool_decide.
    - unfold processKeyVersion.
      destruct (GetKey _ _ _) as [keyBundle | err]; [| apply finishes_fail].
      destruct (negb _); [apply finishes_emit |].
      repeat (apply finishes_bind; [apply finishes_deref |]; intros ?).
      destruct (negb _).
      + apply finishes_bind; [apply finishes_append_status |]. intros _.
        apply finishes_emit.
      + destruct (getKeyFromKeyBundle keyBundle); [| apply finishes_fail].
        apply finishes_bind; [apply finishes_map_store |]. intros _.
        apply finishes_bind; [apply finishes_emit |]. intros _.
        apply finishes_append_status.
    - unfold processKeyVersions.
      apply finishes_bind.
      { apply finishes_wrap_error. unfold fetchKeyVersionHistory.
        apply finishes_bind; [apply Hpages |]. intros vh. apply finishes_ret. }
      intros h. apply finishes_bind; [apply finishes_of_outcome |]. intros w.
      case_bool_decide; [apply finishes_emit | apply Hversions]. }
  assert (Hloop : forall objects, finishes (processKeys s objects)).
  { induction objects as [|object objects IH]; simpl; [apply finishes_ret |].
    apply finishes_bind; [apply Hobject | auto]. }
  intros trace. unfold GetKeys.
  specialize (Hloop (keys s) (mkFetchState ∅ [] trace)).
  by destruct (processKeys _ _ _).
Qed.

(* ===================================================================== *)
(** * Further properties of the code                                      *)
(* ===================================================================== *)

(** ** trimVersionHistory: what every window has in common *)

Lemma slice_expr_segment {A} (s w : list A) low high :
  slice_expr s low high = Returns w ->
  s = take (Z.to_nat low) s ++ w ++ drop (Z.to_nat high) s.
Proof.
  unfold slice_expr. case_bool_decide as Hb; [| discriminate].
  intros [= <-].
  rewrite <- (take_drop (Z.to_nat low) s) at 1. f_equal.
  rewrite <- (take_drop (Z.to_nat (high - low)) (drop (Z.to_nat low) s)) at 1.
  f_equal. rewrite drop_drop. f_equal. lia.
Qed.

Lemma slice_expr_to_end {A} (s w : list A) low :
  slice_expr s low (len s) = Returns w -> s = take (Z.to_nat low) s ++ w.
Proof.
  intros Hs. pose proof (slice_expr_segment _ _ _ _ Hs) as Heq.
  rewrite drop_ge in Heq by (unfold len; lia).
  by rewrite app_nil_r in Heq.
Qed.

Lemma trimVersionHistory_segment h limit version w :
  trimVersionHistory h limit version = Returns w ->
  exists older newer,
    h = older ++ w ++ newer /\ (version = ""%string -> newer = []).
Proof.
  unfold trimVersionHistory. case_bool_decide as Hv; cbv zeta; intros Hs.
  - apply slice_expr_to_end in Hs. eexists _, []. by rewrite app_nil_r.
  - apply slice_expr_segment in Hs. eexists _, _. split; [exact Hs | done].
Qed.

Lemma sorted_by_created_tail v h :
  sorted_by_created (v :: h) -> sorted_by_created h.
Proof. inversion 1; subst; [constructor | done]. Qed.

Lemma sorted_by_created_app_r a b :
  sorted_by_created (a ++ b) -> sorted_by_created b.
Proof.
  induction a as [|v a IH]; simpl; [done |].
  intros Hs. apply IH. by apply sorted_by_created_tail in Hs.
Qed.

Lemma sorted_by_created_app_l a b :
  sorted_by_created (a ++ b) -> sorted_by_created a.
Proof.
  induction a as [|v a IH]; simpl; [constructor |].
  intros Hs. destruct a as [|w a]; [constructor |].
  simpl in *. inversion Hs; subst. constructor; [done | by apply IH].
Qed.

(** X1.  Whatever the limit and the pinned version, a window that
    [trimVersionHistory] returns is a run of consecutive entries of the
    history, in the order of the history: nothing is added, dropped from
    the middle or reordered.  Without a pinned version the run ends with
    the last entry of the history. *)
Theorem trimVersionHistory_returns_consecutive_entries
    (h : KeyVaultValueVersionHistory) (limit : Z) (version : string)
    (w : KeyVaultValueVersionHistory) :
  trimVersionHistory h limit version = Returns w ->
  exists older newer,
    h = older ++ w ++ newer /\ (version = ""%string -> newer = []).
Proof. apply trimVersionHistory_segment. Qed.

Lemma trimVersionHistory_returns_consecutive_entries_witness :
  exists older newer,
    history_abc
    = older ++ [ KeyVaultValueVersion.mk "a" 10 true;
                 KeyVaultValueVersion.mk "b" 20 false ] ++ newer
    /\ ("b"%string = ""%string -> newer = []).
Proof.
  apply (trimVersionHistory_returns_consecutive_entries history_abc 1 "b").
  reflexivity.
Defined.

(** X2.  Trimming keeps the order by creation time: the window of a history
    sorted oldest first is sorted oldest first, so the versions are
    processed from the oldest to the newest. *)
Theorem trimVersionHistory_keeps_sorted
    (h : KeyVaultValueVersionHistory) (limit : Z) (version : string)
    (w : KeyVaultValueVersionHistory) :
  sorted_by_created h ->
  trimVersionHistory h limit version = Returns w ->
  sorted_by_created w.
Proof.
  intros Hs Ht.
  destruct (trimVersionHistory_segment _ _ _ _ Ht) as (older & newer & -> & _).
  by apply sorted_by_created_app_r, sorted_by_created_app_l in Hs.
Qed.

Lemma trimVersionHistory_keeps_sorted_witness :
  sorted_by_created [ KeyVaultValueVersion.mk "b" 20 false;
                      KeyVaultValueVersion.mk "c" 30 true ].
Proof.
  apply (trimVersionHistory_keeps_sorted history_abc 2 "").
  - repeat constructor; simpl; lia.
  - reflexivity.
Defined.

Lemma versionIndex_from_range h version i :
  versionIndex_from h version i = -1
  \/ i <= versionIndex_from h version i < i + len h.
Proof.
  revert i. induction h as [|v h IH]; intros i; simpl; [by left |].
  unfold len. simpl length. case_bool_decide.
  - right. lia.
  - destruct (IH (i + 1)) as [-> | Hr]; [by left |]. right. unfold len in Hr. lia.
Qed.

(** X3.  With a pinned version, a negative limit does not mean "no older
    versions": the low index of the slice expression is the index of the
    pinned version minus the limit, beyond the high index.  For the limit
    [-1] the window is empty, also when the pinned version is in the
    history; for every smaller limit the call panics. *)
Theorem trimVersionHistory_pinned_negative_limit
    (h : KeyVaultValueVersionHistory) (limit : Z) (version : string) :
  len_fits h ->
  version <> ""%string ->
  GoInt.min_int + len h <= limit < 0 ->
  trimVersionHistory h limit version
  = if bool_decide (limit = -1) then Returns []
    else Panics SliceBoundsOutOfRange.
Proof.
  intros Hfit Hne Hlim. unfold len_fits in Hfit.
  assert (Hmax : GoInt.max_int = 2 ^ 63 - 1) by reflexivity.
  assert (Hmin : GoInt.min_int = - 2 ^ 63) by reflexivity.
  pose proof (len_nonneg h) as Hlen.
  unfold trimVersionHistory. rewrite bool_decide_eq_false_2 by done. cbv zeta.
  pose proof (versionIndex_from_range h version 0) as Hidx.
  set (idx := versionIndex_from h version 0) in *.
  assert (Hr : -1 <= idx < len h) by lia.
  unfold GoInt.sub, GoInt.add.
  rewrite !wrap_id by (unfold GoInt.in_range; lia).
  replace (if idx - limit <? 0 then 0 else idx - limit) with (idx - limit)
    by (destruct (Z.ltb_spec (idx - limit) 0); lia).
  case_bool_decide as Hone.
  - subst limit. rewrite slice_expr_ok by lia.
    replace (idx + 1 - (idx - -1)) with 0 by lia. done.
  - apply slice_expr_panics. lia.
Qed.

Lemma trimVersionHistory_pinned_negative_limit_witness :
  trimVersionHistory history_abc (-1) "c" = Returns []
  /\ trimVersionHistory history_abc (-2) "c" = Panics SliceBoundsOutOfRange.
Proof.
  assert (Hfit : len_fits history_abc)
    by (unfold len_fits, len, GoInt.max_int; simpl; lia).
  split.
  - apply (trimVersionHistory_pinned_negative_limit history_abc (-1) "c" Hfit).
    + discriminate.
    + unfold GoInt.min_int, len. simpl. lia.
  - apply (trimVersionHistory_pinned_negative_limit history_abc (-2) "c" Hfit).
    + discriminate.
    + unfold GoInt.min_int, len. simpl. lia.
Defined.

(** The search loop finds the first occurrence, wherever it is. *)
Lemma versionIndex_from_first h version i (n : nat) e :
  h !! n = Some e ->
  KeyVaultValueVersion.Version e = version ->
  (forall (m : nat) e', (m < n)%nat -> h !! m = Some e' ->
     KeyVaultValueVersion.Version e' <> version) ->
  versionIndex_from h version i = i + Z.of_nat n.
Proof.
  revert i n. induction h as [|v h IH]; intros i n Hl Hv Hfirst; [done |].
  simpl. destruct n as [|n].
  - simpl in Hl. inversion Hl; subst. rewrite bool_decide_eq_true_2 by done. lia.
  - rewrite bool_decide_eq_false_2 by (apply (Hfirst 0%nat); [lia | done]).
    rewrite (IH (i + 1) n); [lia | done | done |].
    intros m e' Hm Hl'. apply (Hfirst (S m)); [lia | done].
Qed.

Lemma trimVersionHistory_pinned_at h limit version (n : nat) e :
  len_fits h ->
  GoInt.in_range limit ->
  0 <= limit ->
  version <> ""%string ->
  h !! n = Some e ->
  KeyVaultValueVersion.Version e = version ->
  (forall (m : nat) e', (m < n)%nat -> h !! m = Some e' ->
     KeyVaultValueVersion.Version e' <> version) ->
  trimVersionHistory h limit version
  = Returns (take (Z.to_nat (Z.of_nat n + 1 - Z.max 0 (Z.of_nat n - limit)))
               (drop (Z.to_nat (Z.max 0 (Z.of_nat n - limit))) h)).
Proof.
  intros Hfit Hlim Hpos Hne Hl Hv Hfirst.
  pose proof (lookup_lt_Some _ _ _ Hl) as Hn.
  unfold len_fits, len in Hfit. unfold GoInt.in_range in Hlim.
  assert (Hmax : GoInt.max_int = 2 ^ 63 - 1) by reflexivity.
  assert (Hmin : GoInt.min_int = - 2 ^ 63) by reflexivity.
  unfold trimVersionHistory. rewrite bool_decide_eq_false_2 by done. cbv zeta.
  rewrite (versionIndex_from_first h version 0 n e Hl Hv Hfirst).
  unfold GoInt.sub, GoInt.add.
  rewrite !wrap_id by (unfold GoInt.in_range; lia).
  replace (if 0 + Z.of_nat n - limit <? 0 then 0 else 0 + Z.of_nat n - limit)
    with (Z.max 0 (Z.of_nat n - limit))
    by (destruct (Z.ltb_spec (0 + Z.of_nat n - limit) 0); lia).
  rewrite slice_expr_ok by (unfold len; lia).
  repeat (f_equal; try lia).
Qed.

(** X4.  Trimming is idempotent: for a limit [>= 0], trimming a window again
    with the same limit and the same pinned version returns the window
    itself.  (With a pinned version, the pinned entry is the last of the
    window and the window holds at most [limit] entries before it.) *)
Theorem trimVersionHistory_idempotent
    (h : KeyVaultValueVersionHistory) (limit : Z) (version : string)
    (w : KeyVaultValueVersionHistory) :
  len_fits h ->
  GoInt.in_range limit ->
  0 <= limit ->
  trimVersionHistory h limit version = Returns w ->
  trimVersionHistory w limit version = Returns w.
Proof.
  intros Hfit Hlim Hpos Ht.
  assert (Hmax : GoInt.max_int = 2 ^ 63 - 1) by reflexivity.
  assert (Hfitw : len_fits w).
  { destruct (trimVersionHistory_segment _ _ _ _ Ht) as (older & newer & Heq & _).
    unfold len_fits in *. rewrite Heq, !len_app in Hfit.
    pose proof (len_nonneg older). pose proof (len_nonneg newer). lia. }
  destruct (decide (version = ""%string)) as [-> | Hne].
  - rewrite trimVersionHistory_unpinned in Ht by done. injection Ht as <-.
    rewrite trimVersionHistory_unpinned by done. f_equal.
    set (w := drop _ h) in *.
    assert (len w = Z.min limit (len h)).
    { unfold w, len. rewrite length_drop. unfold len.
      pose proof (len_nonneg h). unfold len in *. lia. }
    replace (len w - Z.min limit (len w)) with 0 by lia. done.
  - destruct (decide (Exists (fun e => KeyVaultValueVersion.Version e = version) h))
      as [Hex | Hnex].
    + apply Exists_exists in Hex.
      destruct (versionIndex_from_found h version 0 Hex)
        as (n & e & Hl & Hv & Hfirst & _).
      pose proof (lookup_lt_Some _ _ _ Hl) as Hn.
      rewrite (trimVersionHistory_pinned_at h limit version n e) in Ht by done.
      injection Ht as <-.
      set (start := Z.max 0 (Z.of_nat n - limit)).
      set (w := take (Z.to_nat (Z.of_nat n + 1 - start)) (drop (Z.to_nat start) h)).
      fold w in Hfitw.
      assert (Hstart : 0 <= start <= Z.of_nat n) by (unfold start; lia).
      assert (Hlenw : length w = Z.to_nat (Z.of_nat n + 1 - start)).
      { unfold w. rewrite length_take, length_drop. lia. }
      assert (Hw : forall m : nat, (m < length w)%nat ->
                     w !! m = h !! (Z.to_nat start + m)%nat).
      { intros m Hm. unfold w. rewrite lookup_take_lt by lia. by rewrite lookup_drop. }
      rewrite (trimVersionHistory_pinned_at w limit version
                 (Z.to_nat (Z.of_nat n - start)) e); try done.
      * f_equal.
        replace (Z.max 0 (Z.of_nat (Z.to_nat (Z.of_nat n - start)) - limit)) with 0
          by (unfold start; lia).
        rewrite drop_0. apply take_ge. lia.
      * rewrite Hw by lia. rewrite <- Hl. f_equal. lia.
      * intros m e' Hm Hl'. rewrite Hw in Hl' by lia.
        apply (Hfirst (Z.to_nat start + m)%nat e'); [lia | done].
    + assert (Habs : forall e, e ∈ h -> KeyVaultValueVersion.Version e <> version).
      { intros e He Hv. apply Hnex, Exists_exists. eauto. }
      rewrite trimVersionHistory_unknown_pin in Ht by done. injection Ht as <-.
      apply trimVersionHistory_unknown_pin; try done.
      intros e He. by apply elem_of_nil in He.
Qed.

Lemma trimVersionHistory_idempotent_witness :
  trimVersionHistory [ KeyVaultValueVersion.mk "a" 10 true;
                       KeyVaultValueVersion.mk "b" 20 false ] 1 "b"
  = Returns [ KeyVaultValueVersion.mk "a" 10 true;
              KeyVaultValueVersion.mk "b" 20 false ].
Proof.
  apply (trimVersionHistory_idempotent history_abc 1 "b").
  - unfold len_fits, len, GoInt.max_int. simpl. lia.
  - unfold GoInt.in_range, GoInt.min_int, GoInt.max_int. lia.
  - lia.
  - reflexivity.
Defined.

(** ** isSecretDisabledError: when it panics *)


(** ** getObjectVersion: the last segment of an identifier *)

Lemma strings_Split_nonempty s sep : strings_Split s sep <> [].
Proof. destruct s as [|c s]; simpl; [done |]. destruct (Ascii.eqb c sep); [done |].
  by destruct (strings_Split s sep). Qed.

Lemma strings_Join_Split s sep : strings_Join (strings_Split s sep) sep = s.
Proof.
  induction s as [|c s IH]; [done |]. simpl.
  pose proof (strings_Split_nonempty s sep) as Hne.
  destruct (Ascii.eqb_spec c sep) as [-> | Hc].
  - destruct (strings_Split s sep) as [|seg segs] eqn:Hs; [done |].
    change (strings_Join (EmptyString :: seg :: segs) sep)
      with (String sep (strings_Join (seg :: segs) sep)).
    by rewrite IH.
  - destruct (strings_Split s sep) as [|seg [|seg' segs]] eqn:Hs; [done | |].
    + simpl in *. by rewrite IH.
    + change (strings_Join (String c seg :: seg' :: segs) sep)
        with (String c (seg +:+ String sep (strings_Join (seg' :: segs) sep))).
      f_equal. exact IH.
Qed.

Lemma strings_Split_segments s sep :
  Forall (fun seg => occurs_in sep seg = false) (strings_Split s sep).
Proof.
  induction s as [|c s IH]; simpl; [by repeat constructor |].
  destruct (Ascii.eqb_spec c sep) as [-> | Hc]; [by constructor |].
  assert (Hsep : Ascii.eqb sep c = false)
    by (destruct (Ascii.eqb_spec sep c); [by subst | done]).
  destruct (strings_Split s sep) as [|seg segs].
  - constructor; [| constructor]. simpl. by rewrite Hsep.
  - inversion IH; subst. constructor; [| done]. simpl. by rewrite Hsep.
Qed.

Lemma last_elem_of {A} (l : list A) d : l <> [] -> List.last l d ∈ l.
Proof.
  induction l as [|x l IH]; [done |]. intros _.
  destruct l as [|y l]; [apply list_elem_of_here |].
  apply list_elem_of_further. by apply IH.
Qed.

Lemma strings_Join_last elems sep :
  elems <> [] ->
  exists pre,
    strings_Join elems sep = (pre +:+ List.last elems EmptyString)%string
    /\ (pre = EmptyString
        \/ exists pre', pre = (pre' +:+ String sep EmptyString)%string).
Proof.
  induction elems as [|elem elems IH]; [done |]. intros _.
  destruct elems as [|elem' elems].
  - exists EmptyString. split; [done | by left].
  - destruct (IH ltac:(done)) as (pre & Heq & Hpre).
    exists (elem +:+ String sep pre)%string. split.
    + change (strings_Join (elem :: elem' :: elems) sep)
        with (elem +:+ String sep (strings_Join (elem' :: elems) sep))%string.
      rewrite Heq.
      change (List.last (elem :: elem' :: elems) EmptyString)
        with (List.last (elem' :: elems) EmptyString).
      by rewrite string_append_assoc.
    + right. destruct Hpre as [-> | [pre' ->]].
      * exists elem. done.
      * exists (elem +:+ String sep pre')%string.
        by rewrite string_append_assoc.
Qed.

(** X6.  [getObjectVersion] returns what follows the last slash of the
    identifier, and the whole identifier when it has no slash: the
    identifier ends with the result, the result holds no slash, and what
    comes before it is empty or ends with a slash. *)
Theorem getObjectVersion_last_segment (id : string) :
  exists pre,
    id = (pre +:+ getObjectVersion id)%string
    /\ occurs_in "/" (getObjectVersion id) = false
    /\ (pre = EmptyString \/ exists pre', pre = (pre' +:+ "/")%string).
Proof.
  unfold getObjectVersion. cbv zeta.
  pose proof (strings_Split_nonempty id "/") as Hne.
  destruct (strings_Join_last _ "/" Hne) as (pre & Heq & Hpre).
  rewrite strings_Join_Split in Heq.
  exists pre. split; [done |]. split; [| done].
  pose proof (strings_Split_segments id "/") as Hall.
  rewrite Forall_forall in Hall. apply Hall. by apply last_elem_of.
Qed.

(** ** getKeyFromKeyBundle: keys held in a hardware module *)

(** X7.  A key held in a hardware security module is read as the software
    key of the same kind: a bundle of type "EC-HSM" gives what the same
    bundle gives under the type "EC", and "RSA-HSM" what "RSA" gives, be it
    the public key or the error. *)
Theorem getKeyFromKeyBundle_hsm_key_types {ext : Externals}
    (attributes : option KeyAttributes.t) (kid : option string)
    (material : string) :
  let bundle kty :=
    KeyBundle.mk attributes (Some (JSONWebKey.mk kid (Some kty) material)) in
  getKeyFromKeyBundle (bundle JSONWebKeyTypeECHSM)
  = getKeyFromKeyBundle (bundle JSONWebKeyTypeEC)
  /\ getKeyFromKeyBundle (bundle JSONWebKeyTypeRSAHSM)
     = getKeyFromKeyBundle (bundle JSONWebKeyTypeRSA).
Proof.
  cbv zeta. unfold getKeyFromKeyBundle. cbn [KeyBundle.Key JSONWebKey.Kty
    JSONWebKey.KID JSONWebKey.Material].
  split.
  - rewrite (bool_decide_eq_true_2 (JSONWebKeyTypeECHSM = JSONWebKeyTypeECHSM)) by done.
    rewrite (bool_decide_eq_false_2 (JSONWebKeyTypeEC = JSONWebKeyTypeECHSM)) by done.
    rewrite (bool_decide_eq_false_2 (JSONWebKeyTypeEC = JSONWebKeyTypeRSAHSM)) by done.
    done.
  - rewrite (bool_decide_eq_false_2 (JSONWebKeyTypeRSAHSM = JSONWebKeyTypeECHSM)) by done.
    rewrite (bool_decide_eq_true_2 (JSONWebKeyTypeRSAHSM = JSONWebKeyTypeRSAHSM)) by done.
    rewrite (bool_decide_eq_false_2 (JSONWebKeyTypeRSA = JSONWebKeyTypeECHSM)) by done.
    rewrite (bool_decide_eq_false_2 (JSONWebKeyTypeRSA = JSONWebKeyTypeRSAHSM)) by done.
    done.
Qed.

(** ** getCertsFromSecretBundle: every stream of blocks *)

Section Walk.

Context {ext : Externals}.

Lemma handleBlock_entries certName version lastRefreshed enabled block
    results certsStatus trace results' certsStatus' trace' :
  handleBlock certName version lastRefreshed enabled block results certsStatus trace
  = Ret (results', certsStatus') trace' ->
  exists decodedCerts,
    results' = results ++ decodedCerts
    /\ certsStatus'
       = certsStatus
         ++ map (fun _ => getStatusProperty certName version lastRefreshed enabled)
              decodedCerts
    /\ certificates_of_blocks [block] = inl decodedCerts
    /\ trace' = trace ++ map Warnf (block_warnings certName version [block]).
Proof.
  unfold block_warnings. simpl. rewrite app_nil_r.
  destruct (decide (Block.Type_ block = "PRIVATE KEY"%string)) as [Hk | Hk].
  - rewrite (handleBlock_private_key _ _ _ _ _ _ _ _ Hk).
    intros [= <- <- <-]. exists []. rewrite !app_nil_r.
    rewrite (bool_decide_eq_true_2 _ Hk).
    rewrite (bool_decide_eq_false_2 (Block.Type_ block = "CERTIFICATE"%string))
      by (by rewrite Hk).
    done.
  - rewrite (bool_decide_eq_false_2 _ Hk).
    destruct (decide (Block.Type_ block = "CERTIFICATE"%string)) as [Hc | Hc].
    + rewrite (bool_decide_eq_true_2 _ Hc).
      destruct (DecodeCertificates (pem_EncodeToMemory block)) as [decoded | err] eqn:Hd.
      * rewrite (handleBlock_certificate _ _ _ _ _ _ _ _ _ Hc Hd).
        intros [= <- <- <-]. exists decoded. by rewrite !app_nil_r.
      * unfold handleBlock. rewrite (bool_decide_eq_false_2 _ Hk).
        rewrite (bool_decide_eq_true_2 _ Hc).
        change (EmptyString +:+ pem_EncodeToMemory block)%string
          with (pem_EncodeToMemory block).
        by rewrite Hd.
    + rewrite (bool_decide_eq_false_2 _ Hc).
      unfold handleBlock. rewrite (bool_decide_eq_false_2 _ Hk).
      rewrite (bool_decide_eq_false_2 _ Hc).
      intros [= <- <- <-]. exists []. by rewrite !app_nil_r.
Qed.

Lemma handleBlock_fails certName version lastRefreshed enabled block
    results certsStatus trace e trace' :
  handleBlock certName version lastRefreshed enabled block results certsStatus trace
  = Fail e trace' ->
  exists err,
    certificates_of_blocks [block] = inr err
    /\ e = certInvalid (Some err)
             ("azure keyvault key management provider: failed to decode Certificate "
              +:+ certName +:+ ", version " +:+ version)
    /\ trace' = trace.
Proof.
  unfold handleBlock. simpl.
  case_bool_decide as Hk; [discriminate |].
  case_bool_decide as Hc; [| discriminate].
  change (EmptyString +:+ pem_EncodeToMemory block)%string
    with (pem_EncodeToMemory block).
  destruct (DecodeCertificates (pem_EncodeToMemory block)) as [decoded | err];
    [discriminate |].
  intros [= <- <-]. by exists err.
Qed.

Lemma handleBlock_returns_or_fails certName version lastRefreshed enabled block
    results certsStatus trace :
  (exists acc trace',
     handleBlock certName version lastRefreshed enabled block results certsStatus
       trace = Ret acc trace')
  \/ (exists e trace',
        handleBlock certName version lastRefreshed enabled block results
          certsStatus trace = Fail e trace').
Proof.
  unfold handleBlock. repeat case_bool_decide.
  - left. by eexists _, _.
  - destruct (DecodeCertificates _); [left | right]; by eexists _, _.
  - left. by eexists _, _.
Qed.

Lemma certificates_of_blocks_cons block blocks :
  certificates_of_blocks (block :: blocks)
  = match certificates_of_blocks [block] with
    | inr err => inr err
    | inl decodedCerts =>
        match certificates_of_blocks blocks with
        | inr err => inr err
        | inl certs => inl (decodedCerts ++ certs)
        end
    end.
Proof.
  simpl. case_bool_decide.
  - destruct (DecodeCertificates _); [| done].
    rewrite app_nil_r. done.
  - by destruct (certificates_of_blocks blocks).
Qed.

Lemma block_warnings_cons certName version block blocks :
  block_warnings certName version (block :: blocks)
  = block_warnings certName version [block] ++ block_warnings certName version blocks.
Proof. unfold block_warnings. simpl. by rewrite app_nil_r. Qed.

(** The loop over a stream whose blocks all decode. *)
Lemma decodeBlocks_walk fuel certName version lastRefreshed enabled block rest
    blocks tail certs results certsStatus trace :
  pem_blocks rest blocks tail ->
  (String.length rest < fuel)%nat ->
  pem_Decode_consumes ->
  certificates_of_blocks (block :: blocks) = inl certs ->
  decodeBlocks fuel certName version lastRefreshed enabled block rest
    results certsStatus trace
  = if bool_decide (strlen tail > 0) then
      Fail (certInvalid None
              ("certificate '" +:+ certName +:+ "', version '" +:+ version
               +:+ "': azure keyvault key management provider error, block is nil and remaining block to parse > 0"))
        (trace ++ map Warnf (block_warnings certName version (block :: blocks)))
    else
      Ret (results ++ certs,
           certsStatus
           ++ map (fun _ => getStatusProperty certName version lastRefreshed enabled)
                certs)
        (trace ++ map Warnf (block_warnings certName version (block :: blocks))).
Proof.
  intros Hblocks. revert fuel block certs results certsStatus trace.
  induction Hblocks as [rest tail Hd | rest block' rest' blocks tail Hd Hblocks IH];
    intros fuel block certs results certsStatus trace Hfuel Hcons Hcerts.
  - destruct fuel as [|fuel]; [lia |]. cbn [decodeBlocks].
    rewrite certificates_of_blocks_cons in Hcerts.
    destruct (certificates_of_blocks [block]) as [decoded |] eqn:Hb; [| done].
    simpl in Hcerts. injection Hcerts as <-. rewrite app_nil_r.
    unfold bind at 1.
    destruct (handleBlock_returns_or_fails certName version lastRefreshed enabled
                block results certsStatus trace)
      as [([r s] & tr & Hh) | (e & tr & Hh)]; rewrite Hh.
    + apply handleBlock_entries in Hh as (decoded' & -> & -> & Hb' & ->).
      rewrite Hb in Hb'. injection Hb' as <-.
      rewrite Hd. cbn [fst snd]. by case_bool_decide.
    + apply handleBlock_fails in Hh as (err & Hb' & _). by rewrite Hb in Hb'.
  - destruct fuel as [|fuel]; [lia |]. cbn [decodeBlocks].
    rewrite certificates_of_blocks_cons in Hcerts.
    destruct (certificates_of_blocks [block]) as [decoded |] eqn:Hb; [| done].
    destruct (certificates_of_blocks (block' :: blocks)) as [certs' |] eqn:Hbs;
      [| done].
    injection Hcerts as <-.
    unfold bind at 1.
    destruct (handleBlock_returns_or_fails certName version lastRefreshed enabled
                block results certsStatus trace)
      as [([r s] & tr & Hh) | (e & tr & Hh)]; rewrite Hh.
    + apply handleBlock_entries in Hh as (decoded' & -> & -> & Hb' & ->).
      rewrite Hb in Hb'. injection Hb' as <-.
      rewrite Hd. cbn [fst snd].
      pose proof (Hcons _ _ _ Hd) as Hlt.
      rewrite (IH fuel block' certs') by (done || lia).
      rewrite (block_warnings_cons _ _ block (block' :: blocks)).
      rewrite map_app, !app_assoc. 
      case_bool_decide; f_equal; rewrite ?map_app, ?app_assoc; done.
    + apply handleBlock_fails in Hh as (err & Hb' & _). by rewrite Hb in Hb'.
Qed.

(** The loop over a stream with a certificate block that does not decode. *)
Lemma decodeBlocks_undecodable fuel certName version lastRefreshed enabled block
    rest blocks tail err results certsStatus trace :
  pem_blocks rest blocks tail ->
  (String.length rest < fuel)%nat ->
  pem_Decode_consumes ->
  certificates_of_blocks (block :: blocks) = inr err ->
  exists warnings,
    decodeBlocks fuel certName version lastRefreshed enabled block rest
      results certsStatus trace
    = Fail (certInvalid (Some err)
              ("azure keyvault key management provider: failed to decode Certificate "
               +:+ certName +:+ ", version " +:+ version))
        (trace ++ map Warnf warnings).
Proof.
  intros Hblocks. revert fuel block results certsStatus trace.
  induction Hblocks as [rest tail Hd | rest block' rest' blocks tail Hd Hblocks IH];
    intros fuel block results certsStatus trace Hfuel Hcons Hcerts;
    (destruct fuel as [|fuel]; [lia |]); cbn [decodeBlocks];
    rewrite certificates_of_blocks_cons in Hcerts; unfold bind at 1;
    destruct (handleBlock_returns_or_fails certName version lastRefreshed enabled
                block results certsStatus trace)
      as [([r s] & tr & Hh) | (e & tr & Hh)]; rewrite Hh.
  - apply handleBlock_entries in Hh as (decoded & _ & _ & Hb & _).
    rewrite Hb in Hcerts. done.
  - apply handleBlock_fails in Hh as (err' & Hb & -> & ->).
    rewrite Hb in Hcerts. injection Hcerts as <-.
    exists []. by rewrite app_nil_r.
  - apply handleBlock_entries in Hh as (decoded & -> & -> & Hb & ->).
    rewrite Hb in Hcerts.
    destruct (certificates_of_blocks (block' :: blocks)) as [|err'] eqn:Hbs;
      [done |]. injection Hcerts as ->.
    rewrite Hd. cbn [fst snd].
    pose proof (Hcons _ _ _ Hd) as Hlt.
    destruct (IH fuel block' (results ++ decoded)
                (certsStatus
                 ++ map (fun _ => getStatusProperty certName version lastRefreshed
                                    enabled) decoded)
                (trace ++ map Warnf (block_warnings certName version [block]))
                ltac:(lia) Hcons Hbs) as (warnings & ->).
    exists (block_warnings certName version [block] ++ warnings).
    by rewrite map_app, app_assoc.
  - apply handleBlock_fails in Hh as (err' & Hb & -> & ->).
    rewrite Hb in Hcerts. injection Hcerts as <-.
    exists []. by rewrite app_nil_r.
Qed.

(** Whatever the stream, the loop keeps one status entry per certificate
    and logs nothing but warnings. *)
Lemma decodeBlocks_entries fuel certName version lastRefreshed enabled block rest
    results certsStatus trace certs statuses trace' :
  decodeBlocks fuel certName version lastRefreshed enabled block rest
    results certsStatus trace = Ret (certs, statuses) trace' ->
  exists more warnings,
    certs = results ++ more
    /\ statuses
       = certsStatus
         ++ map (fun _ => getStatusProperty certName version lastRefreshed enabled)
              more
    /\ trace' = trace ++ map Warnf warnings.
Proof.
  revert block rest results certsStatus trace.
  induction fuel as [|fuel IH]; intros block rest results certsStatus trace;
    [discriminate |].
  cbn [decodeBlocks]. unfold bind at 1.
  destruct (handleBlock_returns_or_fails certName version lastRefreshed enabled
              block results certsStatus trace)
    as [([r s] & tr & Hh) | (e & tr & Hh)]; rewrite Hh; [| discriminate].
  apply handleBlock_entries in Hh as (decoded & -> & -> & _ & ->).
  destruct (pem_Decode rest) as [[block'|] rest']; cbn [fst snd].
  - intros Hrun. apply IH in Hrun as (more & warnings & -> & -> & ->).
    exists (decoded ++ more), (block_warnings certName version [block] ++ warnings).
    by rewrite !map_app, !app_assoc.
  - case_bool_decide; [discriminate |]. intros [= <- <- <-].
    by eexists _, _.
Qed.

End Walk.

Lemma getCertsFromSecretBundle_entries {ext : Externals}
    (secretBundle : SecretBundle.t) (certName : string) (enabled : bool)
    (trace : list Event) (certs : list Certificate)
    (statuses : list StatusProperty) (trace' : list Event) :
  getCertsFromSecretBundle secretBundle certName enabled trace
  = Ret (certs, statuses) trace' ->
  exists id warnings,
    SecretBundle.ID secretBundle = Some id
    /\ statuses
       = map (fun _ => getStatusProperty certName (getObjectVersion id)
                         (Format_RFC3339 time_Now) enabled) certs
    /\ trace' = trace ++ map Warnf warnings.
Proof.
  unfold getCertsFromSecretBundle. intros Hrun.
  apply bind_Ret_inv in Hrun as (id & tr1 & Hid & Hrun).
  destruct (SecretBundle.ID secretBundle) as [id'|]; [| discriminate].
  injection Hid as -> <-. cbv zeta in Hrun.
  apply bind_Ret_inv in Hrun as (contentType & tr2 & Hct & Hrun).
  destruct (SecretBundle.ContentType secretBundle) as [contentType'|];
    [| discriminate].
  injection Hct as -> <-.
  destruct (_ && _); [discriminate |].
  apply bind_Ret_inv in Hrun as (value & tr3 & Hv & Hrun).
  destruct (SecretBundle.Value secretBundle) as [value'|]; [| discriminate].
  injection Hv as -> <-.
  apply bind_Ret_inv in Hrun as (data & tr4 & Hdata & Hrun).
  assert (tr4 = trace) as ->.
  { destruct (bool_decide (contentType = PKCS12ContentType));
      [| by injection Hdata as _ <-].
    destruct (base64_DecodeString value); [| discriminate].
    destruct (pkcs12_ToPEM _ _); [| discriminate]. by injection Hdata as _ <-. }
  clear Hdata.
  destruct (pem_Decode data) as [[block|] rest]; cbn [fst snd] in Hrun.
  - apply decodeBlocks_entries in Hrun as (more & warnings & -> & -> & ->).
    by exists id, warnings.
  - injection Hrun as <- <- <-. exists id, []. by rewrite app_nil_r.
Qed.

(** X8.  When [getCertsFromSecretBundle] returns, it returns one status
    entry per certificate, each with the name it was given, the version
    read off the identifier of the bundle, the time of the call and the
    enabled flag it was given; and it has logged nothing but warnings. *)
Theorem getCertsFromSecretBundle_one_entry_per_certificate {ext : Externals}
    (secretBundle : SecretBundle.t) (certName : string) (enabled : bool)
    (trace : list Event) (certs : list Certificate)
    (statuses : list StatusProperty) (trace' : list Event) :
  getCertsFromSecretBundle secretBundle certName enabled trace
  = Ret (certs, statuses) trace' ->
  exists id warnings,
    SecretBundle.ID secretBundle = Some id
    /\ statuses
       = map (fun _ => getStatusProperty certName (getObjectVersion id)
                         (Format_RFC3339 time_Now) enabled) certs
    /\ trace' = trace ++ map Warnf warnings.
Proof. apply getCertsFromSecretBundle_entries. Qed.

Lemma getCertsFromSecretBundle_one_entry_per_certificate_witness :
  exists id warnings,
    SecretBundle.ID bundle_pem_chain = Some id
    /\ [entry_cert1; entry_cert1]
       = map (fun _ => getStatusProperty "cert1" (getObjectVersion id)
                         (Format_RFC3339 time_Now) true) chain_cert1
    /\ [Warnf (WarnPrivateKeySkipped "cert1" "v1")] = [] ++ map Warnf warnings.
Proof.
  apply (getCertsFromSecretBundle_one_entry_per_certificate
           (ext := example_externals) bundle_pem_chain "cert1" true []
           chain_cert1 [entry_cert1; entry_cert1]
           [Warnf (WarnPrivateKeySkipped "cert1" "v1")]).
  by_evaluation.
Defined.

(** X9.  The certificates [getCertsFromSecretBundle] returns are those of
    the certificate blocks of the stream, in the order of the stream, for
    every number and every mix of blocks: when [pem.Decode] finds the
    blocks [blocks] and leaves nothing after the last, and every
    certificate block decodes, the call returns their certificates with
    one status entry each, and has logged one warning for each block that
    is not a certificate block. *)
Theorem getCertsFromSecretBundle_certificates_of_the_stream {ext : Externals}
    (secretBundle : SecretBundle.t) (certName : string) (enabled : bool)
    (id data : string) (blocks : list Block.t) (certs : list Certificate)
    (trace : list Event) :
  pem_Decode_consumes ->
  SecretBundle.ID secretBundle = Some id ->
  pem_stream_of secretBundle data ->
  pem_blocks data blocks EmptyString ->
  certificates_of_blocks blocks = inl certs ->
  getCertsFromSecretBundle secretBundle certName enabled trace
  = Ret (certs,
         map (fun _ => getStatusProperty certName (getObjectVersion id)
                         (Format_RFC3339 time_Now) enabled) certs)
      (trace ++ map Warnf (block_warnings certName (getObjectVersion id) blocks)).
Proof.
  intros Hcons Hid Hstream Hblocks Hcerts.
  rewrite (getCertsFromSecretBundle_stream _ _ _ _ _ _ Hid Hstream).
  inversion Hblocks as [d r Hd | d block rest blocks' tail Hd Hrest]; subst;
    rewrite Hd; cbn [fst snd].
  - injection Hcerts as <-. by rewrite app_nil_r.
  - rewrite decodeBlocks_walk with (blocks := blocks') (tail := EmptyString)
      (certs := certs); [| done | lia | done | done].
    by rewrite bool_decide_eq_false_2 by (unfold strlen; simpl; lia).
Qed.

Lemma getCertsFromSecretBundle_certificates_of_the_stream_witness :
  getCertsFromSecretBundle bundle_public_key_first "cert1" true []
  = Ret (["MIIC8TCCAdmgAw"%string], [entry_cert1])
      [Warnf (WarnUnknownBlockType "cert1" "v1" "PUBLIC KEY")].
Proof.
  apply (getCertsFromSecretBundle_certificates_of_the_stream
           (ext := example_externals) bundle_public_key_first "cert1" true
           secret_id_v1 (pem_public_key +:+ pem_certificate_leaf)
           [Block.mk "PUBLIC KEY" [] "MIIBIjANBgkqhk";
            Block.mk "CERTIFICATE" [] "MIIC8TCCAdmgAw"]
           ["MIIC8TCCAdmgAw"%string] []).
  - exact example_pem_Decode_consumes.
  - reflexivity.
  - apply pem_stream_pem; reflexivity.
  - apply (pem_blocks_next _ _ pem_certificate_leaf); [by_evaluation |].
    apply (pem_blocks_next _ _ EmptyString); [by_evaluation |].
    apply pem_blocks_end. by_evaluation.
  - by_evaluation.
Defined.

(** X10.  A bundle in whose stream [pem.Decode] finds no block at all, such
    as text that is no PEM document, is not an error: the call returns no
    certificate and no status entry, and logs nothing, whatever the text
    is. *)
Theorem getCertsFromSecretBundle_no_block {ext : Externals}
    (secretBundle : SecretBundle.t) (certName : string) (enabled : bool)
    (id data rest : string) (trace : list Event) :
  SecretBundle.ID secretBundle = Some id ->
  pem_stream_of secretBundle data ->
  pem_Decode data = (None, rest) ->
  getCertsFromSecretBundle secretBundle certName enabled trace
  = Ret ([], []) trace.
Proof.
  intros Hid Hstream Hd.
  rewrite (getCertsFromSecretBundle_stream _ _ _ _ _ _ Hid Hstream).
  by rewrite Hd.
Qed.

Lemma getCertsFromSecretBundle_no_block_witness :
  getCertsFromSecretBundle bundle_no_block "cert1" true [] = Ret ([], []) [].
Proof.
  apply (getCertsFromSecretBundle_no_block (ext := example_externals)
           bundle_no_block "cert1" true secret_id_v1 "not a certificate"
           "not a certificate" []).
  - reflexivity.
  - apply pem_stream_pem; reflexivity.
  - by_evaluation.
Defined.

(** X11.  Text after the last block is an error, unlike text without any
    block: when [pem.Decode] has found at least one block and then finds
    none in a rest that is not empty, the call returns the error "block is
    nil and remaining block to parse > 0" and none of the certificates it
    has decoded. *)
Theorem getCertsFromSecretBundle_text_after_blocks {ext : Externals}
    (secretBundle : SecretBundle.t) (certName : string) (enabled : bool)
    (id data tail : string) (block : Block.t) (blocks : list Block.t)
    (certs : list Certificate) (trace : list Event) :
  pem_Decode_consumes ->
  SecretBundle.ID secretBundle = Some id ->
  pem_stream_of secretBundle data ->
  pem_blocks data (block :: blocks) tail ->
  tail <> EmptyString ->
  certificates_of_blocks (block :: blocks) = inl certs ->
  getCertsFromSecretBundle secretBundle certName enabled trace
  = Fail (certInvalid None
            ("certificate '" +:+ certName +:+ "', version '" +:+ getObjectVersion id
             +:+ "': azure keyvault key management provider error, block is nil and remaining block to parse > 0"))
      (trace
       ++ map Warnf (block_warnings certName (getObjectVersion id) (block :: blocks))).
Proof.
  intros Hcons Hid Hstream Hblocks Htail Hcerts.
  rewrite (getCertsFromSecretBundle_stream _ _ _ _ _ _ Hid Hstream).
  inversion Hblocks as [| d block' rest blocks' tail' Hd Hrest]; subst.
  rewrite Hd. cbn [fst snd].
  rewrite decodeBlocks_walk with (blocks := blocks) (tail := tail)
    (certs := certs); [| done | lia | done | done].
  rewrite bool_decide_eq_true_2; [done |].
  destruct tail; [done |]. unfold strlen. simpl. lia.
Qed.

Lemma getCertsFromSecretBundle_text_after_blocks_witness :
  getCertsFromSecretBundle bundle_trailing_text "cert1" true []
  = Fail (certInvalid None
            "certificate 'cert1', version 'v1': azure keyvault key management provider error, block is nil and remaining block to parse > 0")
      [].
Proof.
  apply (getCertsFromSecretBundle_text_after_blocks (ext := example_externals)
           bundle_trailing_text "cert1" true secret_id_v1
           (pem_certificate_leaf +:+ "trailing text") "trailing text"
           (Block.mk "CERTIFICATE" [] "MIIC8TCCAdmgAw") []
           ["MIIC8TCCAdmgAw"%string] []).
  - exact example_pem_Decode_consumes.
  - reflexivity.
  - apply pem_stream_pem; reflexivity.
  - apply (pem_blocks_next _ _ "trailing text"); [by_evaluation |].
    apply pem_blocks_end. by_evaluation.
  - discriminate.
  - by_evaluation.
Defined.

(** X12.  One certificate block that does not decode fails the whole
    bundle: the call returns the decoder's error under "failed to decode
    Certificate", and none of the certificates of the blocks before it,
    whatever follows the block. *)
Theorem getCertsFromSecretBundle_undecodable_block {ext : Externals}
    (secretBundle : SecretBundle.t) (certName : string) (enabled : bool)
    (id data tail : string) (blocks : list Block.t) (err : error)
    (trace : list Event) :
  pem_Decode_consumes ->
  SecretBundle.ID secretBundle = Some id ->
  pem_stream_of secretBundle data ->
  pem_blocks data blocks tail ->
  certificates_of_blocks blocks = inr err ->
  exists warnings,
    getCertsFromSecretBundle secretBundle certName enabled trace
    = Fail (certInvalid (Some err)
              ("azure keyvault key management provider: failed to decode Certificate "
               +:+ certName +:+ ", version " +:+ getObjectVersion id))
        (trace ++ map Warnf warnings).
Proof.
  intros Hcons Hid Hstream Hblocks Hcerts.
  rewrite (getCertsFromSecretBundle_stream _ _ _ _ _ _ Hid Hstream).
  inversion Hblocks as [d r Hd | d block rest blocks' tail' Hd Hrest]; subst;
    [discriminate |].
  rewrite Hd. cbn [fst snd].
  apply decodeBlocks_undecodable with (blocks := blocks') (tail := tail);
    [done | lia | done | done].
Qed.

Lemma getCertsFromSecretBundle_undecodable_block_witness :
  exists warnings,
    getCertsFromSecretBundle (H := strict_externals) bundle_undecodable "cert1" true []
    = Fail (certInvalid (Some (ErrorString "x509: malformed certificate"))
              ("azure keyvault key management provider: failed to decode Certificate "
               +:+ "cert1" +:+ ", version " +:+ getObjectVersion secret_id_v1))
        ([] ++ map Warnf warnings).
Proof.
  apply (getCertsFromSecretBundle_undecodable_block (ext := strict_externals)
           bundle_undecodable "cert1" true secret_id_v1
           (pem_certificate_leaf +:+ pem_certificate_empty) EmptyString
           [Block.mk "CERTIFICATE" [] "MIIC8TCCAdmgAw";
            Block.mk "CERTIFICATE" [] ""]
           (ErrorString "x509: malformed certificate") []).
  - exact example_pem_Decode_consumes.
  - reflexivity.
  - apply (pem_stream_pem (H := strict_externals)); reflexivity.
  - apply (pem_blocks_next (H := strict_externals) _ _ pem_certificate_empty);
      [by_evaluation |].
    apply (pem_blocks_next (H := strict_externals) _ _ EmptyString);
      [by_evaluation |].
    apply (pem_blocks_end (H := strict_externals)). by_evaluation.
  - by_evaluation.
Defined.

(** X13.  A PKCS12 bundle is read as the PEM bundle of its content: when
    the value decodes from base64 and converts to PEM blocks, the call
    returns what it returns for the bundle of the same identifier whose
    content type is PEM and whose value is the encodings of those blocks,
    one after the other. *)
Theorem getCertsFromSecretBundle_pkcs12_as_pem {ext : Externals}
    (attributes : option SecretAttributes.t) (id value p12 : string)
    (blocks : list Block.t) (certName : string) (enabled : bool)
    (trace : list Event) :
  base64_DecodeString value = inl p12 ->
  pkcs12_ToPEM p12 EmptyString = inl blocks ->
  getCertsFromSecretBundle
    (SecretBundle.mk attributes (Some PKCS12ContentType) (Some id) (Some value))
    certName enabled trace
  = getCertsFromSecretBundle
      (SecretBundle.mk attributes (Some PEMContentType) (Some id)
         (Some (fold_left (fun pemData b => (pemData +:+ pem_EncodeToMemory b)%string)
                  blocks EmptyString)))
      certName enabled trace.
Proof.
  intros Hb64 Hp12.
  set (data := fold_left (fun pemData b => (pemData +:+ pem_EncodeToMemory b)%string)
                 blocks EmptyString).
  set (b12 := SecretBundle.mk attributes (Some PKCS12ContentType) (Some id)
                (Some value)).
  set (bpem := SecretBundle.mk attributes (Some PEMContentType) (Some id)
                 (Some data)).
  rewrite (getCertsFromSecretBundle_stream b12 certName enabled id data trace eq_refl);
    [| by apply (pem_stream_pkcs12 b12 value p12 blocks)].
  rewrite (getCertsFromSecretBundle_stream bpem certName enabled id data trace eq_refl);
    [| by apply pem_stream_pem].
  done.
Qed.

Lemma getCertsFromSecretBundle_pkcs12_as_pem_witness :
  getCertsFromSecretBundle (H := strict_externals) bundle_pkcs12 "cert1" true []
  = getCertsFromSecretBundle (H := strict_externals)
      (pem_bundle (EmptyString +:+ pem_certificate_leaf)) "cert1" true [].
Proof.
  apply (getCertsFromSecretBundle_pkcs12_as_pem (ext := strict_externals)
           (Some (SecretAttributes.mk (Some true))) secret_id_v1
           "MIIC8TCCAdmgAw" "MIIC8TCCAdmgAw"
           [Block.mk "CERTIFICATE" [] "MIIC8TCCAdmgAw"] "cert1" true []).
  - reflexivity.
  - reflexivity.
Defined.

(** ** The listing of versions *)

Lemma with_events_nil {V} (st : FetchState V) : with_events st [] = st.
Proof. destruct st. unfold with_events. simpl. by rewrite app_nil_r. Qed.

Lemma with_events_app {V} (st : FetchState V) events events' :
  with_events (with_events st events) events' = with_events st (events ++ events').
Proof. unfold with_events. simpl. by rewrite app_assoc. Qed.

Section ListingRuns.

Context {ext : Externals}.

Lemma isValidCertificateItem_entry cert :
  isValidCertificateItem cert = bool_decide (is_Some (certificate_entry cert)).
Proof.
  unfold isValidCertificateItem, certificate_entry.
  destruct (CertificateItem.ID cert), (CertificateItem.Attributes cert) as [a|];
    simpl; try done.
  by destruct (CertificateAttributes.Created a), (CertificateAttributes.Enabled a).
Qed.

Lemma isValidKeyItem_entry key :
  isValidKeyItem key = bool_decide (is_Some (key_entry key)).
Proof.
  unfold isValidKeyItem, key_entry.
  destruct (KeyItem.KID key), (KeyItem.Attributes key) as [a|]; simpl; try done.
  by destruct (KeyAttributes.Created a), (KeyAttributes.Enabled a).
Qed.

Lemma certificateItems_run certName items versionHistory st :
  certificateItems certName items versionHistory st
  = Ret (versionHistory ++ omap certificate_entry items)
      (with_events st (map Warnf (certificate_item_warnings certName items))).
Proof.
  revert versionHistory st.
  induction items as [|cert items IH]; intros vh st.
  - simpl. by rewrite app_nil_r, with_events_nil.
  - cbn [certificateItems omap list_omap certificate_item_warnings flat_map].
    rewrite isValidCertificateItem_entry.
    fold (certificate_item_warnings certName items).
    destruct (certificate_entry cert) as [entry|] eqn:Hentry.
    + rewrite bool_decide_eq_true_2 by done. cbn [negb].
      unfold certificate_entry in Hentry.
      destruct (CertificateItem.ID cert) as [id|] eqn:Hid; [| done].
      destruct (CertificateItem.Attributes cert) as [a|]; [| done].
      destruct (CertificateAttributes.Created a) as [created|] eqn:Hc; [| done].
      destruct (CertificateAttributes.Enabled a) as [enabled|] eqn:He; [| done].
      injection Hentry as <-.
      rewrite bind_deref_Some, Hc, bind_deref_Some, He, bind_deref_Some.
      rewrite IH. by rewrite <- app_assoc.
    + rewrite bool_decide_eq_false_2 by (by intros [? ?]). cbn [negb].
      unfold bind at 1, emit at 1. rewrite IH.
      unfold with_events. cbn [fsMap fsStatus fsTrace map app].
      by rewrite <- app_assoc.
Qed.

Lemma keyItems_run keyName items versionHistory st :
  keyItems keyName items versionHistory st
  = Ret (versionHistory ++ omap key_entry items)
      (with_events st (map Warnf (key_item_warnings keyName items))).
Proof.
  revert versionHistory st.
  induction items as [|key items IH]; intros vh st.
  - simpl. by rewrite app_nil_r, with_events_nil.
  - cbn [keyItems omap list_omap key_item_warnings flat_map].
    rewrite isValidKeyItem_entry.
    fold (key_item_warnings keyName items).
    destruct (key_entry key) as [entry|] eqn:Hentry.
    + rewrite bool_decide_eq_true_2 by done. cbn [negb].
      unfold key_entry in Hentry.
      destruct (KeyItem.KID key) as [id|] eqn:Hid; [| done].
      destruct (KeyItem.Attributes key) as [a|]; [| done].
      destruct (KeyAttributes.Created a) as [created|] eqn:Hc; [| done].
      destruct (KeyAttributes.Enabled a) as [enabled|] eqn:He; [| done].
      injection Hentry as <-.
      rewrite bind_deref_Some, Hc, bind_deref_Some, He, bind_deref_Some.
      rewrite IH. by rewrite <- app_assoc.
    + rewrite bool_decide_eq_false_2 by (by intros [? ?]). cbn [negb].
      unfold bind at 1, emit at 1. rewrite IH.
      unfold with_events. cbn [fsMap fsStatus fsTrace map app].
      by rewrite <- app_assoc.
Qed.

Lemma certificatePages_run certName pages tail versionHistory st :
  certificatePages certName (map inl pages ++ tail) versionHistory st
  = certificatePages certName tail
      (versionHistory ++ omap certificate_entry (concat pages))
      (with_events st
         (map Warnf (certificate_item_warnings certName (concat pages)))).
Proof.
  revert versionHistory st.
  induction pages as [|items pages IH]; intros vh st.
  - simpl. by rewrite app_nil_r, with_events_nil.
  - cbn [map app certificatePages concat]. unfold bind at 1.
    rewrite certificateItems_run, IH, with_events_app.
    unfold certificate_item_warnings.
    by rewrite omap_app, flat_map_app, map_app, app_assoc.
Qed.

Lemma keyPages_run keyName pages tail versionHistory st :
  keyPages keyName (map inl pages ++ tail) versionHistory st
  = keyPages keyName tail
      (versionHistory ++ omap key_entry (concat pages))
      (with_events st (map Warnf (key_item_warnings keyName (concat pages)))).
Proof.
  revert versionHistory st.
  induction pages as [|items pages IH]; intros vh st.
  - simpl. by rewrite app_nil_r, with_events_nil.
  - cbn [map app keyPages concat]. unfold bind at 1.
    rewrite keyItems_run, IH, with_events_app.
    unfold key_item_warnings.
    by rewrite omap_app, flat_map_app, map_app, app_assoc.
Qed.

End ListingRuns.

(** X14.  When every page of the listing arrives, the version history is
    the sort of the entries of the listed versions that carry an
    identifier, attributes, a creation time and an enabled flag, over all
    pages; each listed version that lacks one of them is left out with one
    warning, in the order of the listing; the map and the status entries
    are not touched.  This holds for certificates and for keys. *)
Theorem fetchVersionHistory_lists_the_valid_versions {ext : Externals}
    (s : akvKMProvider) (name : string) :
  (forall pages (st : FetchState (list Certificate)),
     NewListCertificateVersionsPager (certificateKVClient_ s) name = map inl pages ->
     fetchCertificateVersionHistory s name st
     = Ret (Sort (omap certificate_entry (concat pages)))
         (with_events st
            (map Warnf (certificate_item_warnings name (concat pages)))))
  /\ (forall pages (st : FetchState PublicKey),
        NewListKeyVersionsPager (keyKVClient_ s) name = map inl pages ->
        fetchKeyVersionHistory s name st
        = Ret (Sort (omap key_entry (concat pages)))
            (with_events st (map Warnf (key_item_warnings name (concat pages))))).
Proof.
  split; intros pages st Hpager.
  - unfold fetchCertificateVersionHistory. rewrite Hpager.
    rewrite <- (app_nil_r (map inl pages)). unfold bind.
    by rewrite certificatePages_run.
  - unfold fetchKeyVersionHistory. rewrite Hpager.
    rewrite <- (app_nil_r (map inl pages)). unfold bind.
    by rewrite keyPages_run.
Qed.

Lemma fetchVersionHistory_lists_the_valid_versions_witness :
  fetchCertificateVersionHistory
    (flaky_provider [] []) "cert2" (initial_state [])
  = Ret (Sort [ KeyVaultValueVersion.mk "c" 30 true;
                KeyVaultValueVersion.mk "a" 10 true ])
      (with_events (initial_state [])
         [Warnf (WarnInvalidCertificateItem "cert2" "u")])
  /\ fetchKeyVersionHistory (flaky_provider [] []) "key2" (initial_state [])
     = Ret (Sort [ KeyVaultValueVersion.mk "c" 30 true;
                   KeyVaultValueVersion.mk "a" 10 true ])
         (with_events (initial_state []) [Warnf (WarnInvalidKeyItem "key2" "u")]).
Proof.
  destruct (fetchVersionHistory_lists_the_valid_versions
              (ext := example_externals) (flaky_provider [] []) "cert2")
    as [Hcerts _].
  destruct (fetchVersionHistory_lists_the_valid_versions
              (ext := example_externals) (flaky_provider [] []) "key2")
    as [_ Hkeys].
  split.
  - apply (Hcerts [ [ certificate_item "c" 30 true; certificate_item_undated ];
                    [ certificate_item "a" 10 true ] ]).
    reflexivity.
  - apply (Hkeys [ [ key_item "c" 30 true; key_item_undated ];
                   [ key_item "a" 10 true ] ]).
    reflexivity.
Defined.

(** X15.  A page of the listing that fails ends the listing: the fetch of
    the history returns the error of the page under "failed to get ...
    versions for objectName", no history, and the warnings of the pages
    before; what the later pages hold plays no part. *)
Theorem fetchVersionHistory_stops_at_the_failing_page {ext : Externals}
    (s : akvKMProvider) (name : string) (err : error) :
  (forall pages later (st : FetchState (list Certificate)),
     NewListCertificateVersionsPager (certificateKVClient_ s) name
     = map inl pages ++ inr err :: later ->
     fetchCertificateVersionHistory s name st
     = Fail (Errorf_w ("failed to get certificate versions for objectName:"
                       +:+ name +:+ ", error: ") err)
         (with_events st
            (map Warnf (certificate_item_warnings name (concat pages)))))
  /\ (forall pages later (st : FetchState PublicKey),
        NewListKeyVersionsPager (keyKVClient_ s) name
        = map inl pages ++ inr err :: later ->
        fetchKeyVersionHistory s name st
        = Fail (Errorf_w ("failed to get key versions for objectName:"
                          +:+ name +:+ ", error: ") err)
            (with_events st (map Warnf (key_item_warnings name (concat pages))))).
Proof.
  split; intros pages later st Hpager.
  - unfold fetchCertificateVersionHistory. rewrite Hpager. unfold bind.
    by rewrite certificatePages_run.
  - unfold fetchKeyVersionHistory. rewrite Hpager. unfold bind.
    by rewrite keyPages_run.
Qed.

Lemma fetchVersionHistory_stops_at_the_failing_page_witness :
  fetchCertificateVersionHistory
    (flaky_provider [] []) "cert1" (initial_state [])
  = Fail (Errorf_w ("failed to get certificate versions for objectName:"
                    +:+ "cert1" +:+ ", error: ")
            (ErrorString "context deadline exceeded"))
      (with_events (initial_state [])
         [Warnf (WarnInvalidCertificateItem "cert1" "u")])
  /\ fetchKeyVersionHistory (flaky_provider [] []) "key1" (initial_state [])
     = Fail (Errorf_w ("failed to get key versions for objectName:"
                       +:+ "key1" +:+ ", error: ")
               (ErrorString "context deadline exceeded"))
         (with_events (initial_state []) [Warnf (WarnInvalidKeyItem "key1" "u")]).
Proof.
  destruct (fetchVersionHistory_stops_at_the_failing_page
              (ext := example_externals) (flaky_provider [] []) "cert1"
              (ErrorString "context deadline exceeded"))
    as [Hcerts _].
  destruct (fetchVersionHistory_stops_at_the_failing_page
              (ext := example_externals) (flaky_provider [] []) "key1"
              (ErrorString "context deadline exceeded"))
    as [_ Hkeys].
  split.
  - apply (Hcerts [ [ certificate_item "c" 30 true; certificate_item_undated ] ]
             [ inl [ certificate_item "b" 20 false ] ]).
    reflexivity.
  - apply (Hkeys [ [ key_item "c" 30 true; key_item_undated ] ]
             [ inl [ key_item "b" 20 false ] ]).
    reflexivity.
Defined.

(** ** Bundles without material *)

(** X16.  A key bundle that passes [isValidKeyBundle] but comes without a
    key, or with a key without identifier, makes the single-version path
    panic on a nil pointer, whether the key is enabled or not: the version
    is read off the key identifier before anything else.  The
    version-history path does not read the identifier: there a bundle
    without key is the error "key must not be nil" of
    [getKeyFromKeyBundle]. *)
Theorem processKey_bundle_without_key {ext : Externals}
    (s : akvKMProvider) (keyBundle : KeyBundle.t) :
  isValidKeyBundle keyBundle = true ->
  (forall webKey, KeyBundle.Key keyBundle = Some webKey ->
                  JSONWebKey.KID webKey = None) ->
  (forall keyVaultKey st,
     KeyVaultValue.VersionHistoryLimit keyVaultKey = 0 ->
     GetKey (keyKVClient_ s) (KeyVaultValue.Name keyVaultKey)
       (KeyVaultValue.Version keyVaultKey) = inl keyBundle ->
     processKey s keyVaultKey st = Crash NilPointerDereference)
  /\ (forall keyVaultKey startTime keyVersion later st,
        KeyBundle.Key keyBundle = None ->
        KeyVaultValueVersion.Enabled keyVersion = true ->
        GetKey (keyKVClient_ s) (KeyVaultValue.Name keyVaultKey)
          (KeyVaultValueVersion.Version keyVersion) = inl keyBundle ->
        keyVersions s keyVaultKey startTime (keyVersion :: later) st
        = Fail (Errorf_w "failed to get key from key bundle:"
                  (keyInvalid None "found invalid key bundle, key must not be nil"))
            st).
Proof.
  intros Hvalid Hkid. split.
  - intros keyVaultKey st Hzero Hget. unfold processKey.
    rewrite bool_decide_eq_true_2 by done. unfold processKeyVersion.
    rewrite Hget, Hvalid. cbn [negb].
    unfold isValidKeyBundle in Hvalid.
    destruct (KeyBundle.Attributes keyBundle) as [attributes|]; [| done].
    rewrite bind_deref_Some.
    destruct (KeyAttributes.Enabled attributes) as [isEnabled|]; [| done].
    rewrite bind_deref_Some.
    destruct (KeyBundle.Key keyBundle) as [webKey|]; [| done].
    rewrite bind_deref_Some. by rewrite (Hkid webKey eq_refl).
  - intros keyVaultKey startTime keyVersion later st Hnil Hen Hget.
    cbn [keyVersions]. rewrite Hen, Hget, Hvalid. cbn [negb].
    unfold getKeyFromKeyBundle. by rewrite Hnil.
Qed.

Lemma processKey_bundle_without_key_witness :
  processKey (flaky_provider [] [object_key_bare]) object_key_bare (initial_state [])
  = Crash NilPointerDereference
  /\ keyVersions (flaky_provider [] [object_key_bare_history])
       object_key_bare_history 1700000000
       [KeyVaultValueVersion.mk "a" 10 true] (initial_state [])
     = Fail (Errorf_w "failed to get key from key bundle:"
               (keyInvalid None "found invalid key bundle, key must not be nil"))
         (initial_state []).
Proof.
  destruct (processKey_bundle_without_key (ext := example_externals)
              (flaky_provider [] [object_key_bare]) key_bundle_without_key
              eq_refl ltac:(discriminate))
    as [Hsingle _].
  destruct (processKey_bundle_without_key (ext := example_externals)
              (flaky_provider [] [object_key_bare_history]) key_bundle_without_key
              eq_refl ltac:(discriminate))
    as [_ Hhistory].
  split.
  - apply Hsingle; reflexivity.
  - apply Hhistory; reflexivity.
Defined.

(** X17.  A bundle without any PEM block still yields a map entry: in the
    single-version path a valid bundle in whose stream [pem.Decode] finds
    no block is stored under its map key with an empty certificate chain;
    no status entry is added for it, and the duration metric is reported.
    The object is then present in the map and absent from the status
    document. *)
Theorem processCertificateVersion_stores_an_empty_chain {ext : Externals}
    (s : akvKMProvider) (keyVaultCert : KeyVaultValue.t) (startTime : Time)
    (secretBundle : SecretBundle.t) (attributes : SecretAttributes.t)
    (isEnabled : bool) (id data rest : string)
    (st : FetchState (list Certificate)) :
  GetSecret (secretKVClient_ s) (KeyVaultValue.Name keyVaultCert)
    (KeyVaultValue.Version keyVaultCert) = inl secretBundle ->
  SecretBundle.Attributes secretBundle = Some attributes ->
  SecretAttributes.Enabled attributes = Some isEnabled ->
  SecretBundle.ID secretBundle = Some id ->
  pem_stream_of secretBundle data ->
  pem_Decode data = (None, rest) ->
  processCertificateVersion s keyVaultCert startTime st
  = Ret tt
      (mkFetchState
         (<[KMPMapKey.mk (KeyVaultValue.Name keyVaultCert) (ID_Version (Some id))
              isEnabled := []]> (fsMap st))
         (fsStatus st)
         (fsTrace st
          ++ [ReportAKVCertificateDuration (KeyVaultValue.Name keyVaultCert)])).
Proof.
  intros Hget Hattrs Hen Hid Hstream Hd.
  unfold processCertificateVersion. rewrite Hget.
  assert (Hvalid : isValidSecretBundle secretBundle = true).
  { unfold isValidSecretBundle. rewrite Hattrs, Hen, Hid.
    by destruct Hstream as [d -> -> | v p12 bs -> ->]. }
  rewrite Hvalid. cbn [negb].
  rewrite Hattrs, bind_deref_Some, Hen, bind_deref_Some.
  unfold bind at 1, wrap_error, with_trace.
  rewrite (getCertsFromSecretBundle_stream _ _ _ _ _ _ Hid Hstream), Hd.
  cbn [fst snd]. rewrite Hid.
  unfold bind, emit, append_status, map_store. cbn [fsMap fsStatus fsTrace fst snd].
  by rewrite app_nil_r.
Qed.

Lemma processCertificateVersion_stores_an_empty_chain_witness :
  processCertificateVersion (blank_provider [object_cert1]) object_cert1
    1700000000 (initial_state [])
  = Ret tt
      (mkFetchState (<[KMPMapKey.mk "cert1" (ID_Version (Some secret_id_v1)) true := []]> ∅)
         [] ([] ++ [ReportAKVCertificateDuration "cert1"])).
Proof.
  apply (processCertificateVersion_stores_an_empty_chain
           (ext := example_externals) (blank_provider [object_cert1]) object_cert1
           1700000000 bundle_no_block (SecretAttributes.mk (Some true)) true
           secret_id_v1 "not a certificate" "not a certificate" (initial_state [])).
  - reflexivity.
  - reflexivity.
  - reflexivity.
  - reflexivity.
  - apply pem_stream_pem; reflexivity.
  - by_evaluation.
Defined.

(** ** The refresher registry: registering and looking up *)

(** X18.  A factory registered under a free name is the one
    [CreateRefresherFromConfig] calls for that name, with the
    configuration it was given, and whatever the factory does (value,
    error or panic) is the result; for every configuration of another
    type the lookup goes as before the registration. *)
Theorem Register_then_CreateRefresherFromConfig (Refresher : Type)
    (name : string) (factory : refresh.RefresherFactory Refresher)
    (refresherFactories : gmap string (refresh.RefresherFactory Refresher)) :
  refresherFactories !! name = None ->
  exists refresherFactories',
    refresh.Register Refresher name (Some factory) refresherFactories
    = Returns refresherFactories'
    /\ (forall refresherConfig,
          name <> ""%string ->
          refresherConfig !! "type"%string = Some (refresh.VString name) ->
          refresh.CreateRefresherFromConfig Refresher refresherConfig
            refresherFactories'
          = refresh.Create Refresher factory refresherConfig)
    /\ (forall refresherConfig,
          refresherConfig !! "type"%string <> Some (refresh.VString name) ->
          refresh.CreateRefresherFromConfig Refresher refresherConfig
            refresherFactories'
          = refresh.CreateRefresherFromConfig Refresher refresherConfig
              refresherFactories).
Proof.
  intros Hfree. unfold refresh.Register. rewrite Hfree.
  eexists. split; [done |]. split.
  - intros config Hne Htype. unfold refresh.CreateRefresherFromConfig.
    rewrite Htype. cbn [refresh.type_assert_string negb orb].
    rewrite bool_decide_eq_false_2 by done.
    by rewrite lookup_insert_eq.
  - intros config Htype. unfold refresh.CreateRefresherFromConfig.
    destruct (config !! "type"%string) as [[t | b | d]|] eqn:Hcfg;
      cbn [refresh.type_assert_string negb orb]; try done.
    case_bool_decide; [done |].
    rewrite lookup_insert_ne; [done |]. intros ->. by apply Htype.
Qed.

Lemma Register_then_CreateRefresherFromConfig_witness :
  exists refresherFactories',
    refresh.Register string "mockRefresher" (Some mockRefresherFactory) ∅
    = Returns refresherFactories'
    /\ (forall refresherConfig,
          "mockRefresher"%string <> ""%string ->
          refresherConfig !! "type"%string
          = Some (refresh.VString "mockRefresher") ->
          refresh.CreateRefresherFromConfig string refresherConfig
            refresherFactories'
          = refresh.Create string mockRefresherFactory refresherConfig)
    /\ (forall refresherConfig,
          refresherConfig !! "type"%string
          <> Some (refresh.VString "mockRefresher") ->
          refresh.CreateRefresherFromConfig string refresherConfig
            refresherFactories'
          = refresh.CreateRefresherFromConfig string refresherConfig ∅).
Proof.
  apply (Register_then_CreateRefresherFromConfig string "mockRefresher"
           mockRefresherFactory ∅).
  reflexivity.
Defined.

#[global] Instance same_outcome_equivalence {A : Type} : Equivalence (@same_outcome A).
Proof.
  split.
  - by intros [a | p].
  - intros [a | p] [b | q]; simpl; done.
  - intros [a | p] [b | q] [c | r]; simpl; try done. by intros -> ->.
Qed.

(** X19.  The outcome of a series of registrations does not depend on
    their order: registering the same factories under the same names in
    another order ends with the same registry, or panics as well (a nil
    factory and a name registered twice cause a panic in every order). *)
Theorem Register_order_is_immaterial (Refresher : Type)
    (registrations registrations' :
       list (string * option (refresh.RefresherFactory Refresher)))
    (refresherFactories : gmap string (refresh.RefresherFactory Refresher)) :
  registrations ≡ₚ registrations' ->
  same_outcome (Register_all registrations refresherFactories)
    (Register_all registrations' refresherFactories).
Proof.
  intros Hperm. revert refresherFactories.
  induction Hperm as [| [name factory] l l' _ IH
                      | [name1 factory1] [name2 factory2] l
                      | l l' l'' _ IH1 _ IH2]; intros registry.
  - reflexivity.
  - cbn [Register_all]. destruct (refresh.Register _ _ _ _); [apply IH | done].
  - cbn [Register_all]. unfold refresh.Register.
    destruct factory1 as [f1|], factory2 as [f2|]; simpl.
    + destruct (decide (name1 = name2)) as [<- | Hne].
      * destruct (registry !! name1) eqn:H1; [done |].
        by rewrite !lookup_insert_eq.
      * destruct (registry !! name1) eqn:H1, (registry !! name2) eqn:H2;
          rewrite ?lookup_insert_ne, ?H1, ?H2 by done; try done.
        rewrite insert_insert_ne by done. reflexivity.
    + by destruct (registry !! name1).
    + by destruct (registry !! name2).
    + done.
  - etrans; [apply IH1 | apply IH2].
Qed.

Lemma Register_order_is_immaterial_witness :
  same_outcome
    (Register_all [("a"%string, Some mockRefresherFactory);
                   ("b"%string, Some mockRefresherFactory)] ∅)
    (Register_all [("b"%string, Some mockRefresherFactory);
                   ("a"%string, Some mockRefresherFactory)] ∅).
Proof.
  apply (Register_order_is_immaterial string).
  apply Permutation_swap.
Defined.

(** ** validate *)

Lemma first_unnamed_None objects i :
  first_unnamed objects i = None <-> Forall named objects.
Proof.
  revert i. induction objects as [|object objects IH]; intros i; simpl.
  - split; [constructor | done].
  - case_bool_decide as Hname.
    + split; [done |]. intros Hall. inversion Hall; subst. done.
    + rewrite IH. split; [by constructor |]. intros Hall. by inversion Hall.
Qed.

Lemma first_unnamed_at objects i (n : nat) object :
  objects !! n = Some object ->
  KeyVaultValue.Name object = ""%string ->
  (forall (m : nat) o, (m < n)%nat -> objects !! m = Some o -> named o) ->
  first_unnamed objects i = Some (i + Z.of_nat n).
Proof.
  revert i n. induction objects as [|o objects IH]; intros i n Hl Hname Hfirst;
    [done |].
  simpl. destruct n as [|n].
  - simpl in Hl. injection Hl as ->. rewrite bool_decide_eq_true_2 by done.
    f_equal. lia.
  - rewrite bool_decide_eq_false_2 by (apply (Hfirst 0%nat); [lia | done]).
    rewrite (IH (i + 1) n); [f_equal; lia | done | done |].
    intros m o' Hm Hl'. apply (Hfirst (S m)); [lia | done].
Qed.

(** X20.  [validate] accepts a provider exactly when its vault URI, tenant
    and client identifiers are not empty and every configured certificate
    and key has a name; it accepts in particular a provider without any
    object. *)
Theorem validate_accepts_iff (s : akvKMProviderFields.t) :
  validate s = None
  <-> akvKMProviderFields.vaultURI s <> ""%string
      /\ akvKMProviderFields.tenantID s <> ""%string
      /\ akvKMProviderFields.clientID s <> ""%string
      /\ Forall named (akvKMProviderFields.certificates s)
      /\ Forall named (akvKMProviderFields.keys s).
Proof.
  unfold validate. rewrite <- !first_unnamed_None with (i := 0).
  repeat case_bool_decide; try (split; [done | tauto]).
  destruct (first_unnamed (akvKMProviderFields.certificates s) 0);
    [split; [done | intros (_ & _ & _ & ? & _); done] |].
  destruct (first_unnamed (akvKMProviderFields.keys s) 0);
    [split; [done | intros (_ & _ & _ & _ & ?); done] |].
  done.
Qed.

Example validate_accepts_named_objects : validate fields_valid = None.
Proof. reflexivity. Qed.

(** X21.  When the identifiers are set, [validate] reports the first
    object without a name by its position counted from one: the first
    unnamed certificate whatever the keys are, and the first unnamed key
    when every certificate has a name. *)
Theorem validate_reports_the_first_unnamed_object
    (s : akvKMProviderFields.t) (n : nat) (object : KeyVaultValue.t) :
  akvKMProviderFields.vaultURI s <> ""%string ->
  akvKMProviderFields.tenantID s <> ""%string ->
  akvKMProviderFields.clientID s <> ""%string ->
  KeyVaultValue.Name object = ""%string ->
  Z.of_nat n < GoInt.max_int ->
  (akvKMProviderFields.certificates s !! n = Some object ->
   (forall (m : nat) o, (m < n)%nat ->
      akvKMProviderFields.certificates s !! m = Some o -> named o) ->
   validate s
   = Some (configInvalid None
             ("name is not set for the " +:+ Sprintf_d (Z.of_nat n + 1)
              +:+ " th certificate")))
  /\ (Forall named (akvKMProviderFields.certificates s) ->
      akvKMProviderFields.keys s !! n = Some object ->
      (forall (m : nat) o, (m < n)%nat ->
         akvKMProviderFields.keys s !! m = Some o -> named o) ->
      validate s
      = Some (configInvalid None
                ("name is not set for the " +:+ Sprintf_d (Z.of_nat n + 1)
                 +:+ " th key"))).
Proof.
  intros Huri Htenant Hclient Hname Hn.
  assert (Hadd : GoInt.add (0 + Z.of_nat n) 1 = Z.of_nat n + 1).
  { unfold GoInt.add. rewrite wrap_id; [lia |].
    unfold GoInt.in_range, GoInt.min_int, GoInt.max_int in *. lia. }
  unfold validate. rewrite !bool_decide_eq_false_2 by done. split.
  - intros Hl Hfirst.
    by rewrite (first_unnamed_at _ 0 n object Hl Hname Hfirst), Hadd.
  - intros Hcerts Hl Hfirst.
    apply (first_unnamed_None _ 0) in Hcerts. rewrite Hcerts.
    by rewrite (first_unnamed_at _ 0 n object Hl Hname Hfirst), Hadd.
Qed.

Lemma validate_reports_the_first_unnamed_object_witness :
  validate fields_unnamed_first_certificate
  = Some (configInvalid None "name is not set for the 1 th certificate")
  /\ validate fields_unnamed_second_key
     = Some (configInvalid None "name is not set for the 2 th key").
Proof.
  assert (Hsmall : forall n : nat, (n < 2)%nat -> Z.of_nat n < GoInt.max_int)
    by (intros n Hn; unfold GoInt.max_int; lia).
  split.
  - destruct (validate_reports_the_first_unnamed_object
                fields_unnamed_first_certificate 0 (KeyVaultValue.mk "" "v1" 0))
      as [Hcert _];
      [discriminate | discriminate | discriminate | reflexivity
      | apply Hsmall; lia |].
    apply Hcert; [reflexivity |]. intros m o Hm. lia.
  - destruct (validate_reports_the_first_unnamed_object
                fields_unnamed_second_key 1 (KeyVaultValue.mk "" "v2" 0))
      as [_ Hkey];
      [discriminate | discriminate | discriminate | reflexivity
      | apply Hsmall; lia |].
    apply Hkey.
    + repeat constructor. discriminate.
    + reflexivity.
    + intros [|m] o Hm Hl; [| lia]. injection Hl as <-. discriminate.
Defined.

(** ** The status of the resource *)

Lemma strlen_append (a b : string) : strlen (a +:+ b) = strlen a + strlen b.
Proof.
  unfold strlen. induction a as [|c a IH]; [done |].
  change (String.length (String c a +:+ b)) with (S (String.length (a +:+ b))).
  simpl String.length. lia.
Qed.

Lemma strlen_string_take (n : nat) (s : string) :
  strlen (string_take n s) = Z.min (Z.of_nat n) (strlen s).
Proof.
  unfold strlen. revert s. induction n as [|n IH]; intros [|c s]; simpl; try lia.
  specialize (IH s). lia.
Qed.

(** X22.  Recording a failed fetch never panics, whatever the error text,
    when the bound on the brief error is not negative.  The full text is
    kept as the error; the brief error is the text itself when it is
    within the bound, and otherwise its first bytes up to the bound
    followed by three dots, so never longer than the bound plus three.  The
    success flag is cleared, the time recorded, and the properties of the
    last successful fetch are left in place. *)
Theorem updateKMProviderErrorStatus_brief_error
    (MaxBriefErrLength : Z) (status : ResourceStatus.t) (errorString : string)
    (operationTime : option Time) :
  0 <= MaxBriefErrLength ->
  exists status',
    updateKMProviderErrorStatus MaxBriefErrLength status errorString operationTime
    = Returns status'
    /\ ResourceStatus.IsSuccess status' = false
    /\ ResourceStatus.Error status' = errorString
    /\ ResourceStatus.LastFetchedTime status' = operationTime
    /\ ResourceStatus.Properties status' = ResourceStatus.Properties status
    /\ ResourceStatus.BriefError status'
       = (if bool_decide (strlen errorString <= MaxBriefErrLength) then errorString
          else (string_take (Z.to_nat MaxBriefErrLength) errorString +:+ "...")%string)
    /\ strlen (ResourceStatus.BriefError status') <= MaxBriefErrLength + 3.
Proof.
  intros Hmax. unfold updateKMProviderErrorStatus.
  destruct (Z.gtb_spec (strlen errorString) MaxBriefErrLength) as [Hlong | Hshort].
  - unfold string_slice_to. rewrite bool_decide_eq_true_2 by lia.
    eexists. split; [done |]. cbn.
    rewrite bool_decide_eq_false_2 by lia.
    repeat split; try done.
    rewrite strlen_append, strlen_string_take. unfold strlen at 2. simpl. lia.
  - eexists. split; [done |]. cbn.
    rewrite bool_decide_eq_true_2 by lia.
    repeat split; try done. lia.
Qed.

Lemma updateKMProviderErrorStatus_brief_error_witness :
  exists status',
    updateKMProviderErrorStatus 30 status_after_success error_of_forty_bytes
      (Some 1700000060)
    = Returns status'
    /\ ResourceStatus.IsSuccess status' = false
    /\ ResourceStatus.Error status' = error_of_forty_bytes
    /\ ResourceStatus.LastFetchedTime status' = Some 1700000060
    /\ ResourceStatus.Properties status' = ResourceStatus.Properties status_after_success
    /\ ResourceStatus.BriefError status'
       = (if bool_decide (strlen error_of_forty_bytes <= 30) then error_of_forty_bytes
          else (string_take (Z.to_nat 30) error_of_forty_bytes +:+ "...")%string)
    /\ strlen (ResourceStatus.BriefError status') <= 30 + 3.
Proof.
  apply (updateKMProviderErrorStatus_brief_error 30 status_after_success
           error_of_forty_bytes (Some 1700000060)).
  lia.
Defined.

Example updateKMProviderErrorStatus_example :
  updateKMProviderErrorStatus 30 status_after_success error_of_forty_bytes
    (Some 1700000060)
  = Returns (ResourceStatus.mk false error_of_forty_bytes
               "failed to get secret objectNam..." (Some 1700000060)
               (RawExtension.mk (Some "{}"%string))).
Proof. reflexivity. Qed.

(** X23.  A failed fetch leaves no mark on the status once a later fetch
    succeeds: writing the status of a success after the status of a
    failure gives the status block that the success gives alone, with or
    without a status document.  (The failure keeps the properties, the
    success overwrites everything else.) *)
Theorem writeKMProviderStatus_success_after_failure
    (MaxBriefErrLength : Z)
    (json_Marshal_status : KeyManagementProviderStatus -> fallible string)
    (Update Update' : ResourceStatus.t -> option error)
    (status failed : ResourceStatus.t) (logged : list LogLine)
    (errorString : string) (failedAt succeededAt : Time)
    (stale kmProviderStatus : option KeyManagementProviderStatus) :
  writeKMProviderStatus MaxBriefErrLength json_Marshal_status Update status
    false errorString failedAt stale
  = Returns (failed, logged) ->
  exists written logged',
    writeKMProviderStatus MaxBriefErrLength json_Marshal_status Update' failed
      true EmptyString succeededAt kmProviderStatus
    = Returns (written, logged')
    /\ written
       = updateKMProviderSuccessStatus json_Marshal_status status
           (Some succeededAt) kmProviderStatus
    /\ ResourceStatus.IsSuccess written = true
    /\ ResourceStatus.Error written = EmptyString
    /\ ResourceStatus.BriefError written = EmptyString.
Proof.
  unfold writeKMProviderStatus.
  destruct (updateKMProviderErrorStatus _ _ _ _) as [failed' | p] eqn:Hupd;
    [| discriminate].
  intros Hfailed.
  assert (failed = failed') as <- by (destruct (Update failed'); congruence).
  clear Hfailed.
  assert (Hprops : ResourceStatus.Properties failed = ResourceStatus.Properties status).
  { unfold updateKMProviderErrorStatus in Hupd.
    destruct (_ >? _); [destruct (string_slice_to _ _); [| discriminate] |];
      by injection Hupd as <-. }
  set (written := updateKMProviderSuccessStatus json_Marshal_status failed
                    (Some succeededAt) kmProviderStatus).
  exists written,
    (match Update' written with
     | Some statusErr =>
         [LogError statusErr
            ",unable to update key management provider error status"]
     | None => []
     end).
  split; [by destruct (Update' written) |].
  unfold written, updateKMProviderSuccessStatus. rewrite Hprops. done.
Qed.

Lemma writeKMProviderStatus_success_after_failure_witness :
  exists written logged',
    writeKMProviderStatus 30 example_json_Marshal_status (fun _ => None)
      (ResourceStatus.mk false error_of_forty_bytes
         "failed to get secret objectNam..." (Some 1700000060)
         (RawExtension.mk (Some "{}"%string)))
      true EmptyString 1700000120 None
    = Returns (written, logged')
    /\ written
       = updateKMProviderSuccessStatus example_json_Marshal_status
           status_after_success (Some 1700000120) None
    /\ ResourceStatus.IsSuccess written = true
    /\ ResourceStatus.Error written = EmptyString
    /\ ResourceStatus.BriefError written = EmptyString.
Proof.
  apply (writeKMProviderStatus_success_after_failure 30
           example_json_Marshal_status
           (fun _ => Some (ErrorString "the object has been modified"))
           (fun _ => None) status_after_success
           (ResourceStatus.mk false error_of_forty_bytes
              "failed to get secret objectNam..." (Some 1700000060)
              (RawExtension.mk (Some "{}"%string)))
           [LogError (ErrorString "the object has been modified")
              ",unable to update key management provider error status"]
           error_of_forty_bytes 1700000060 1700000120 None None).
  reflexivity.
Defined.

(** ** A fetch concerns the configured objects only *)

Lemma respects_bind_ret {S A B} (R : S -> S -> Prop) `{!PreOrder R}
    (m : M S A) (k : A -> M S B) :
  respects R m ->
  (forall s a s', m s = Ret a s' -> respects R (k a)) ->
  respects R (bind m k).
Proof.
  intros Hm Hk s. unfold bind. specialize (Hm s).
  destruct (m s) as [a s1 | e s1 | p |] eqn:Hms; try done.
  specialize (Hk s a s1 Hms s1). destruct (k a s1); try done; by etrans.
Qed.

Section Scoped.

Context {ext : Externals}.

Variable allowed : Event -> Prop.
Variable names : list string.

Hypothesis allowed_Warnf : forall w, allowed (Warnf w).
Hypothesis allowed_Report :
  forall name, allowed (ReportAKVCertificateDuration name).

Lemma trace_scoped_preorder : PreOrder (trace_scoped allowed names).
Proof.
  split.
  - intros tr. exists []. by rewrite app_nil_r.
  - intros t1 t2 t3 (e1 & -> & H1) (e2 & -> & H2). exists (e1 ++ e2).
    split; [by rewrite app_assoc | by apply Forall_app].
Qed.

Lemma scoped_preorder {V} : PreOrder (@scoped V allowed names).
Proof.
  split.
  - intros st. split; [| split].
    + intros k Hk. by left.
    + exists []. by rewrite app_nil_r.
    + apply trace_scoped_preorder.
  - intros st1 st2 st3 (Hm1 & (e1 & Hs1 & He1) & Ht1) (Hm2 & (e2 & Hs2 & He2) & Ht2).
    split; [| split].
    + intros k Hk. destruct (Hm2 k Hk) as [Hk2 | Hk2]; [| by right]. by apply Hm1.
    + exists (e1 ++ e2). split; [by rewrite Hs2, Hs1, app_assoc | by apply Forall_app].
    + pose proof trace_scoped_preorder. by etrans.
Qed.

Lemma scoped_emit {V} e :
  Event_name e ∈ names -> allowed e -> respects (@scoped V allowed names) (emit e).
Proof.
  intros Hn Ha st. split; [| split].
  - intros k Hk. by left.
  - exists []. by rewrite app_nil_r.
  - exists [e]. split; [done |]. by repeat constructor.
Qed.

Lemma scoped_append_status {V} entries :
  Forall (fun entry => StatusName entry ∈ names) entries ->
  respects (@scoped V allowed names) (append_status entries).
Proof.
  intros He st. split; [| split].
  - intros k Hk. by left.
  - by exists entries.
  - apply trace_scoped_preorder.
Qed.

Lemma scoped_map_store {V} mapKey (v : V) :
  KMPMapKey.Name mapKey ∈ names ->
  respects (scoped allowed names) (map_store mapKey v).
Proof.
  intros Hn st. split; [| split].
  - intros k Hk. simpl in Hk. destruct (decide (k = mapKey)) as [-> | Hne].
    + by right.
    + left. by rewrite lookup_insert_ne in Hk.
  - exists []. by rewrite app_nil_r.
  - apply trace_scoped_preorder.
Qed.

Lemma scoped_with_trace {V A} (m : M (list Event) A) :
  respects (trace_scoped allowed names) m ->
  respects (@scoped V allowed names) (with_trace m).
Proof.
  intros Hm st. unfold with_trace. specialize (Hm (fsTrace st)).
  destruct (m (fsTrace st)) as [a tr | e tr | p |]; try done;
    (split; [| split]; [by left | exists []; by rewrite app_nil_r | done]).
Qed.

Lemma scoped_log e :
  Event_name e ∈ names -> allowed e ->
  respects (trace_scoped allowed names) (log e).
Proof. intros Hn Ha tr. exists [e]. split; [done |]. by repeat constructor. Qed.

Lemma handleBlock_scoped certName version lastRefreshed enabled block
    results certsStatus :
  certName ∈ names ->
  respects (trace_scoped allowed names)
    (handleBlock certName version lastRefreshed enabled block results certsStatus).
Proof.
  intros Hn. pose proof trace_scoped_preorder.
  unfold handleBlock. repeat case_bool_decide.
  - apply respects_bind; [done | by apply scoped_log |].
    intros _. by apply respects_ret.
  - destruct (DecodeCertificates _); [by apply respects_ret | by apply respects_fail].
  - apply respects_bind; [done | by apply scoped_log |].
    intros _. by apply respects_ret.
Qed.

Lemma decodeBlocks_scoped fuel certName version lastRefreshed enabled
    block rest results certsStatus :
  certName ∈ names ->
  respects (trace_scoped allowed names)
    (decodeBlocks fuel certName version lastRefreshed enabled block rest
       results certsStatus).
Proof.
  intros Hn. pose proof trace_scoped_preorder.
  revert block rest results certsStatus.
  induction fuel as [|fuel IH]; intros block rest results certsStatus; [done |].
  cbn [decodeBlocks].
  apply respects_bind; [done | by apply handleBlock_scoped |].
  intros acc. destruct (pem_Decode rest).1.
  - apply IH.
  - case_bool_decide; [by apply respects_fail | by apply respects_ret].
Qed.

Lemma getCertsFromSecretBundle_scoped secretBundle certName enabled :
  certName ∈ names ->
  respects (trace_scoped allowed names)
    (getCertsFromSecretBundle secretBundle certName enabled).
Proof.
  intros Hn. pose proof trace_scoped_preorder.
  unfold getCertsFromSecretBundle.
  apply respects_bind; [done | by apply respects_deref |]. intros id.
  apply respects_bind; [done | by apply respects_deref |]. intros ct.
  destruct (_ && _); [by apply respects_fail |].
  apply respects_bind; [done | by apply respects_deref |]. intros value.
  apply respects_bind; [done | |].
  - case_bool_decide; [| by apply respects_ret].
    destruct (base64_DecodeString value); [| by apply respects_fail].
    destruct (pkcs12_ToPEM _ _); [by apply respects_ret | by apply respects_fail].
  - intros data. destruct (pem_Decode data).1.
    + by apply decodeBlocks_scoped.
    + by apply respects_ret.
Qed.

(** Parsing a bundle and storing its certificates. *)
Lemma store_parsed_scoped secretBundle name mapKey enabled
    (k : M (FetchState (list Certificate)) unit) :
  name ∈ names ->
  KMPMapKey.Name mapKey = name ->
  respects (scoped allowed names) k ->
  respects (scoped allowed names)
    (let* parsed :=
       wrap_error "failed to get certificates from secret bundle:"
         (with_trace (getCertsFromSecretBundle secretBundle name enabled)) in
     let* _ := emit (ReportAKVCertificateDuration name) in
     let* _ := append_status parsed.2 in
     let* _ := map_store mapKey parsed.1 in
     k).
Proof.
  intros Hn Hkey Hk. pose proof (@scoped_preorder (list Certificate)).
  apply respects_bind_ret; [done | |].
  { by apply respects_wrap_error, scoped_with_trace,
      getCertsFromSecretBundle_scoped. }
  intros st [certs statuses] st' Hparsed.
  assert (Hstatuses : Forall (fun entry => StatusName entry ∈ names) statuses).
  { unfold wrap_error, with_trace in Hparsed.
    destruct (getCertsFromSecretBundle _ _ _ _) as [[c e] tr | | |] eqn:Hrun;
      try discriminate.
    injection Hparsed as -> -> _.
    apply getCertsFromSecretBundle_entries in Hrun as (id & ws & _ & -> & _).
    clear -Hn. induction certs as [|cert certs IH]; simpl; by constructor. }
  apply respects_bind; [done | by apply scoped_emit |]. intros _.
  apply respects_bind; [done | by apply scoped_append_status |]. intros _.
  apply respects_bind; [done | apply scoped_map_store; by rewrite Hkey |].
  intros _. exact Hk.
Qed.

Lemma certificateItems_scoped certName items versionHistory :
  certName ∈ names ->
  respects (scoped allowed names) (certificateItems certName items versionHistory).
Proof.
  intros Hn. pose proof (@scoped_preorder (list Certificate)).
  revert versionHistory. induction items as [|cert items IH]; intros vh; simpl.
  - by apply respects_ret.
  - destruct (negb _).
    + apply respects_bind; [done | by apply scoped_emit | auto].
    + repeat (apply respects_bind; [done | by apply respects_deref |]; intros ?).
      apply IH.
Qed.

Lemma fetchCertificateVersionHistory_scoped s certName :
  certName ∈ names ->
  respects (scoped allowed names) (fetchCertificateVersionHistory s certName).
Proof.
  intros Hn. pose proof (@scoped_preorder (list Certificate)).
  assert (Hpages : forall pages vh,
            respects (scoped allowed names) (certificatePages certName pages vh)).
  { induction pages as [|[items | err] pages IH]; intros vh; simpl.
    - by apply respects_ret.
    - apply respects_bind; [done | by apply certificateItems_scoped | auto].
    - by apply respects_fail. }
  unfold fetchCertificateVersionHistory.
  apply respects_bind; [done | apply Hpages |]. intros vh. by apply respects_ret.
Qed.

Lemma keyItems_scoped keyName items versionHistory :
  keyName ∈ names ->
  respects (@scoped PublicKey allowed names) (keyItems keyName items versionHistory).
Proof.
  intros Hn. pose proof (@scoped_preorder PublicKey).
  revert versionHistory. induction items as [|key items IH]; intros vh; simpl.
  - by apply respects_ret.
  - destruct (negb _).
    + apply respects_bind; [done | by apply scoped_emit | auto].
    + repeat (apply respects_bind; [done | by apply respects_deref |]; intros ?).
      apply IH.
Qed.

Lemma fetchKeyVersionHistory_scoped s keyName :
  keyName ∈ names ->
  respects (scoped allowed names) (fetchKeyVersionHistory s keyName).
Proof.
  intros Hn. pose proof (@scoped_preorder PublicKey).
  assert (Hpages : forall pages vh,
            respects (scoped allowed names) (keyPages keyName pages vh)).
  { induction pages as [|[items | err] pages IH]; intros vh; simpl.
    - by apply respects_ret.
    - apply respects_bind; [done | by apply keyItems_scoped | auto].
    - by apply respects_fail. }
  unfold fetchKeyVersionHistory.
  apply respects_bind; [done | apply Hpages |]. intros vh. by apply respects_ret.
Qed.

Lemma processCertificate_scoped s keyVaultCert :
  (forall mapKey, allowed (DeleteCertificateFromMap (resource s) mapKey)) ->
  KeyVaultValue.Name keyVaultCert ∈ names ->
  respects (scoped allowed names) (processCertificate s keyVaultCert).
Proof.
  intros Hdel Hn. pose proof (@scoped_preorder (list Certificate)).
  assert (Hentry : forall version t enabled,
            Forall (fun entry => StatusName entry ∈ names)
              [getStatusProperty (KeyVaultValue.Name keyVaultCert) version t enabled])
    by (intros; by repeat constructor).
  unfold processCertificate. case_bool_decide.
  - unfold processCertificateVersion.
    destruct (GetSecret _ _ _) as [secretBundle | err].
    + destruct (negb _); [by apply scoped_emit |].
      apply respects_bind; [done | by apply respects_deref |]. intros attrs.
      apply respects_bind; [done | by apply respects_deref |]. intros isEnabled.
      apply (store_parsed_scoped secretBundle _ _ isEnabled (ret tt)); try done.
      by apply respects_ret.
    + apply respects_bind; [done | by apply respects_of_outcome |].
      intros disabled. destruct (negb disabled); [by apply respects_fail |].
      unfold handleDisabledSecret.
      destruct (GetCertificate _ _ _) as [certResponse | err'];
        [| by apply respects_fail].
      destruct (negb _); [by apply scoped_emit |].
      apply respects_bind; [done | by apply respects_deref |]. intros attrs.
      apply respects_bind; [done | by apply respects_deref |]. intros isEnabled.
      apply respects_bind; [done | by apply scoped_append_status |]. intros _.
      by apply scoped_emit.
  - unfold processCertificateVersions.
    apply respects_bind; [done | |].
    { by apply respects_wrap_error, fetchCertificateVersionHistory_scoped. }
    intros h. apply respects_bind; [done | by apply respects_of_outcome |].
    intros w. case_bool_decide as Hlen; [by apply scoped_emit |]. clear Hlen.
    induction w as [|certVersion w IH]; simpl; [by apply respects_ret |].
    destruct (negb _).
    + apply respects_bind; [done | by apply scoped_append_status |]. intros _.
      apply respects_bind; [done | by apply scoped_emit | auto].
    + destruct (GetSecret _ _ _) as [secretBundle | err]; [| by apply respects_fail].
      destruct (negb _).
      * apply respects_bind; [done | by apply scoped_emit | auto].
      * by apply store_parsed_scoped.
Qed.

Lemma processCertificates_scoped s objects :
  (forall mapKey, allowed (DeleteCertificateFromMap (resource s) mapKey)) ->
  Forall (fun object => KeyVaultValue.Name object ∈ names) objects ->
  respects (scoped allowed names) (processCertificates s objects).
Proof.
  intros Hdel. pose proof (@scoped_preorder (list Certificate)).
  induction 1 as [|object objects Hn _ IH]; simpl.
  - by apply respects_ret.
  - apply respects_bind; [done | by apply processCertificate_scoped | auto].
Qed.

Lemma processKey_scoped s keyVaultKey :
  (forall mapKey, allowed (DeleteKeyFromMap (resource s) mapKey)) ->
  KeyVaultValue.Name keyVaultKey ∈ names ->
  respects (scoped allowed names) (processKey s keyVaultKey).
Proof.
  intros Hdel Hn. pose proof (@scoped_preorder PublicKey).
  assert (Hentry : forall version t enabled,
            Forall (fun entry => StatusName entry ∈ names)
              [getStatusProperty (KeyVaultValue.Name keyVaultKey) version t enabled])
    by (intros; by repeat constructor).
  unfold processKey. case_bool_decide.
  - unfold processKeyVersion.
    destruct (GetKey _ _ _) as [keyBundle | err]; [| by apply respects_fail].
    destruct (negb _); [by apply scoped_emit |].
    repeat (apply respects_bind; [done | by apply respects_deref |]; intros ?).
    destruct (negb _).
    + apply respects_bind; [done | by apply scoped_append_status |]. intros _.
      by apply scoped_emit.
    + destruct (getKeyFromKeyBundle keyBundle); [| by apply respects_fail].
      apply respects_bind; [done | by apply scoped_map_store |]. intros _.
      apply respects_bind; [done | by apply scoped_emit |]. intros _.
      by apply scoped_append_status.
  - unfold processKeyVersions.
    apply respects_bind; [done | |].
    { by apply respects_wrap_error, fetchKeyVersionHistory_scoped. }
    intros h. apply respects_bind; [done | by apply respects_of_outcome |].
    intros w. case_bool_decide as Hlen; [by apply scoped_emit |]. clear Hlen.
    induction w as [|keyVersion w IH]; simpl; [by apply respects_ret |].
    destruct (negb _).
    + apply respects_bind; [done | by apply scoped_append_status |]. intros _.
      apply respects_bind; [done | by apply scoped_emit | auto].
    + destruct (GetKey _ _ _) as [keyBundle | err]; [| by apply respects_fail].
      destruct (negb _).
      * apply respects_bind; [done | by apply scoped_emit | auto].
      * destruct (getKeyFromKeyBundle keyBundle); [| by apply respects_fail].
        apply respects_bind; [done | by apply scoped_map_store |]. intros _.
        apply respects_bind; [done | by apply scoped_append_status | auto].
Qed.

Lemma processKeys_scoped s objects :
  (forall mapKey, allowed (DeleteKeyFromMap (resource s) mapKey)) ->
  Forall (fun object => KeyVaultValue.Name object ∈ names) objects ->
  respects (scoped allowed names) (processKeys s objects).
Proof.
  intros Hdel. pose proof (@scoped_preorder PublicKey).
  induction 1 as [|object objects Hn _ IH]; simpl.
  - by apply respects_ret.
  - apply respects_bind; [done | by apply processKey_scoped | auto].
Qed.

End Scoped.

(** X24.  A fetch of certificates concerns the configured certificates and
    the provider's own entries only, whether it succeeds or fails: every
    event it adds (warning, metric, deletion from the shared store) names a
    configured certificate, deletions are deletions of certificates under
    the provider's own resource name, never of keys and never under
    another name; and on success every key of the returned map and every
    entry of the status document names a configured certificate. *)
Theorem GetCertificates_concerns_the_configured_certificates {ext : Externals}
    (s : akvKMProvider) (trace : list Event)
    (result : FetchReturn (list Certificate)) (trace' : list Event) :
  GetCertificates s trace = Ret result trace' ->
  trace_scoped (certificate_event (resource s))
    (KeyVaultValue.Name <$> certificates s) trace trace'
  /\ (forall certsMap status err,
        result = (Some certsMap, Some status, err) ->
        (forall mapKey, is_Some (certsMap !! mapKey) ->
           KMPMapKey.Name mapKey ∈ (KeyVaultValue.Name <$> certificates s))
        /\ exists entries,
             status = getStatusMap entries CertificatesStatus
             /\ Forall (fun entry =>
                          StatusName entry ∈ (KeyVaultValue.Name <$> certificates s))
                  entries).
Proof.
  unfold GetCertificates. intros Hrun.
  pose proof (processCertificates_scoped (certificate_event (resource s))
                (KeyVaultValue.Name <$> certificates s)
                ltac:(done) ltac:(done) s (certificates s) ltac:(done)) as Hscoped.
  specialize (Hscoped ltac:(apply Forall_forall; intros o Ho;
                            by apply list_elem_of_fmap_2)
                (mkFetchState ∅ [] trace)).
  destruct (processCertificates s (certificates s) (mkFetchState ∅ [] trace))
    as [[] st | e st | p |]; try discriminate;
    injection Hrun as <- <-; destruct Hscoped as (Hmap & (entries & Hst & Hentries) & Htr);
    (split; [exact Htr |]); intros certsMap status err [= <- <- <-].
  split.
  - intros mapKey Hk. destruct (Hmap mapKey Hk) as [Hempty | Hn]; [| done].
    simpl in Hempty. rewrite lookup_empty in Hempty. by destruct Hempty.
  - exists entries. split; [by rewrite Hst | done].
Qed.

Lemma GetCertificates_concerns_the_configured_certificates_witness :
  trace_scoped (certificate_event "default/kmp-akv") ["cert1"; "cert-off"]%string
    [] (fsTrace state_after_cert1_history_and_cert_off)
  /\ (forall certsMap status err,
        (Some (fsMap state_after_cert1_history_and_cert_off),
         Some (getStatusMap (fsStatus state_after_cert1_history_and_cert_off)
                 "Certificates"),
         @None error)
        = (Some certsMap, Some status, err) ->
        (forall mapKey, is_Some (certsMap !! mapKey) ->
           KMPMapKey.Name mapKey ∈ ["cert1"; "cert-off"]%string)
        /\ exists entries,
             status = getStatusMap entries "Certificates"
             /\ Forall (fun entry =>
                          StatusName entry ∈ ["cert1"; "cert-off"]%string)
                  entries).
Proof.
  apply (GetCertificates_concerns_the_configured_certificates
           (ext := example_externals)
           (example_provider [object_cert1_history; object_cert_off] []) []
           (Some (fsMap state_after_cert1_history_and_cert_off),
            Some (getStatusMap (fsStatus state_after_cert1_history_and_cert_off)
                    "Certificates"),
            None)
           (fsTrace state_after_cert1_history_and_cert_off)).
  by_evaluation.
Defined.

(** X25.  A fetch of keys concerns the configured keys and the provider's
    own entries only, whether it succeeds or fails: every event it adds
    names a configured key, deletions are deletions of keys under the
    provider's own resource name, never of certificates; and on success
    every key of the returned map and every entry of the status document
    names a configured key. *)
Theorem GetKeys_concerns_the_configured_keys {ext : Externals}
    (s : akvKMProvider) (trace : list Event)
    (result : FetchReturn PublicKey) (trace' : list Event) :
  GetKeys s trace = Ret result trace' ->
  trace_scoped (key_event (resource s)) (KeyVaultValue.Name <$> keys s) trace trace'
  /\ (forall keysMap status err,
        result = (Some keysMap, Some status, err) ->
        (forall mapKey, is_Some (keysMap !! mapKey) ->
           KMPMapKey.Name mapKey ∈ (KeyVaultValue.Name <$> keys s))
        /\ exists entries,
             status = getStatusMap entries KeysStatus
             /\ Forall (fun entry =>
                          StatusName entry ∈ (KeyVaultValue.Name <$> keys s))
                  entries).
Proof.
  unfold GetKeys. intros Hrun.
  pose proof (processKeys_scoped (key_event (resource s))
                (KeyVaultValue.Name <$> keys s)
                ltac:(done) ltac:(done) s (keys s) ltac:(done)) as Hscoped.
  specialize (Hscoped ltac:(apply Forall_forall; intros o Ho;
                            by apply list_elem_of_fmap_2)
                (mkFetchState ∅ [] trace)).
  destruct (processKeys s (keys s) (mkFetchState ∅ [] trace))
    as [[] st | e st | p |]; try discriminate;
    injection Hrun as <- <-; destruct Hscoped as (Hmap & (entries & Hst & Hentries) & Htr);
    (split; [exact Htr |]); intros keysMap status err [= <- <- <-].
  split.
  - intros mapKey Hk. destruct (Hmap mapKey Hk) as [Hempty | Hn]; [| done].
    simpl in Hempty. rewrite lookup_empty in Hempty. by destruct Hempty.
  - exists entries. split; [by rewrite Hst | done].
Qed.

Lemma GetKeys_concerns_the_configured_keys_witness :
  trace_scoped (key_event "default/kmp-akv") ["key1"; "key-off"]%string
    [] (fsTrace state_after_key1_history_and_key_off)
  /\ (forall keysMap status err,
        (Some (fsMap state_after_key1_history_and_key_off),
         Some (getStatusMap (fsStatus state_after_key1_history_and_key_off) "Keys"),
         @None error)
        = (Some keysMap, Some status, err) ->
        (forall mapKey, is_Some (keysMap !! mapKey) ->
           KMPMapKey.Name mapKey ∈ ["key1"; "key-off"]%string)
        /\ exists entries,
             status = getStatusMap entries "Keys"
             /\ Forall (fun entry => StatusName entry ∈ ["key1"; "key-off"]%string)
                  entries).
Proof.
  apply (GetKeys_concerns_the_configured_keys (ext := example_externals)
           (example_provider [] [object_key1_history; object_key_off]) []
           (Some (fsMap state_after_key1_history_and_key_off),
            Some (getStatusMap (fsStatus state_after_key1_history_and_key_off) "Keys"),
            None)
           (fsTrace state_after_key1_history_and_key_off)).
  by_evaluation.
Defined.

(** ** GetKeys: the map and the status document agree *)

#[global] Instance reported_together_preorder {V : Type} :
  PreOrder (@reported_together V).
Proof.
  split.
  - intros st. split; [done |]. split; [by left |].
    exists []. split; [by rewrite app_nil_r |]. intros entry He.
    by apply elem_of_nil in He.
  - intros st1 st2 st3 (Hk1 & Hm1 & e1 & Hs1 & He1) (Hk2 & Hm2 & e2 & Hs2 & He2).
    split; [| split].
    + intros k Hk. by apply Hk2, Hk1.
    + intros k Hk. destruct (Hm2 k Hk) as [Hk' | Hnew]; [| by right].
      destruct (Hm1 k Hk') as [Hk'' | (Hen & t & Ht)]; [by left | right].
      split; [done |]. exists t. rewrite Hs2. apply elem_of_app. by left.
    + exists (e1 ++ e2). split; [by rewrite Hs2, Hs1, app_assoc |].
      intros entry He Htrue. apply elem_of_app in He as [He | He].
      * by apply Hk2, He1.
      * by apply He2.
Qed.

Lemma reported_together_emit {V} e : respects (@reported_together V) (emit e).
Proof.
  intros st. split; [done |]. split; [by left |].
  exists []. split; [by rewrite app_nil_r |]. intros entry He.
  by apply elem_of_nil in He.
Qed.

(** A status entry that says disabled. *)
Lemma reported_together_disabled {V} name version t :
  respects (@reported_together V)
    (append_status [getStatusProperty name version t false]).
Proof.
  intros st. split; [done |]. split; [by left |].
  eexists. split; [done |]. intros entry He Htrue.
  apply list_elem_of_singleton in He as ->. done.
Qed.

(** A key stored together with its status entry. *)
Lemma reported_together_stored {V} (st : FetchState V) name version t
    (v : V) events :
  reported_together st
    (mkFetchState (<[KMPMapKey.mk name version true := v]> (fsMap st))
       (fsStatus st ++ [getStatusProperty name version t true])
       (fsTrace st ++ events)).
Proof.
  split; [| split].
  - intros k Hk. simpl. destruct (decide (k = KMPMapKey.mk name version true)) as [-> | Hne].
    + rewrite lookup_insert_eq. by eexists.
    + by rewrite lookup_insert_ne.
  - intros k Hk. simpl in *.
    destruct (decide (k = KMPMapKey.mk name version true)) as [-> | Hne].
    + right. split; [done |]. exists t. apply elem_of_app. right.
      apply list_elem_of_here.
    + left. by rewrite lookup_insert_ne in Hk.
  - eexists. split; [done |]. intros entry He _. simpl.
    apply list_elem_of_singleton in He as ->. simpl.
    rewrite lookup_insert_eq. by eexists.
Qed.

Section ReportedTogether.

Context {ext : Externals}.

Lemma keyVersions_reported_together s keyVaultKey startTime versionHistory :
  respects reported_together (keyVersions s keyVaultKey startTime versionHistory).
Proof.
  induction versionHistory as [|keyVersion w IH]; simpl.
  - apply respects_ret; apply _.
  - destruct (KeyVaultValueVersion.Enabled keyVersion) eqn:Hen; cbn [negb].
    + destruct (GetKey _ _ _) as [keyBundle | err]; [| apply respects_fail; apply _].
      destruct (negb _).
      * apply respects_bind; [apply _ | apply reported_together_emit | auto].
      * destruct (getKeyFromKeyBundle keyBundle) as [publicKey | err];
          [| apply respects_fail; apply _].
        intros st. unfold bind at 1 2, map_store, append_status.
        cbn [fsMap fsStatus fsTrace].
        pose proof (reported_together_stored st (KeyVaultValue.Name keyVaultKey)
                      (KeyVaultValueVersion.Version keyVersion)
                      (Format_RFC3339 time_Now) publicKey []) as Hstep.
        rewrite app_nil_r in Hstep.
        match goal with
        | |- match keyVersions _ _ _ _ ?st' with _ => _ end =>
            specialize (IH st'); destruct (keyVersions _ _ _ _ st');
              try done; by etrans
        end.
    + apply respects_bind; [apply _ | apply reported_together_disabled |].
      intros _. apply respects_bind; [apply _ | apply reported_together_emit | auto].
Qed.

Lemma processKey_reported_together s keyVaultKey :
  respects reported_together (processKey s keyVaultKey).
Proof.
  unfold processKey. case_bool_decide.
  - unfold processKeyVersion.
    destruct (GetKey _ _ _) as [keyBundle | err]; [| apply respects_fail; apply _].
    destruct (negb _); [apply reported_together_emit |].
    apply respects_bind; [apply _ | apply respects_deref; apply _ |]. intros attrs.
    apply respects_bind; [apply _ | apply respects_deref; apply _ |].
    intros isEnabled.
    apply respects_bind; [apply _ | apply respects_deref; apply _ |]. intros webKey.
    apply respects_bind; [apply _ | apply respects_deref; apply _ |]. intros kid.
    destruct isEnabled; cbn [negb].
    + destruct (getKeyFromKeyBundle keyBundle) as [publicKey | err];
        [| apply respects_fail; apply _].
      intros st. unfold bind, map_store, emit, append_status.
      cbn [fsMap fsStatus fsTrace]. apply reported_together_stored.
    + apply respects_bind; [apply _ | apply reported_together_disabled |].
      intros _. apply reported_together_emit.
  - unfold processKeyVersions.
    apply respects_bind; [apply _ | |].
    { apply respects_wrap_error.
      eapply respects_weaken; [| apply fetchKeyVersionHistory_only_warns].
      intros st st' (Hm & Hs & _). split; [by rewrite Hm |].
      split; [left; by rewrite <- Hm |].
      exists []. split; [by rewrite Hs, app_nil_r |]. intros entry He.
      by apply elem_of_nil in He. }
    intros h. apply respects_bind; [apply _ | apply respects_of_outcome; apply _ |].
    intros w. case_bool_decide;
      [apply reported_together_emit | apply keyVersions_reported_together].
Qed.

Lemma processKeys_reported_together s objects :
  respects reported_together (processKeys s objects).
Proof.
  induction objects as [|object objects IH]; simpl.
  - apply respects_ret; apply _.
  - apply respects_bind; [apply _ | apply processKey_reported_together | auto].
Qed.

End ReportedTogether.

(** X26.  The map and the status document that [GetKeys] returns agree:
    every key of the map is enabled and has a status entry of its name and
    version that says enabled, and every status entry that says enabled
    has its key in the map. *)
Theorem GetKeys_map_and_status_agree {ext : Externals}
    (s : akvKMProvider) (trace : list Event)
    (keysMap : gmap KMPMapKey.t PublicKey) (status : KeyManagementProviderStatus)
    (err : option error) (trace' : list Event) :
  GetKeys s trace = Ret (Some keysMap, Some status, err) trace' ->
  exists entries,
    status = getStatusMap entries KeysStatus
    /\ (forall mapKey,
          is_Some (keysMap !! mapKey) ->
          KMPMapKey.Enabled mapKey = true
          /\ exists t,
               getStatusProperty (KMPMapKey.Name mapKey) (KMPMapKey.Version mapKey)
                 t true ∈ entries)
    /\ (forall entry,
          entry ∈ entries ->
          StatusEnabled entry = "true"%string ->
          is_Some (keysMap !! KMPMapKey.mk (StatusName entry)
                                (StatusVersion entry) true)).
Proof.
  unfold GetKeys. intros Hrun.
  pose proof (processKeys_reported_together s (keys s) (mkFetchState ∅ [] trace))
    as Htogether.
  destruct (processKeys s (keys s) (mkFetchState ∅ [] trace))
    as [[] st | e st | p |]; try discriminate.
  injection Hrun as <- <- <- <-.
  destruct Htogether as (_ & Hmap & entries & Hst & Hentries).
  simpl in Hst. exists (fsStatus st). split; [done |]. split.
  - intros mapKey Hk. destruct (Hmap mapKey Hk) as [Hempty | Hnew]; [| done].
    simpl in Hempty. rewrite lookup_empty in Hempty. by destruct Hempty.
  - intros entry He. apply Hentries. by rewrite Hst in He.
Qed.

Lemma GetKeys_map_and_status_agree_witness :
  exists entries,
    getStatusMap (fsStatus state_after_key1_history_and_key_off) "Keys"
    = getStatusMap entries "Keys"
    /\ (forall mapKey,
          is_Some (fsMap state_after_key1_history_and_key_off !! mapKey) ->
          KMPMapKey.Enabled mapKey = true
          /\ exists t,
               getStatusProperty (KMPMapKey.Name mapKey) (KMPMapKey.Version mapKey)
                 t true ∈ entries)
    /\ (forall entry,
          entry ∈ entries ->
          StatusEnabled entry = "true"%string ->
          is_Some (fsMap state_after_key1_history_and_key_off
                     !! KMPMapKey.mk (StatusName entry) (StatusVersion entry) true)).
Proof.
  apply (GetKeys_map_and_status_agree (ext := example_externals)
           (example_provider [] [object_key1_history; object_key_off]) []
           (fsMap state_after_key1_history_and_key_off)
           (getStatusMap (fsStatus state_after_key1_history_and_key_off) "Keys")
           None
           (fsTrace state_after_key1_history_and_key_off)).
  by_evaluation.
Defined.

(** ** Objects are fetched independently, in the order of the configuration *)

Lemma followed_by_initial_r {V} (st : FetchState V) :
  followed_by st (initial_state []) = st.
Proof.
  destruct st as [m status trace]. unfold followed_by, initial_state. cbn [fsMap fsStatus fsTrace app].
  by rewrite (left_id_L ∅ (∪)), !app_nil_r.
Qed.

Lemma followed_by_assoc {V} (st a b : FetchState V) :
  followed_by (followed_by st a) b = followed_by st (followed_by a b).
Proof.
  unfold followed_by. cbn [fsMap fsStatus fsTrace]. by rewrite (assoc_L (∪)), !app_assoc.
Qed.

Lemma independent_ret {V A} (a : A) : independent (V := V) (ret a).
Proof. intros st. unfold ret. by rewrite followed_by_initial_r. Qed.

Lemma independent_fail {V A} e : independent (V := V) (fail (A := A) e).
Proof. intros st. unfold fail. by rewrite followed_by_initial_r. Qed.

Lemma independent_crash {V A} p : independent (V := V) (crash (A := A) p).
Proof. by intros st. Qed.

Lemma independent_of_outcome {V A} (o : outcome A) :
  independent (V := V) (of_outcome o).
Proof. destruct o; [apply independent_ret | apply independent_crash]. Qed.

Lemma independent_deref {V A} (p : option A) : independent (V := V) (deref p).
Proof. destruct p; [apply independent_ret | apply independent_crash]. Qed.

Lemma independent_bind {V A B} (m : M (FetchState V) A)
    (k : A -> M (FetchState V) B) :
  independent m -> (forall a, independent (k a)) -> independent (bind m k).
Proof.
  intros Hm Hk st. unfold bind. rewrite (Hm st).
  destruct (m (initial_state [])) as [a st0 | e st0 | p |]; try done.
  rewrite (Hk a (followed_by st st0)), (Hk a st0).
  destruct (k a (initial_state [])) as [b st1 | e st1 | p |]; try done;
    by rewrite followed_by_assoc.
Qed.

Lemma independent_wrap_error {V A} prefix (m : M (FetchState V) A) :
  independent m -> independent (wrap_error prefix m).
Proof.
  intros Hm st. unfold wrap_error. rewrite (Hm st).
  by destruct (m (initial_state [])).
Qed.

Lemma independent_emit {V} e : independent (emit (V := V) e).
Proof.
  intros [m status trace]. unfold emit, followed_by, initial_state.
  cbn [fsMap fsStatus fsTrace app].
  by rewrite (left_id_L ∅ (∪)), app_nil_r.
Qed.

Lemma independent_append_status {V} entries :
  independent (append_status (V := V) entries).
Proof.
  intros [m status trace]. unfold append_status, followed_by, initial_state.
  cbn [fsMap fsStatus fsTrace app].
  by rewrite (left_id_L ∅ (∪)), app_nil_r.
Qed.

Lemma independent_map_store {V} mapKey (v : V) : independent (map_store mapKey v).
Proof.
  intros [m status trace]. unfold map_store, followed_by, initial_state.
  cbn [fsMap fsStatus fsTrace app].
  rewrite !app_nil_r. do 2 f_equal.
  by rewrite insert_empty, <- insert_union_singleton_l.
Qed.

Lemma independent_with_trace {V A} (m : M (list Event) A) :
  trace_independent m -> independent (V := V) (with_trace m).
Proof.
  intros Hm [mp status trace]. unfold with_trace, followed_by, initial_state.
  cbn [fsMap fsStatus fsTrace]. rewrite (Hm trace).
  destruct (m []) as [a tr0 | e tr0 | p |]; try done;
    cbn [fsMap fsStatus fsTrace]; by rewrite (left_id_L ∅ (∪)), app_nil_r.
Qed.

Lemma trace_independent_ret {A} (a : A) : trace_independent (ret a).
Proof. intros tr. unfold ret. by rewrite app_nil_r. Qed.

Lemma trace_independent_fail {A} e : trace_independent (fail (A := A) e).
Proof. intros tr. unfold fail. by rewrite app_nil_r. Qed.

Lemma trace_independent_deref {A} (p : option A) : trace_independent (deref p).
Proof. destruct p; [apply trace_independent_ret | by intros tr]. Qed.

Lemma trace_independent_log e : trace_independent (log e).
Proof. by intros tr. Qed.

Lemma trace_independent_bind {A B} (m : M (list Event) A)
    (k : A -> M (list Event) B) :
  trace_independent m -> (forall a, trace_independent (k a)) ->
  trace_independent (bind m k).
Proof.
  intros Hm Hk tr. unfold bind. rewrite (Hm tr).
  destruct (m []) as [a tr0 | e tr0 | p |]; try done.
  rewrite (Hk a (tr ++ tr0)), (Hk a tr0).
  destruct (k a []) as [b tr1 | e tr1 | p |]; try done; by rewrite app_assoc.
Qed.

Lemma bind_ext {S A B} (m : M S A) (k k' : A -> M S B) s :
  (forall a s', k a s' = k' a s') -> bind m k s = bind m k' s.
Proof. intros Hk. unfold bind. by destruct (m s). Qed.

Section Independent.

Context {ext : Externals}.

Lemma getCertsFromSecretBundle_independent secretBundle certName enabled :
  trace_independent (getCertsFromSecretBundle secretBundle certName enabled).
Proof.
  assert (Hblock : forall version lastRefreshed block results certsStatus,
            trace_independent
              (handleBlock certName version lastRefreshed enabled block results
                 certsStatus)).
  { intros. unfold handleBlock. repeat case_bool_decide.
    - apply trace_independent_bind; [apply trace_independent_log |].
      intros _. apply trace_independent_ret.
    - destruct (DecodeCertificates _);
        [apply trace_independent_ret | apply trace_independent_fail].
    - apply trace_independent_bind; [apply trace_independent_log |].
      intros _. apply trace_independent_ret. }
  assert (Hloop : forall fuel version lastRefreshed block rest results certsStatus,
            trace_independent
              (decodeBlocks fuel certName version lastRefreshed enabled block rest
                 results certsStatus)).
  { induction fuel as [|fuel IH]; intros; [by intros tr |].
    cbn [decodeBlocks]. apply trace_independent_bind; [apply Hblock |].
    intros acc. destruct (pem_Decode rest).1; [apply IH |].
    case_bool_decide; [apply trace_independent_fail | apply trace_independent_ret]. }
  unfold getCertsFromSecretBundle.
  apply trace_independent_bind; [apply trace_independent_deref |]. intros id.
  apply trace_independent_bind; [apply trace_independent_deref |]. intros ct.
  destruct (_ && _); [apply trace_independent_fail |].
  apply trace_independent_bind; [apply trace_independent_deref |]. intros value.
  apply trace_independent_bind.
  - case_bool_decide; [| apply trace_independent_ret].
    destruct (base64_DecodeString value); [| apply trace_independent_fail].
    destruct (pkcs12_ToPEM _ _);
      [apply trace_independent_ret | apply trace_independent_fail].
  - intros data. destruct (pem_Decode data).1; [apply Hloop |].
    apply trace_independent_ret.
Qed.

Lemma store_parsed_independent secretBundle name mapKey enabled
    (k : M (FetchState (list Certificate)) unit) :
  independent k ->
  independent
    (let* parsed :=
       wrap_error "failed to get certificates from secret bundle:"
         (with_trace (getCertsFromSecretBundle secretBundle name enabled)) in
     let* _ := emit (ReportAKVCertificateDuration name) in
     let* _ := append_status parsed.2 in
     let* _ := map_store mapKey parsed.1 in
     k).
Proof.
  intros Hk.
  apply independent_bind.
  { apply independent_wrap_error, independent_with_trace,
      getCertsFromSecretBundle_independent. }
  intros parsed.
  apply independent_bind; [apply independent_emit |]. intros _.
  apply independent_bind; [apply independent_append_status |]. intros _.
  apply independent_bind; [apply independent_map_store |]. intros _. exact Hk.
Qed.

Lemma processCertificate_independent s keyVaultCert :
  independent (processCertificate s keyVaultCert).
Proof.
  unfold processCertificate. case_bool_decide.
  - unfold processCertificateVersion.
    destruct (GetSecret _ _ _) as [secretBundle | err].
    + destruct (negb _); [apply independent_emit |].
      apply independent_bind; [apply independent_deref |]. intros attrs.
      apply independent_bind; [apply independent_deref |]. intros isEnabled.
      apply (store_parsed_independent secretBundle _ _ isEnabled (ret tt)).
      apply independent_ret.
    + apply independent_bind; [apply independent_of_outcome |]. intros disabled.
      destruct (negb disabled); [apply independent_fail |].
      unfold handleDisabledSecret.
      destruct (GetCertificate _ _ _) as [certResponse | err'];
        [| apply independent_fail].
      destruct (negb _); [apply independent_emit |].
      apply independent_bind; [apply independent_deref |]. intros attrs.
      apply independent_bind; [apply independent_deref |]. intros isEnabled.
      apply independent_bind; [apply independent_append_status |]. intros _.
      apply independent_emit.
  - unfold processCertificateVersions.
    apply independent_bind.
    { apply independent_wrap_error. unfold fetchCertificateVersionHistory.
      apply independent_bind; [| intros vh; apply independent_ret].
      generalize (@nil KeyVaultValueVersion.t) as vh.
      induction (NewListCertificateVersionsPager _ _) as [|[items | err] pages IH];
        intros vh; simpl;
        [apply independent_ret | | apply independent_fail].
      apply independent_bind; [| intros vh'; apply IH].
      revert vh. induction items as [|cert items IHitems]; intros vh; simpl;
        [apply independent_ret |].
      destruct (negb _).
      - apply independent_bind; [apply independent_emit | auto].
      - repeat (apply independent_bind; [apply independent_deref |]; intros ?).
        apply IHitems. }
    intros h. apply independent_bind; [apply independent_of_outcome |]. intros w.
    case_bool_decide as Hlen; [apply independent_emit |]. clear Hlen.
    induction w as [|certVersion w IH]; simpl; [apply independent_ret |].
    destruct (negb _).
    + apply independent_bind; [apply independent_append_status |]. intros _.
      apply independent_bind; [apply independent_emit | auto].
    + destruct (GetSecret _ _ _) as [secretBundle | err]; [| apply independent_fail].
      destruct (negb _).
      * apply independent_bind; [apply independent_emit | auto].
      * by apply store_parsed_independent.
Qed.

Lemma processKey_independent s keyVaultKey :
  independent (processKey s keyVaultKey).
Proof.
  unfold processKey. case_bool_decide.
  - unfold processKeyVersion.
    destruct (GetKey _ _ _) as [keyBundle | err]; [| apply independent_fail].
    destruct (negb _); [apply independent_emit |].
    repeat (apply independent_bind; [apply independent_deref |]; intros ?).
    destruct (negb _).
    + apply independent_bind; [apply independent_append_status |]. intros _.
      apply independent_emit.
    + destruct (getKeyFromKeyBundle keyBundle); [| apply independent_fail].
      apply independent_bind; [apply independent_map_store |]. intros _.
      apply independent_bind; [apply independent_emit |]. intros _.
      apply independent_append_status.
  - unfold processKeyVersions.
    apply independent_bind.
    { apply independent_wrap_error. unfold fetchKeyVersionHistory.
      apply independent_bind; [| intros vh; apply independent_ret].
      generalize (@nil KeyVaultValueVersion.t) as vh.
      induction (NewListKeyVersionsPager _ _) as [|[items | err] pages IH];
        intros vh; simpl;
        [apply independent_ret | | apply independent_fail].
      apply independent_bind; [| intros vh'; apply IH].
      revert vh. induction items as [|key items IHitems]; intros vh; simpl;
        [apply independent_ret |].
      destruct (negb _).
      - apply independent_bind; [apply independent_emit | auto].
      - repeat (apply independent_bind; [apply independent_deref |]; intros ?).
        apply IHitems. }
    intros h. apply independent_bind; [apply independent_of_outcome |]. intros w.
    case_bool_decide as Hlen; [apply independent_emit |]. clear Hlen.
    induction w as [|keyVersion w IH]; simpl; [apply independent_ret |].
    destruct (negb _).
    + apply independent_bind; [apply independent_append_status |]. intros _.
      apply independent_bind; [apply independent_emit | auto].
    + destruct (GetKey _ _ _) as [keyBundle | err]; [| apply independent_fail].
      destruct (negb _).
      * apply independent_bind; [apply independent_emit | auto].
      * destruct (getKeyFromKeyBundle keyBundle); [| apply independent_fail].
        apply independent_bind; [apply independent_map_store |]. intros _.
        apply independent_bind; [apply independent_append_status | auto].
Qed.

Lemma processCertificates_independent s objects :
  independent (processCertificates s objects).
Proof.
  induction objects as [|object objects IH]; simpl; [apply independent_ret |].
  apply independent_bind; [apply processCertificate_independent | auto].
Qed.

Lemma processKeys_independent s objects :
  independent (processKeys s objects).
Proof.
  induction objects as [|object objects IH]; simpl; [apply independent_ret |].
  apply independent_bind; [apply processKey_independent | auto].
Qed.

Lemma processCertificates_app s objects1 objects2 st st1 :
  processCertificates s objects1 st = Ret tt st1 ->
  processCertificates s (objects1 ++ objects2) st = processCertificates s objects2 st1.
Proof.
  revert st. induction objects1 as [|object objects1 IH]; intros st; simpl.
  - by intros [= ->].
  - intros Hrun. apply bind_Ret_inv in Hrun as ([] & st' & Hobject & Hrest).
    rewrite (bind_Ret _ _ _ _ _ Hobject). by apply IH.
Qed.

Lemma processKeys_app s objects1 objects2 st st1 :
  processKeys s objects1 st = Ret tt st1 ->
  processKeys s (objects1 ++ objects2) st = processKeys s objects2 st1.
Proof.
  revert st. induction objects1 as [|object objects1 IH]; intros st; simpl.
  - by intros [= ->].
  - intros Hrun. apply bind_Ret_inv in Hrun as ([] & st' & Hobject & Hrest).
    rewrite (bind_Ret _ _ _ _ _ Hobject). by apply IH.
Qed.

Lemma processCertificates_same_vault s s' objects st :
  same_vault s s' ->
  processCertificates s objects st = processCertificates s' objects st.
Proof.
  intros (Hr & _ & Hs & Hc).
  assert (Hloop : forall keyVaultCert startTime w st,
            certificateVersions s keyVaultCert startTime w st
            = certificateVersions s' keyVaultCert startTime w st).
  { intros keyVaultCert startTime.
    induction w as [|certVersion w IH]; intros st0; simpl; [done |].
    rewrite Hr, Hs.
    destruct (negb _); [by repeat (apply bind_ext; intros ? ?) |].
    destruct (GetSecret _ _ _) as [secretBundle | err]; [| done].
    destruct (negb _); by repeat (apply bind_ext; intros ? ?). }
  revert st. induction objects as [|object objects IH]; intros st; simpl; [done |].
  transitivity (bind (processCertificate s' object)
                  (fun _ => processCertificates s objects) st);
    [| by apply bind_ext].
  unfold bind.
  assert (Hobject : processCertificate s object st = processCertificate s' object st);
    [| by rewrite Hobject].
  unfold processCertificate, processCertificateVersion, handleDisabledSecret,
    processCertificateVersions, fetchCertificateVersionHistory.
  rewrite Hr, Hs, Hc.
  case_bool_decide; [done |].
  apply bind_ext. intros h st1. apply bind_ext. intros w st2.
  case_bool_decide; [done | apply Hloop].
Qed.

Lemma processKeys_same_vault s s' objects st :
  same_vault s s' -> processKeys s objects st = processKeys s' objects st.
Proof.
  intros (Hr & Hk & _ & _).
  assert (Hloop : forall keyVaultKey startTime w st,
            keyVersions s keyVaultKey startTime w st
            = keyVersions s' keyVaultKey startTime w st).
  { intros keyVaultKey startTime.
    induction w as [|keyVersion w IH]; intros st0; simpl; [done |].
    rewrite Hr, Hk.
    destruct (negb _); [by repeat (apply bind_ext; intros ? ?) |].
    destruct (GetKey _ _ _) as [keyBundle | err]; [| done].
    destruct (negb _); [by repeat (apply bind_ext; intros ? ?) |].
    destruct (getKeyFromKeyBundle keyBundle); [| done].
    by repeat (apply bind_ext; intros ? ?). }
  revert st. induction objects as [|object objects IH]; intros st; simpl; [done |].
  transitivity (bind (processKey s' object) (fun _ => processKeys s objects) st);
    [| by apply bind_ext].
  unfold bind.
  assert (Hobject : processKey s object st = processKey s' object st);
    [| by rewrite Hobject].
  unfold processKey, processKeyVersion, processKeyVersions, fetchKeyVersionHistory.
  rewrite Hr, Hk.
  case_bool_decide; [done |].
  apply bind_ext. intros h st1. apply bind_ext. intros w st2.
  case_bool_decide; [done | apply Hloop].
Qed.

End Independent.

Lemma Ret_fetch_inv {V} (m m' : gmap KMPMapKey.t V)
    (d d' : KeyManagementProviderStatus) (e e' : option error)
    (t t' : list Event) :
  @Ret (list Event) (FetchReturn V) (Some m, Some d, e) t
  = Ret (Some m', Some d', e') t' ->
  m = m' /\ d = d' /\ t = t'.
Proof. intros Heq. by injection Heq. Qed.

Lemma getStatusMap_inj entries entries' contentType :
  getStatusMap entries contentType = getStatusMap entries' contentType ->
  entries = entries'.
Proof.
  unfold getStatusMap. intros Heq.
  assert (Hl : (<[contentType := entries]> ∅ : KeyManagementProviderStatus)
               !! contentType = Some entries) by apply lookup_insert_eq.
  rewrite Heq, lookup_insert_eq in Hl. by injection Hl.
Qed.

(** With one reading of the clock throughout, the fetch of a configuration
    in two parts is the fetch of the first part followed by that of the
    second. *)
Lemma GetCertificates_concatenated_one_clock {ext : Externals}
    (s1 s2 s : akvKMProvider)
    (certsMap1 certsMap2 : gmap KMPMapKey.t (list Certificate))
    (entries1 entries2 : list StatusProperty) (trace1 trace2 : list Event) :
  same_vault s1 s ->
  same_vault s2 s ->
  certificates s = certificates s1 ++ certificates s2 ->
  GetCertificates s1 []
  = Ret (Some certsMap1, Some (getStatusMap entries1 CertificatesStatus), None)
      trace1 ->
  GetCertificates s2 []
  = Ret (Some certsMap2, Some (getStatusMap entries2 CertificatesStatus), None)
      trace2 ->
  GetCertificates s []
  = Ret (Some (certsMap2 ∪ certsMap1),
         Some (getStatusMap (entries1 ++ entries2) CertificatesStatus), None)
      (trace1 ++ trace2).
Proof.
  intros Hv1 Hv2 Hcfg. unfold GetCertificates. rewrite Hcfg.
  rewrite (processCertificates_same_vault s1 s _ _ Hv1).
  rewrite (processCertificates_same_vault s2 s _ _ Hv2).
  destruct (processCertificates s (certificates s1) (mkFetchState ∅ [] []))
    as [[] st1 | | |] eqn:H1; try discriminate.
  intros Heq. apply Ret_fetch_inv in Heq as (<- & Hst1 & <-).
  apply getStatusMap_inj in Hst1 as <-.
  rewrite (processCertificates_app _ _ _ _ _ H1).
  rewrite (processCertificates_independent s (certificates s2) st1).
  change (initial_state []) with (@mkFetchState (list Certificate) ∅ [] []).
  destruct (processCertificates s (certificates s2) (mkFetchState ∅ [] []))
    as [[] st2 | | |] eqn:H2; try discriminate.
  intros Heq. apply Ret_fetch_inv in Heq as (<- & Hst2 & <-).
  apply getStatusMap_inj in Hst2 as <-.
  done.
Qed.

Lemma GetKeys_concatenated_one_clock {ext : Externals}
    (s1 s2 s : akvKMProvider) (keysMap1 keysMap2 : gmap KMPMapKey.t PublicKey)
    (entries1 entries2 : list StatusProperty) (trace1 trace2 : list Event) :
  same_vault s1 s ->
  same_vault s2 s ->
  keys s = keys s1 ++ keys s2 ->
  GetKeys s1 []
  = Ret (Some keysMap1, Some (getStatusMap entries1 KeysStatus), None) trace1 ->
  GetKeys s2 []
  = Ret (Some keysMap2, Some (getStatusMap entries2 KeysStatus), None) trace2 ->
  GetKeys s []
  = Ret (Some (keysMap2 ∪ keysMap1),
         Some (getStatusMap (entries1 ++ entries2) KeysStatus), None)
      (trace1 ++ trace2).
Proof.
  intros Hv1 Hv2 Hcfg. unfold GetKeys. rewrite Hcfg.
  rewrite (processKeys_same_vault s1 s _ _ Hv1).
  rewrite (processKeys_same_vault s2 s _ _ Hv2).
  destruct (processKeys s (keys s1) (mkFetchState ∅ [] []))
    as [[] st1 | | |] eqn:H1; try discriminate.
  intros Heq. apply Ret_fetch_inv in Heq as (<- & Hst1 & <-).
  apply getStatusMap_inj in Hst1 as <-.
  rewrite (processKeys_app _ _ _ _ _ H1).
  rewrite (processKeys_independent s (keys s2) st1).
  change (initial_state []) with (@mkFetchState PublicKey ∅ [] []).
  destruct (processKeys s (keys s2) (mkFetchState ∅ [] []))
    as [[] st2 | | |] eqn:H2; try discriminate.
  intros Heq. apply Ret_fetch_inv in Heq as (<- & Hst2 & <-).
  apply getStatusMap_inj in Hst2 as <-.
  done.
Qed.

(** ** The time of a fetch shows in the times of refresh only *)

Section Alike.
Context {S : Type} (RS : S -> S -> Prop).

Lemma alike_ret {A} (RA : A -> A -> Prop) a a' :
  RA a a' -> alike_runs RS RA (ret a) (ret a').
Proof. by intros Ha s s' Hs. Qed.

Lemma alike_fail {A} (RA : A -> A -> Prop) e :
  alike_runs RS RA (fail e) (fail e).
Proof. by intros s s' Hs. Qed.

Lemma alike_crash {A} (RA : A -> A -> Prop) p :
  alike_runs RS RA (crash p) (crash p).
Proof. by intros s s' Hs. Qed.

Lemma alike_of_outcome {A} (o : outcome A) :
  alike_runs RS eq (of_outcome o) (of_outcome o).
Proof. destruct o; [by apply alike_ret | apply alike_crash]. Qed.

Lemma alike_deref {A} (p : option A) : alike_runs RS eq (deref p) (deref p).
Proof. destruct p; [by apply alike_ret | apply alike_crash]. Qed.

Lemma alike_bind {A B} (RA : A -> A -> Prop) (RB : B -> B -> Prop)
    (m m' : M S A) (k k' : A -> M S B) :
  alike_runs RS RA m m' ->
  (forall a a', RA a a' -> alike_runs RS RB (k a) (k' a')) ->
  alike_runs RS RB (bind m k) (bind m' k').
Proof.
  intros Hm Hk s s' Hs. unfold bind. specialize (Hm s s' Hs).
  destruct (m s) as [a s1 | e s1 | p |], (m' s') as [a' s1' | e' s1' | p' |];
    try done.
  destruct Hm as [Ha Hs1]. by apply Hk.
Qed.

Lemma alike_wrap_error {A} (RA : A -> A -> Prop) prefix (m m' : M S A) :
  alike_runs RS RA m m' ->
  alike_runs RS RA (wrap_error prefix m) (wrap_error prefix m').
Proof.
  intros Hm s s' Hs. unfold wrap_error. specialize (Hm s s' Hs).
  destruct (m s), (m' s'); try done. destruct Hm as [-> ?]. done.
Qed.

End Alike.

Lemma alike_with_trace {V A} (RA : A -> A -> Prop) (m m' : M (list Event) A) :
  alike_runs eq RA m m' ->
  alike_runs (@same_but_times V) RA (with_trace m) (with_trace m').
Proof.
  intros Hm st st' (Hmap & Hstatus & Htrace). unfold with_trace.
  specialize (Hm (fsTrace st) (fsTrace st') Htrace).
  destruct (m (fsTrace st)), (m' (fsTrace st')); try done;
    destruct Hm as [? ->]; done.
Qed.

Lemma alike_emit {V} e : alike_runs (@same_but_times V) eq (emit e) (emit e).
Proof.
  intros st st' (Hmap & Hstatus & Htrace). split; [done |].
  split; [done | split; [done |]]. simpl. by rewrite Htrace.
Qed.

Lemma alike_append_status {V} entries entries' :
  map untimed entries = map untimed entries' ->
  alike_runs (@same_but_times V) eq (append_status entries) (append_status entries').
Proof.
  intros He st st' (Hmap & Hstatus & Htrace). split; [done |].
  split; [done | split; [| done]]. simpl. by rewrite !map_app, Hstatus, He.
Qed.

Lemma alike_map_store {V} mapKey (v : V) :
  alike_runs same_but_times eq (map_store mapKey v) (map_store mapKey v).
Proof.
  intros st st' (Hmap & Hstatus & Htrace). split; [done |].
  split; [| done]. simpl. by rewrite Hmap.
Qed.

Lemma alike_log e : alike_runs eq eq (log e) (log e).
Proof. intros tr tr' <-. done. Qed.

(** An independent computation is blind to the times in the state. *)
Lemma alike_independent {V A} (m : M (FetchState V) A) :
  independent m -> alike_runs same_but_times eq m m.
Proof.
  intros Hm st st' (Hmap & Hstatus & Htrace). rewrite (Hm st), (Hm st').
  destruct (m (initial_state [])) as [a st0 | e st0 | p |]; try done;
    (split; [done |]; unfold followed_by; split; [| split]; simpl;
     [by rewrite Hmap | by rewrite !map_app, Hstatus | by rewrite Htrace]).
Qed.

Section Clock.
Context {ext : Externals}.

Lemma fold_entries_alike certName version lastRefreshed lastRefreshed' enabled
    (decodedCerts results : list Certificate) certsStatus certsStatus' :
  map untimed certsStatus = map untimed certsStatus' ->
  parsed_alike
    (fold_left
       (fun acc cert =>
          (acc.1 ++ [cert],
           acc.2 ++ [getStatusProperty certName version lastRefreshed enabled]))
       decodedCerts (results, certsStatus))
    (fold_left
       (fun acc cert =>
          (acc.1 ++ [cert],
           acc.2 ++ [getStatusProperty certName version lastRefreshed' enabled]))
       decodedCerts (results, certsStatus')).
Proof.
  revert results certsStatus certsStatus'.
  induction decodedCerts as [|cert certs IH]; intros results cs cs' Hcs; [done |].
  simpl. apply IH. by rewrite !map_app, Hcs.
Qed.

Lemma handleBlock_alike certName version lastRefreshed lastRefreshed' enabled block
    results certsStatus certsStatus' :
  map untimed certsStatus = map untimed certsStatus' ->
  alike_runs eq parsed_alike
    (handleBlock certName version lastRefreshed enabled block results certsStatus)
    (handleBlock certName version lastRefreshed' enabled block results certsStatus').
Proof.
  intros Hcs. unfold handleBlock. repeat case_bool_decide.
  - eapply alike_bind; [apply alike_log |]. intros _ _ _. by apply alike_ret.
  - destruct (DecodeCertificates _); [| apply alike_fail].
    apply alike_ret. by apply fold_entries_alike.
  - eapply alike_bind; [apply alike_log |]. intros _ _ _. by apply alike_ret.
Qed.

Lemma decodeBlocks_alike fuel certName version lastRefreshed lastRefreshed' enabled
    block rest results certsStatus certsStatus' :
  map untimed certsStatus = map untimed certsStatus' ->
  alike_runs eq parsed_alike
    (decodeBlocks fuel certName version lastRefreshed enabled block rest results
       certsStatus)
    (decodeBlocks fuel certName version lastRefreshed' enabled block rest results
       certsStatus').
Proof.
  revert block rest results certsStatus certsStatus'.
  induction fuel as [|fuel IH]; intros block rest results cs cs' Hcs;
    [by intros tr tr' _ |].
  cbn [decodeBlocks].
  eapply alike_bind; [by apply handleBlock_alike |].
  intros acc acc' [Hc Hs]. destruct (pem_Decode rest).1.
  - rewrite Hc. by apply IH.
  - case_bool_decide; [apply alike_fail | by apply alike_ret].
Qed.

Lemma getCertsFromSecretBundle_at_time now secretBundle certName enabled :
  alike_runs eq parsed_alike
    (getCertsFromSecretBundle (H := at_time ext now) secretBundle certName enabled)
    (getCertsFromSecretBundle (H := ext) secretBundle certName enabled).
Proof.
  unfold getCertsFromSecretBundle.
  eapply alike_bind; [apply alike_deref |]. intros id _ <-.
  eapply alike_bind; [apply alike_deref |]. intros ct _ <-.
  destruct (_ && _); [apply alike_fail |].
  eapply alike_bind; [apply alike_deref |]. intros value _ <-.
  eapply alike_bind with (RA := eq).
  - case_bool_decide; [| by apply alike_ret].
    change (@base64_DecodeString (at_time ext now)) with (@base64_DecodeString ext).
    destruct (base64_DecodeString value); [| apply alike_fail].
    change (@pkcs12_ToPEM (at_time ext now)) with (@pkcs12_ToPEM ext).
    destruct (pkcs12_ToPEM _ _); [by apply alike_ret | apply alike_fail].
  - intros data _ <-.
    change (@pem_Decode (at_time ext now)) with (@pem_Decode ext).
    destruct (pem_Decode data).1; [| by apply alike_ret].
    change (@decodeBlocks (at_time ext now)) with (@decodeBlocks ext).
    by apply decodeBlocks_alike.
Qed.


Lemma fetchCertificateVersionHistory_independent s certName :
  independent (fetchCertificateVersionHistory s certName).
Proof.
  unfold fetchCertificateVersionHistory.
  apply independent_bind; [| intros vh; apply independent_ret].
  generalize (@nil KeyVaultValueVersion.t) as vh.
  induction (NewListCertificateVersionsPager _ _) as [|[items | err] pages IH];
    intros vh; simpl;
    [apply independent_ret | | apply independent_fail].
  apply independent_bind; [| intros vh'; apply IH].
  revert vh. induction items as [|cert items IHitems]; intros vh; simpl;
    [apply independent_ret |].
  destruct (negb _).
  - apply independent_bind; [apply independent_emit | auto].
  - repeat (apply independent_bind; [apply independent_deref |]; intros ?).
    apply IHitems.
Qed.

Lemma fetchKeyVersionHistory_independent s keyName :
  independent (fetchKeyVersionHistory s keyName).
Proof.
  unfold fetchKeyVersionHistory.
  apply independent_bind; [| intros vh; apply independent_ret].
  generalize (@nil KeyVaultValueVersion.t) as vh.
  induction (NewListKeyVersionsPager _ _) as [|[items | err] pages IH];
    intros vh; simpl;
    [apply independent_ret | | apply independent_fail].
  apply independent_bind; [| intros vh'; apply IH].
  revert vh. induction items as [|key items IHitems]; intros vh; simpl;
    [apply independent_ret |].
  destruct (negb _).
  - apply independent_bind; [apply independent_emit | auto].
  - repeat (apply independent_bind; [apply independent_deref |]; intros ?).
    apply IHitems.
Qed.

Lemma store_parsed_at_time now secretBundle name mapKey enabled
    (k k' : M (FetchState (list Certificate)) unit) :
  alike_runs same_but_times eq k k' ->
  alike_runs same_but_times eq
    (let* parsed :=
       wrap_error "failed to get certificates from secret bundle:"
         (with_trace
            (getCertsFromSecretBundle (H := at_time ext now) secretBundle name
               enabled)) in
     let* _ := emit (ReportAKVCertificateDuration name) in
     let* _ := append_status parsed.2 in
     let* _ := map_store mapKey parsed.1 in
     k)
    (let* parsed :=
       wrap_error "failed to get certificates from secret bundle:"
         (with_trace
            (getCertsFromSecretBundle (H := ext) secretBundle name enabled)) in
     let* _ := emit (ReportAKVCertificateDuration name) in
     let* _ := append_status parsed.2 in
     let* _ := map_store mapKey parsed.1 in
     k').
Proof.
  intros Hk.
  eapply alike_bind.
  { apply alike_wrap_error, alike_with_trace.
    exact (getCertsFromSecretBundle_at_time now secretBundle name enabled). }
  intros parsed parsed' [Hc Hs].
  eapply alike_bind; [apply alike_emit |]. intros _ _ _.
  eapply alike_bind; [by apply alike_append_status |]. intros _ _ _.
  rewrite Hc.
  eapply alike_bind; [apply alike_map_store |]. intros _ _ _. exact Hk.
Qed.

Lemma handleDisabledSecret_alike s keyVaultCert startTime startTime' :
  alike_runs same_but_times eq
    (handleDisabledSecret s keyVaultCert startTime)
    (handleDisabledSecret s keyVaultCert startTime').
Proof.
  unfold handleDisabledSecret.
  destruct (GetCertificate _ _ _) as [certResponse | err]; [| apply alike_fail].
  destruct (negb _); [apply alike_emit |].
  eapply alike_bind; [apply alike_deref |]. intros attrs _ <-.
  eapply alike_bind; [apply alike_deref |]. intros isEnabled _ <-.
  eapply alike_bind; [by apply alike_append_status |]. intros _ _ _.
  apply alike_emit.
Qed.

Lemma certificateVersions_at_time now s keyVaultCert startTime startTime'
    versionHistory :
  alike_runs same_but_times eq
    (certificateVersions (H := at_time ext now) s keyVaultCert startTime
       versionHistory)
    (certificateVersions (H := ext) s keyVaultCert startTime' versionHistory).
Proof.
  induction versionHistory as [|certVersion w IH]; cbn [certificateVersions];
    [by apply alike_ret |].
  destruct (negb _).
  - eapply alike_bind; [by apply alike_append_status |]. intros _ _ _.
    eapply alike_bind; [apply alike_emit |]. intros _ _ _. exact IH.
  - destruct (GetSecret _ _ _) as [secretBundle | err]; [| apply alike_fail].
    destruct (negb _).
    + eapply alike_bind; [apply alike_emit |]. intros _ _ _. exact IH.
    + by apply store_parsed_at_time.
Qed.

Lemma processCertificate_at_time now s keyVaultCert :
  alike_runs same_but_times eq
    (processCertificate (H := at_time ext now) s keyVaultCert)
    (processCertificate (H := ext) s keyVaultCert).
Proof.
  unfold processCertificate. case_bool_decide.
  - unfold processCertificateVersion.
    destruct (GetSecret _ _ _) as [secretBundle | err].
    + destruct (negb _); [apply alike_emit |].
      eapply alike_bind; [apply alike_deref |]. intros attrs _ <-.
      eapply alike_bind; [apply alike_deref |]. intros isEnabled _ <-.
      apply (store_parsed_at_time now secretBundle _ _ isEnabled (ret tt) (ret tt)).
      by apply alike_ret.
    + eapply alike_bind; [apply alike_of_outcome |]. intros disabled _ <-.
      destruct (negb disabled); [apply alike_fail |].
      apply handleDisabledSecret_alike.
  - unfold processCertificateVersions.
    eapply alike_bind.
    { apply alike_wrap_error, alike_independent,
        fetchCertificateVersionHistory_independent. }
    intros h _ <-.
    eapply alike_bind; [apply alike_of_outcome |]. intros w _ <-.
    case_bool_decide; [apply alike_emit | apply certificateVersions_at_time].
Qed.

Lemma processCertificates_at_time now s objects :
  alike_runs same_but_times eq
    (processCertificates (H := at_time ext now) s objects)
    (processCertificates (H := ext) s objects).
Proof.
  induction objects as [|object objects IH]; cbn [processCertificates];
    [by apply alike_ret |].
  eapply alike_bind; [apply processCertificate_at_time |]. intros _ _ _. exact IH.
Qed.

Lemma keyVersions_at_time now s keyVaultKey startTime startTime' versionHistory :
  alike_runs same_but_times eq
    (keyVersions (H := at_time ext now) s keyVaultKey startTime versionHistory)
    (keyVersions (H := ext) s keyVaultKey startTime' versionHistory).
Proof.
  induction versionHistory as [|keyVersion w IH]; cbn [keyVersions];
    [by apply alike_ret |].
  destruct (negb _).
  - eapply alike_bind; [by apply alike_append_status |]. intros _ _ _.
    eapply alike_bind; [apply alike_emit |]. intros _ _ _. exact IH.
  - destruct (GetKey _ _ _) as [keyBundle | err]; [| apply alike_fail].
    destruct (negb _).
    + eapply alike_bind; [apply alike_emit |]. intros _ _ _. exact IH.
    + change (@getKeyFromKeyBundle (at_time ext now)) with (@getKeyFromKeyBundle ext).
      destruct (getKeyFromKeyBundle keyBundle); [| apply alike_fail].
      eapply alike_bind; [apply alike_map_store |]. intros _ _ _.
      eapply alike_bind; [by apply alike_append_status |]. intros _ _ _. exact IH.
Qed.

Lemma processKey_at_time now s keyVaultKey :
  alike_runs same_but_times eq
    (processKey (H := at_time ext now) s keyVaultKey)
    (processKey (H := ext) s keyVaultKey).
Proof.
  unfold processKey. case_bool_decide.
  - unfold processKeyVersion.
    destruct (GetKey _ _ _) as [keyBundle | err]; [| apply alike_fail].
    destruct (negb _); [apply alike_emit |].
    eapply alike_bind; [apply alike_deref |]. intros attrs _ <-.
    eapply alike_bind; [apply alike_deref |]. intros isEnabled _ <-.
    eapply alike_bind; [apply alike_deref |]. intros webKey _ <-.
    eapply alike_bind; [apply alike_deref |]. intros kid _ <-.
    destruct (negb _).
    + eapply alike_bind; [by apply alike_append_status |]. intros _ _ _.
      apply alike_emit.
    + change (@getKeyFromKeyBundle (at_time ext now)) with (@getKeyFromKeyBundle ext).
      destruct (getKeyFromKeyBundle keyBundle); [| apply alike_fail].
      eapply alike_bind; [apply alike_map_store |]. intros _ _ _.
      eapply alike_bind; [apply alike_emit |]. intros _ _ _.
      by apply alike_append_status.
  - unfold processKeyVersions.
    eapply alike_bind.
    { apply alike_wrap_error, alike_independent, fetchKeyVersionHistory_independent. }
    intros h _ <-.
    eapply alike_bind; [apply alike_of_outcome |]. intros w _ <-.
    case_bool_decide; [apply alike_emit | apply keyVersions_at_time].
Qed.

Lemma processKeys_at_time now s objects :
  alike_runs same_but_times eq
    (processKeys (H := at_time ext now) s objects)
    (processKeys (H := ext) s objects).
Proof.
  induction objects as [|object objects IH]; cbn [processKeys];
    [by apply alike_ret |].
  eapply alike_bind; [apply processKey_at_time |]. intros _ _ _. exact IH.
Qed.

End Clock.

Section Runs.
Context {ext : Externals}.

Lemma GetCertificates_at_time now s trace certsMap entries trace' :
  GetCertificates (H := at_time ext now) s trace
  = Ret (Some certsMap, Some (getStatusMap entries CertificatesStatus), None) trace' ->
  exists entries',
    GetCertificates (H := ext) s trace
    = Ret (Some certsMap, Some (getStatusMap entries' CertificatesStatus), None)
        trace'
    /\ map untimed entries' = map untimed entries.
Proof.
  unfold GetCertificates.
  pose proof (processCertificates_at_time now s (certificates s)
                (mkFetchState ∅ [] trace) (mkFetchState ∅ [] trace)) as Hrun.
  destruct (processCertificates (H := at_time ext now) s (certificates s) _)
    as [[] st | e st | p |];
    destruct (processCertificates (H := ext) s (certificates s) _)
    as [[] st' | e' st' | p' |];
    try discriminate; try (by specialize (Hrun ltac:(done))).
  destruct Hrun as (_ & Hmap & Hstatus & Htrace); [done |].
  intros Heq. apply Ret_fetch_inv in Heq as (<- & Hst & <-).
  apply getStatusMap_inj in Hst as <-.
  exists (fsStatus st'). by rewrite Hmap, Htrace.
Qed.

Lemma GetKeys_at_time now s trace keysMap entries trace' :
  GetKeys (H := at_time ext now) s trace
  = Ret (Some keysMap, Some (getStatusMap entries KeysStatus), None) trace' ->
  exists entries',
    GetKeys (H := ext) s trace
    = Ret (Some keysMap, Some (getStatusMap entries' KeysStatus), None) trace'
    /\ map untimed entries' = map untimed entries.
Proof.
  unfold GetKeys.
  pose proof (processKeys_at_time now s (keys s)
                (mkFetchState ∅ [] trace) (mkFetchState ∅ [] trace)) as Hrun.
  destruct (processKeys (H := at_time ext now) s (keys s) _)
    as [[] st | e st | p |];
    destruct (processKeys (H := ext) s (keys s) _)
    as [[] st' | e' st' | p' |];
    try discriminate; try (by specialize (Hrun ltac:(done))).
  destruct Hrun as (_ & Hmap & Hstatus & Htrace); [done |].
  intros Heq. apply Ret_fetch_inv in Heq as (<- & Hst & <-).
  apply getStatusMap_inj in Hst as <-.
  exists (fsStatus st'). by rewrite Hmap, Htrace.
Qed.

End Runs.

(** X27.  Certificates are fetched one after the other, each
    independently of those before it and of the time of the fetch.  When a
    configuration is the certificates of one provider followed by those of
    another over the same vault, and a fetch of the first alone and a fetch
    of the second alone succeed, each at a time of its own, the fetch of
    the whole, at its time, succeeds with the events of the first followed
    by those of the second, the map of both, in which a map key of the
    second takes the place of the same key of the first, and status
    entries that are those of the first followed by those of the second in
    name, version and enabled flag.  The times of refresh are those of
    each run and are not compared. *)
Theorem GetCertificates_of_a_concatenated_configuration {ext : Externals}
    (now1 now2 : Time) (s1 s2 s : akvKMProvider)
    (certsMap1 certsMap2 : gmap KMPMapKey.t (list (@Certificate ext)))
    (entries1 entries2 : list StatusProperty) (trace1 trace2 : list Event) :
  same_vault s1 s ->
  same_vault s2 s ->
  certificates s = certificates s1 ++ certificates s2 ->
  GetCertificates (H := at_time ext now1) s1 []
  = Ret (Some certsMap1, Some (getStatusMap entries1 (@CertificatesStatus ext)), None)
      trace1 ->
  GetCertificates (H := at_time ext now2) s2 []
  = Ret (Some certsMap2, Some (getStatusMap entries2 (@CertificatesStatus ext)), None)
      trace2 ->
  exists entries,
    GetCertificates (H := ext) s []
    = Ret (Some (certsMap2 ∪ certsMap1),
           Some (getStatusMap entries (@CertificatesStatus ext)), None)
        (trace1 ++ trace2)
    /\ map untimed entries = map untimed (entries1 ++ entries2).
Proof.
  intros Hv1 Hv2 Hcfg Hrun1 Hrun2.
  apply GetCertificates_at_time in Hrun1 as (entries1' & Hrun1 & Hsame1).
  apply GetCertificates_at_time in Hrun2 as (entries2' & Hrun2 & Hsame2).
  exists (entries1' ++ entries2'). split.
  - by apply (GetCertificates_concatenated_one_clock s1 s2 s).
  - by rewrite !map_app, Hsame1, Hsame2.
Qed.

Lemma GetCertificates_of_a_concatenated_configuration_witness :
  exists entries,
    GetCertificates (H := dated_externals)
      (example_provider [object_cert1_history; object_cert_off] []) []
    = Ret (Some (∅ ∪ fsMap state_after_cert1_history),
           Some (getStatusMap entries "Certificates"), None)
        (fsTrace state_after_cert1_history
         ++ [DeleteCertificateFromMap "default/kmp-akv"
               (KMPMapKey.mk "cert-off" "v7" false)])
    /\ map untimed entries
       = map untimed
           (fsStatus state_after_cert1_history
            ++ [getStatusProperty "cert-off" "v7" "2023-11-14T23:13:20Z" false]).
Proof.
  apply (GetCertificates_of_a_concatenated_configuration (ext := dated_externals)
           1700000000 1700003600
           (example_provider [object_cert1_history] [])
           (example_provider [object_cert_off] [])
           (example_provider [object_cert1_history; object_cert_off] [])
           (fsMap state_after_cert1_history) ∅
           (fsStatus state_after_cert1_history)
           [getStatusProperty "cert-off" "v7" "2023-11-14T23:13:20Z" false]
           (fsTrace state_after_cert1_history)
           [DeleteCertificateFromMap "default/kmp-akv"
              (KMPMapKey.mk "cert-off" "v7" false)]).
  - repeat split.
  - repeat split.
  - reflexivity.
  - by_evaluation.
  - by_evaluation.
Defined.

(** X28.  Keys are fetched one after the other, each independently of
    those before it and of the time of the fetch: when a fetch of the keys
    of one provider alone and a fetch of those of another over the same
    vault alone succeed, each at a time of its own, the fetch of the keys
    of the first followed by those of the second, at its time, succeeds
    with the events of the first followed by those of the second, the map
    of both, in which a map key of the second takes the place of the same
    key of the first, and status entries that are those of the first
    followed by those of the second in name, version and enabled flag.
    The times of refresh are those of each run and are not compared. *)
Theorem GetKeys_of_a_concatenated_configuration {ext : Externals}
    (now1 now2 : Time) (s1 s2 s : akvKMProvider)
    (keysMap1 keysMap2 : gmap KMPMapKey.t (@PublicKey ext))
    (entries1 entries2 : list StatusProperty) (trace1 trace2 : list Event) :
  same_vault s1 s ->
  same_vault s2 s ->
  keys s = keys s1 ++ keys s2 ->
  GetKeys (H := at_time ext now1) s1 []
  = Ret (Some keysMap1, Some (getStatusMap entries1 (@KeysStatus ext)), None)
      trace1 ->
  GetKeys (H := at_time ext now2) s2 []
  = Ret (Some keysMap2, Some (getStatusMap entries2 (@KeysStatus ext)), None)
      trace2 ->
  exists entries,
    GetKeys (H := ext) s []
    = Ret (Some (keysMap2 ∪ keysMap1),
           Some (getStatusMap entries (@KeysStatus ext)), None)
        (trace1 ++ trace2)
    /\ map untimed entries = map untimed (entries1 ++ entries2).
Proof.
  intros Hv1 Hv2 Hcfg Hrun1 Hrun2.
  apply GetKeys_at_time in Hrun1 as (entries1' & Hrun1 & Hsame1).
  apply GetKeys_at_time in Hrun2 as (entries2' & Hrun2 & Hsame2).
  exists (entries1' ++ entries2'). split.
  - by apply (GetKeys_concatenated_one_clock s1 s2 s).
  - by rewrite !map_app, Hsame1, Hsame2.
Qed.

Lemma GetKeys_of_a_concatenated_configuration_witness :
  exists entries,
    GetKeys (H := dated_externals)
      (example_provider [] [object_key1; object_key_off]) []
    = Ret (Some (∅ ∪ fsMap state_after_key1),
           Some (getStatusMap entries "Keys"), None)
        (fsTrace state_after_key1
         ++ [DeleteKeyFromMap "default/kmp-akv" (KMPMapKey.mk "key-off" "k9" false)])
    /\ map untimed entries
       = map untimed
           (fsStatus state_after_key1
            ++ [getStatusProperty "key-off" "k9" "2023-11-14T23:13:20Z" false]).
Proof.
  apply (GetKeys_of_a_concatenated_configuration (ext := dated_externals)
           1700000000 1700003600
           (example_provider [] [object_key1])
           (example_provider [] [object_key_off])
           (example_provider [] [object_key1; object_key_off])
           (fsMap state_after_key1) ∅
           (fsStatus state_after_key1)
           [getStatusProperty "key-off" "k9" "2023-11-14T23:13:20Z" false]
           (fsTrace state_after_key1)
           [DeleteKeyFromMap "default/kmp-akv" (KMPMapKey.mk "key-off" "k9" false)]).
  - repeat split.
  - repeat split.
  - reflexivity.
  - by_evaluation.
  - by_evaluation.
Defined.

(** ** The loop over the PEM blocks ends *)

(** X29.  The loop of [getCertsFromSecretBundle] over the blocks of a
    stream ends whenever [pem.Decode] consumes input with every block it
    returns: for every bundle the call then returns its result, returns an
    error or panics.  (The loop is run with one unit of fuel per byte left
    after the first block; it never needs more.) *)
Theorem getCertsFromSecretBundle_terminates {ext : Externals}
    (secretBundle : SecretBundle.t) (certName : string) (enabled : bool)
    (trace : list Event) :
  pem_Decode_consumes ->
  (exists parsed trace',
     getCertsFromSecretBundle secretBundle certName enabled trace
     = Ret parsed trace')
  \/ (exists err trace',
        getCertsFromSecretBundle secretBundle certName enabled trace
        = Fail err trace')
  \/ (exists p,
        getCertsFromSecretBundle secretBundle certName enabled trace = Crash p).
Proof.
  intros Hcons.
  pose proof (getCertsFromSecretBundle_finishes Hcons secretBundle certName
                enabled trace) as Hfin.
  destruct (getCertsFromSecretBundle secretBundle certName enabled trace)
    as [parsed trace' | err trace' | p |]; [eauto | eauto | eauto | done].
Qed.

Lemma getCertsFromSecretBundle_terminates_witness :
  (exists parsed trace',
     getCertsFromSecretBundle bundle_trailing_text "cert1" true [] = Ret parsed trace')
  \/ (exists err trace',
        getCertsFromSecretBundle bundle_trailing_text "cert1" true []
        = Fail err trace')
  \/ (exists p,
        getCertsFromSecretBundle bundle_trailing_text "cert1" true [] = Crash p).
Proof.
  apply (getCertsFromSecretBundle_terminates (ext := example_externals)
           bundle_trailing_text "cert1" true []).
  exact example_pem_Decode_consumes.
Defined.
